(** * Soundboard / retro desktop: paint canvas, soundboard boards and storage

    A shallow embedding of the algorithmic parts of the repository:
    the paint canvas (flood fill, undo/redo history), the soundboard's
    board list (record, delete, import/export), the base64 audio pipeline
    and the persisted browser history; further the soundboard's number keys,
    the dragging and resizing of its window, the settings kept in local
    storage and the migration of the stored window state.

    Numbers are integers ([Z], or [nat] for array indices), typed arrays and
    strings of code units are [list Z], JavaScript arrays are lists (with
    [None] for an element that is [undefined]), an exception is the [None] of
    an [option] result, and every event handler is a function from the state
    of its component to the next state. The first part holds the model, the
    second the proofs. *)

From Stdlib Require Import ZArith List Lia Bool QArith_base.
From stdpp Require Import base tactics option list list_numbers strings gmap.

Local Open Scope Z_scope.

(** ** Typed arrays

    [pixels[pos]] on a [Uint8ClampedArray] is [undefined] outside the array
    (modelled by [None]); a store outside the array is ignored, and storing
    [undefined] stores [0]. *)

Module TypedArray.

Definition get (a : list Z) (pos : Z) : option Z :=
  if pos <? 0 then None else a !! Z.to_nat pos.

Definition set (a : list Z) (pos : Z) (v : option Z) : list Z :=
  if pos <? 0 then a else <[Z.to_nat pos := default 0 v]> a.

(** JavaScript [===] on array reads: two numbers, or two [undefined]. *)
Definition strict_eq (a b : option Z) : bool := bool_decide (a = b).

End TypedArray.

(** ** The paint canvas (PaintCanvas component) *)

Module PaintCanvas.

Import TypedArray.

(** *** floodFill *)

Record ScanLine := mkScanLine {
  sl_y : Z;
  leftX : Z;
  rightX : Z;
  direction : Z  (* 1 for up, -1 for down *)
}.

Section FloodFill.

(** [canvas.width], [canvas.height] and the pattern rendered over a
    temporary canvas of the same size ([patternData.data]). *)
Variables (width height : Z) (patternData : list Z).

(** RGBA of the start pixel, read before the loop. *)
Variables (startR startG startB startA : option Z).

Definition matchesStart (pixels : list Z) (pos : Z) : bool :=
  strict_eq (get pixels pos) startR &&
  strict_eq (get pixels (pos + 1)) startG &&
  strict_eq (get pixels (pos + 2)) startB &&
  strict_eq (get pixels (pos + 3)) startA.

(** [setPixel] without the counter; the caller adds one to
    [filledPixels] per call. *)
Definition setPixel (pixels : list Z) (pos : Z) : list Z :=
  let p0 := set pixels pos (get patternData pos) in
  let p1 := set p0 (pos + 1) (get patternData (pos + 1)) in
  let p2 := set p1 (pos + 2) (get patternData (pos + 2)) in
  set p2 (pos + 3) (get patternData (pos + 3)).

(** [while (x1 > 0 && matchesStart((y * width + (x1 - 1)) * 4)) x1--].
    The counter [n] is the number of iterations still possible;
    it is started at [x1], which the test [x1 > 0] never lets it exceed. *)
Fixpoint extendLeft (n : nat) (pixels : list Z) (y x1 : Z) : Z :=
  match n with
  | O => x1
  | S n' =>
      if (0 <? x1) && matchesStart pixels ((y * width + (x1 - 1)) * 4)
      then extendLeft n' pixels y (x1 - 1)
      else x1
  end.

(** [while (x2 < width - 1 && matchesStart((y * width + (x2 + 1)) * 4)) x2++] *)
Fixpoint extendRight (n : nat) (pixels : list Z) (y x2 : Z) : Z :=
  match n with
  | O => x2
  | S n' =>
      if (x2 <? width - 1) && matchesStart pixels ((y * width + (x2 + 1)) * 4)
      then extendRight n' pixels y (x2 + 1)
      else x2
  end.

(** [for (let x = x1; x <= x2; x++) setPixel((y * width + x) * 4)] *)
Definition fillLine (pixels : list Z) (y x1 x2 : Z) : list Z :=
  fold_left (fun px x => setPixel px ((y * width + x) * 4))
            (seqZ x1 (x2 - x1 + 1)) pixels.

(** [scanlines[scanlines.length - 1].rightX = v]; the top of the stack is
    the head of the list. *)
Definition setTopRightX (scanlines : list ScanLine) (v : Z) : list ScanLine :=
  match scanlines with
  | [] => []
  | s :: rest =>
      mkScanLine (sl_y s) (leftX s) v (direction s) :: rest
  end.

(** One turn of the loop that looks for new scanlines in row [newY]. *)
Definition scanStep (pixels : list Z) (newY dir : Z)
    (acc : list ScanLine * bool) (x : Z) : list ScanLine * bool :=
  let '(scanlines, inRange) := acc in
  let newPos := (newY * width + x) * 4 in
  let matchesNow := matchesStart pixels newPos in
  if negb inRange && matchesNow then
    (mkScanLine newY x x dir :: scanlines, true)
  else if inRange && negb matchesNow then
    (setTopRightX scanlines (x - 1), false)
  else (scanlines, inRange).

Definition scanRow (pixels : list Z) (newY dir x1 x2 : Z)
    (scanlines : list ScanLine) : list ScanLine :=
  let '(scanlines', inRange) :=
    fold_left (scanStep pixels newY dir) (seqZ x1 (x2 - x1 + 1))
              (scanlines, false) in
  if inRange then setTopRightX scanlines' x2 else scanlines'.

(** State of the main loop. *)
Record FillState := mkFillState {
  pixels : list Z;
  scanlines : list ScanLine;
  filledPixels : Z
}.

(** Body of [while (scanlines.length > 0 && filledPixels < maxPixels)]:
    [s] is the popped scanline, [rest] the remaining stack. *)
Definition fillStep (st : FillState) (s : ScanLine) (rest : list ScanLine)
    : FillState :=
  let y := sl_y s in
  let newY := y + direction s in
  if (newY <? 0) || (height <=? newY) then
    mkFillState (pixels st) rest (filledPixels st)
  else
    let x1 := extendLeft (Z.to_nat (leftX s)) (pixels st) y (leftX s) in
    let x2 := extendRight (Z.to_nat (width - 1 - rightX s)) (pixels st) y
                          (rightX s) in
    let px := fillLine (pixels st) y x1 x2 in
    mkFillState px (scanRow px newY (direction s) x1 x2 rest)
                (filledPixels st + Z.max 0 (x2 - x1 + 1)).

(** [Math.floor(canvas.width * canvas.height * 0.8)]: the double nearest
    to 0.8 lies above 4/5 by less than 5e-17, so for every canvas area
    below 2^50 the rounded product has the integer part of
    [4 * width * height / 5]. *)
Definition maxPixels : Z := (width * height * 4) / 5.

Fixpoint fillLoop (fuel : nat) (st : FillState) : option FillState :=
  match scanlines st with
  | [] => Some st
  | s :: rest =>
      if filledPixels st <? maxPixels then
        match fuel with
        | O => None
        | S fuel' => fillLoop fuel' (fillStep st s rest)
        end
      else Some st
  end.

End FloodFill.

(** The pixel-buffer part of [floodFill(startX, startY)]: [pixels] is
    [imageData.data] read from the canvas, the result is the buffer handed
    to [putImageData]; [None] only when [fuel] turns of the loop were not
    enough. *)
Definition floodFill (fuel : nat) (width height : Z)
    (pixels0 patternData : list Z) (startX startY : Z) : option (list Z) :=
  let startPos := (startY * width + startX) * 4 in
  let startR := get pixels0 startPos in
  let startG := get pixels0 (startPos + 1) in
  let startB := get pixels0 (startPos + 2) in
  let startA := get pixels0 (startPos + 3) in
  let targetPos := (startY * width + startX) * 4 in
  if strict_eq (get pixels0 targetPos) (get patternData targetPos) &&
     strict_eq (get pixels0 (targetPos + 1)) (get patternData (targetPos + 1)) &&
     strict_eq (get pixels0 (targetPos + 2)) (get patternData (targetPos + 2)) &&
     strict_eq (get pixels0 (targetPos + 3)) (get patternData (targetPos + 3))
  then Some pixels0
  else
    let st0 := mkFillState pixels0
                 [mkScanLine startY startX startX (-1);
                  mkScanLine startY startX startX 1] 0 in
    pixels <$> fillLoop width height patternData startR startG startB startA
                        fuel st0.

(** The four channels of the pixel stored at byte offset [pos]. *)
Definition rgba (a : list Z) (pos : Z) : option Z * option Z * option Z * option Z :=
  (get a pos, get a (pos + 1), get a (pos + 2), get a (pos + 3)).

Definition pixelPos (width x y : Z) : Z := (y * width + x) * 4.

Definition inCanvas (width height x y : Z) : Prop :=
  0 <= x < width /\ 0 <= y < height.

Definition adjacent4 (x y x' y' : Z) : Prop :=
  (x' = x /\ (y' = y + 1 \/ y' = y - 1)) \/
  (y' = y /\ (x' = x + 1 \/ x' = x - 1)).

(** The 4-connected region of the start pixel: the pixels reached from
    [(startX, startY)] through horizontal and vertical neighbours whose RGBA
    value in [pixels0] is that of the start pixel. *)
Inductive region (width height : Z) (pixels0 : list Z) (startX startY : Z)
    : Z -> Z -> Prop :=
| region_start : region width height pixels0 startX startY startX startY
| region_step x y x' y' :
    region width height pixels0 startX startY x y ->
    adjacent4 x y x' y' ->
    inCanvas width height x' y' ->
    rgba pixels0 (pixelPos width x' y') =
      rgba pixels0 (pixelPos width startX startY) ->
    region width height pixels0 startX startY x' y'.

(** Enough turns for the main loop on a [width] x [height] canvas. *)
Definition fillFuel (width height : Z) : nat :=
  Z.to_nat (2 * maxPixels width height + 2).

(** A buffer of opaque grey pixels, one grey level per pixel. *)
Definition greyPixels (levels : list Z) : list Z :=
  flat_map (fun c => [c; c; c; 255]) levels.

(** A one-pixel-wide canvas of twelve rows: a strip of ten pixels of level 7
    between two pixels of level 1, and a pattern of level 9. *)
Definition stripCanvas : list Z := greyPixels (1 :: repeat 7 10%nat ++ [1]).
Definition stripPattern : list Z := greyPixels (repeat 9 12%nat).

(** A 3 x 3 canvas of a single colour, and a pattern of another. *)
Definition plainCanvas : list Z := greyPixels (repeat 7 9%nat).
Definition plainPattern : list Z := greyPixels (repeat 9 9%nat).

(** A 3 x 5 canvas whose pixels of level 7 make a hook: the left column and
    the right column, joined by the two full rows at the bottom and parted by
    a wall of level 1 in the three rows above; and a pattern of level 9. *)
Definition hookCanvas : list Z :=
  greyPixels [7; 1; 7;
              7; 1; 7;
              7; 1; 7;
              7; 7; 7;
              7; 7; 7].
Definition hookPattern : list Z := greyPixels (repeat 9 15%nat).

(** The state in which [floodFill] enters its main loop. *)
Definition firstState (pixels0 : list Z) (startX startY : Z) : FillState :=
  mkFillState pixels0
    [mkScanLine startY startX startX (-1); mkScanLine startY startX startX 1] 0.

(** Invariants of the fill loop, relative to the buffer [pixels0] read at
    the start and the start pixel. *)
Section FillInvariant.

Variables (width height : Z) (pixels0 patternData : list Z) (startX startY : Z).

(** A stacked scanline lies in the canvas and inside the region. *)
Definition validLine (s : ScanLine) : Prop :=
  0 <= sl_y s < height /\
  0 <= leftX s /\ leftX s <= rightX s /\ rightX s < width /\
  (direction s = 1 \/ direction s = -1) /\
  forall x, leftX s <= x <= rightX s ->
            region width height pixels0 startX startY x (sl_y s).

(** Every pixel is as it was, or belongs to the region and carries the
    pattern. *)
Definition pixInv (px : list Z) : Prop :=
  length px = length pixels0 /\
  forall x y, inCanvas width height x y ->
    rgba px (pixelPos width x y) = rgba pixels0 (pixelPos width x y) \/
    (region width height pixels0 startX startY x y /\
     rgba px (pixelPos width x y) = rgba patternData (pixelPos width x y)).

Definition fillInv (st : FillState) : Prop :=
  pixInv (pixels st) /\ Forall validLine (scanlines st).

(** Bound on the turns the main loop still takes. *)
Definition fillMeasure (st : FillState) : Z :=
  if filledPixels st <? maxPixels width height
  then 2 * (maxPixels width height - filledPixels st) +
       Z.of_nat (length (scanlines st))
  else 0.

(** While a run of matching pixels of row [newY] is open ([inRange]), the
    top of the stack is the scanline pushed for it. *)
Definition scanInv (newY : Z) (acc : list ScanLine * bool) (x : Z) : Prop :=
  Forall validLine (fst acc) /\
  (snd acc = true ->
   exists s rest, fst acc = s :: rest /\ sl_y s = newY /\ leftX s < x /\
     forall x', leftX s <= x' < x ->
                region width height pixels0 startX startY x' newY).

End FillInvariant.

End PaintCanvas.

(** ** The paint canvas: which rows the fill loop reaches *)

Module FillRows.

Import TypedArray PaintCanvas.

(** A stacked scanline moves away from the start row: one that goes down
    (direction -1) lies at or above it, one that goes up at or below it. *)
Definition headsAway (startY : Z) (s : ScanLine) : Prop :=
  (direction s = -1 /\ sl_y s <= startY) \/
  (direction s = 1 /\ startY <= sl_y s).

(** Row [r] is the first or the last row of the canvas, and not the row of
    the start pixel. *)
Definition borderRow (height startY r : Z) : Prop :=
  (r = 0 /\ 0 < startY) \/ (r = height - 1 /\ startY < height - 1).

(** Row [r] of [px] is as in [pixels0]. *)
Definition rowKept (width : Z) (pixels0 px : list Z) (r : Z) : Prop :=
  forall x, 0 <= x < width ->
    rgba px (pixelPos width x r) = rgba pixels0 (pixelPos width x r).

(** The main loop has ended: the stack is empty or the budget used up. *)
Definition stopped (width height : Z) (st : FillState) : Prop :=
  scanlines st = [] \/ maxPixels width height <= filledPixels st.

(** The pixel at byte offset [p] carries the pattern. *)
Definition painted (patternData px : list Z) (p : Z) : Prop :=
  rgba px p = rgba patternData p.

(** Before the start pixel is painted the loop is still at its first
    scanlines. *)
Definition atStart (pixels0 : list Z) (startX startY : Z) (st : FillState) : Prop :=
  pixels st = pixels0 /\ filledPixels st = 0 /\
  (scanlines st = [mkScanLine startY startX startX (-1);
                   mkScanLine startY startX startX 1] \/
   (scanlines st = [mkScanLine startY startX startX 1] /\ startY = 0)).

End FillRows.

(** ** JavaScript arrays *)

Module JsArray.

(** [l.slice(start, end)] for integer arguments: a negative index counts
    from the end, and both are clamped to the array. *)
Definition slice {A : Type} (l : list A) (start end_ : Z) : list A :=
  let len := Z.of_nat (length l) in
  let k := if start <? 0 then Z.max (len + start) 0 else Z.min start len in
  let final := if end_ <? 0 then Z.max (len + end_) 0 else Z.min end_ len in
  take (Z.to_nat (final - k)) (drop (Z.to_nat k) l).

(** [l.slice(start)] *)
Definition sliceFrom {A : Type} (l : list A) (start : Z) : list A :=
  slice l start (Z.of_nat (length l)).

End JsArray.

(** ** The paint canvas: undo / redo history *)

Module PaintHistory.

Import TypedArray JsArray.

Record ImageData := mkImageData {
  width : Z;
  height : Z;
  data : list Z
}.

(** [hasCanvasChanged]: sizes first, then every sixteenth byte. *)
Definition hasCanvasChanged (prevImageData newImageData : ImageData) : bool :=
  if negb (width prevImageData =? width newImageData) ||
     negb (height prevImageData =? height newImageData)
  then true
  else
    let prevData := data prevImageData in
    let newData := data newImageData in
    let length := Z.of_nat (length prevData) in
    existsb (fun k => negb (strict_eq (get prevData (16 * k)) (get newData (16 * k))))
            (seqZ 0 ((length + 15) / 16)).

(** The refs of a mounted component: the canvas with its 2D context (what
    [getImageData(0, 0, canvas.width, canvas.height)] returns, [None] while
    [canvasRef.current] or [contextRef.current] is null), [historyRef] and
    [historyIndexRef]. *)
Record PaintState := mkPaintState {
  canvas : option ImageData;
  history : list ImageData;
  historyIndex : Z
}.

(** [context.putImageData(imageData, 0, 0)]: the pixels of [imageData] that
    fall inside the canvas replace the canvas pixels. *)
Definition putImageData (c imageData : ImageData) : ImageData :=
  mkImageData (width c) (height c)
    (imap (fun i old =>
             let p := Z.of_nat i / 4 in
             let ch := Z.of_nat i mod 4 in
             let x := p mod width c in
             let y := p / width c in
             if (x <? width imageData) && (y <? height imageData)
             then default old (get (data imageData) ((y * width imageData + x) * 4 + ch))
             else old)
          (data c)).

(** [saveToHistory]; [None] is the TypeError of reading [.width] of an
    entry that does not exist. *)
Definition saveToHistory (st : PaintState) : option PaintState :=
  match canvas st with
  | None => Some st
  | Some newImageData =>
      let record (_ : unit) :=
        (* Remove any redo states *)
        let h1 := slice (history st) 0 (historyIndex st + 1) in
        (* Limit history size (keep last 50 states) *)
        let '(h2, i2) :=
          if 50 <=? Z.of_nat (length h1)
          then (sliceFrom h1 (-49), Z.min (historyIndex st) 48)
          else (h1, historyIndex st) in
        Some (mkPaintState (canvas st) (h2 ++ [newImageData]) (i2 + 1)) in
      if 0 <=? historyIndex st then
        match history st !! Z.to_nat (historyIndex st) with
        | None => None
        | Some prevImageData =>
            if negb (hasCanvasChanged prevImageData newImageData)
            then Some st
            else record tt
        end
      else record tt
  end.

(** The image shown after moving the cursor: [putImageData] only when
    there is a context and the entry exists. *)
Definition showEntry (st : PaintState) (i : Z) : option ImageData :=
  match canvas st, (if i <? 0 then None else history st !! Z.to_nat i) with
  | Some c, Some imageData => Some (putImageData c imageData)
  | c, _ => c
  end.

Definition undo (st : PaintState) : PaintState :=
  if 0 <? historyIndex st then
    let i := historyIndex st - 1 in
    mkPaintState (showEntry st i) (history st) i
  else st.

Definition redo (st : PaintState) : PaintState :=
  if historyIndex st <? Z.of_nat (length (history st)) - 1 then
    let i := historyIndex st + 1 in
    mkPaintState (showEntry st i) (history st) i
  else st.

(** Drawing on the canvas without a call of [saveToHistory]. *)
Definition paint (newData : list Z) (st : PaintState) : PaintState :=
  match canvas st with
  | None => st
  | Some c =>
      mkPaintState (Some (mkImageData (width c) (height c) newData))
                   (history st) (historyIndex st)
  end.

(** A drawing operation that ends in [saveToHistory] (fill, text, clear,
    paste, a moved selection): the canvas pixels become [newData], the canvas
    keeps its size, then [saveToHistory] runs. *)
Definition draw (newData : list Z) (st : PaintState) : option PaintState :=
  saveToHistory (paint newData st).

Inductive Pointer := MousePointer | TouchPointer.

Definition isTouch (p : Pointer) : bool :=
  match p with
  | TouchPointer => true
  | MousePointer => false
  end.

(** [draw] with a free-hand tool while [isDrawing.current]: the segment is
    stroked, and for a touch event the history is saved at once. *)
Definition drawMove (p : Pointer) (newData : list Z) (st : PaintState)
    : option PaintState :=
  if isTouch p then draw newData st else Some (paint newData st).

(** The calls of [saveToHistory] in [stopDrawing] for a tool that is neither
    the selection nor a shape; [isDrawing] and [isDraggingSelection] are the
    values on entry. The flag [isDrawing.current] is cleared before the test
    under "Save history for all drawing operations when they complete". *)
Definition stopDrawing (p : Pointer) (isDrawing isDraggingSelection : bool)
    (st : PaintState) : option PaintState :=
  st1 ← (if isTouch p && isDrawing then saveToHistory st else Some st);
  st2 ← (if isDraggingSelection then saveToHistory st1 else Some st1);
  let isDrawing' := false in
  if isDrawing' && negb isDraggingSelection then saveToHistory st2 else Some st2.

(** A free-hand stroke: the pointer goes down, moves ([moves] lists the
    canvas pixels after each move) and is lifted. *)
Definition freehandStroke (p : Pointer) (moves : list (list Z)) (st : PaintState)
    : option PaintState :=
  st' ← foldl (fun acc d => acc ≫= drawMove p d) (Some st) moves;
  stopDrawing p true false st'.

(** The component after its first effect: the context is set and the
    initial canvas state saved. *)
Definition mount (c0 : ImageData) : option PaintState :=
  saveToHistory (mkPaintState (Some c0) [] (-1)).

(** What happens to the canvas and its history: a drawing operation that
    ends in [saveToHistory], drawing alone, [saveToHistory] alone, undo and
    redo. *)
Inductive Op :=
| Draw (newData : list Z)
| Paint (newData : list Z)
| Save
| Undo
| Redo.

Definition runOp (op : Op) (st : PaintState) : option PaintState :=
  match op with
  | Draw d => draw d st
  | Paint d => Some (paint d st)
  | Save => saveToHistory st
  | Undo => Some (undo st)
  | Redo => Some (redo st)
  end.

Fixpoint runOps (ops : list Op) (st : PaintState) : option PaintState :=
  match ops with
  | [] => Some st
  | op :: ops' =>
      match runOp op st with
      | None => None
      | Some st' => runOps ops' st'
      end
  end.

(** The canvas exists, and the cursor points at an entry of a history of
    at most 50. *)
Definition historyInv (st : PaintState) : Prop :=
  is_Some (canvas st) /\
  (length (history st) <= 50)%nat /\
  0 <= historyIndex st < Z.of_nat (length (history st)).

(** What [saveToHistory] leaves when it records the canvas. *)
Definition recordedState (st : PaintState) (c : ImageData) : PaintState :=
  if 49 <=? historyIndex st
  then mkPaintState (Some c)
         (drop 1 (take (Z.to_nat (historyIndex st + 1)) (history st)) ++ [c]) 49
  else mkPaintState (Some c)
         (take (Z.to_nat (historyIndex st + 1)) (history st) ++ [c])
         (historyIndex st + 1).

(** An image of a [w] x [h] canvas. *)
Definition wfImage (w h : Z) (c : ImageData) : Prop :=
  width c = w /\ height c = h /\ Z.of_nat (length (data c)) = w * h * 4.

(** The canvas images left by a sequence of drawing operations. *)
Definition strokeImages (w h : Z) (ds : list (list Z)) : list ImageData :=
  map (mkImageData w h) ds.

(** Every drawing operation of the sequence is seen by [hasCanvasChanged],
    so that [saveToHistory] records it. *)
Fixpoint allRecorded (c : ImageData) (cs : list ImageData) : bool :=
  match cs with
  | [] => true
  | c' :: cs' => hasCanvasChanged c c' && allRecorded c' cs'
  end.

(** The canvas shows the history entry under the cursor (as it does after
    [mount], and after every recorded operation, undo and redo). *)
Definition settled (st : PaintState) (c : ImageData) : Prop :=
  canvas st = Some c /\
  history st !! Z.to_nat (historyIndex st) = Some c /\
  (length (history st) <= 50)%nat /\
  0 <= historyIndex st < Z.of_nat (length (history st)).


(** A 1 x 1 canvas holding one opaque pixel of red level [r]. *)
Definition dot (r : Z) : ImageData := mkImageData 1 1 [r; 0; 0; 255].

End PaintHistory.

(** ** The paint canvas: examples for the history cursor *)

Module HistoryCursor.

Import PaintHistory.

(** A 2 x 1 canvas of two black pixels, and the same canvas after the second
    pixel was drawn on. *)
Definition twoDots : ImageData := mkImageData 2 1 [0; 0; 0; 255; 0; 0; 0; 255].
Definition secondDotData : list Z := [0; 0; 0; 255; 9; 9; 9; 255].

(** A component that recorded two images and shows the second. *)
Definition twoEntries : PaintState := mkPaintState (Some (dot 1)) [dot 0; dot 1] 1.

(** The same component after an undo. *)
Definition oneUndone : PaintState := mkPaintState (Some (dot 0)) [dot 0; dot 1] 0.

End HistoryCursor.

(** ** Base64 audio data

    JavaScript strings are sequences of UTF-16 code units, here [list Z];
    [btoa] and [atob] follow the HTML standard's forgiving-base64 encode and
    decode. *)

Module Base64.

(** The base64 alphabet: the code unit of sextet [i]. *)
Definition enc (i : Z) : Z :=
  if i <? 26 then 65 + i            (* A-Z *)
  else if i <? 52 then 97 + (i - 26) (* a-z *)
  else if i <? 62 then 48 + (i - 52) (* 0-9 *)
  else if i =? 62 then 43            (* + *)
  else 47.                           (* / *)

Definition dec (c : Z) : option Z :=
  if (65 <=? c) && (c <=? 90) then Some (c - 65)
  else if (97 <=? c) && (c <=? 122) then Some (c - 97 + 26)
  else if (48 <=? c) && (c <=? 57) then Some (c - 48 + 52)
  else if c =? 43 then Some 62
  else if c =? 47 then Some 63
  else None.

(** The sextets of a byte sequence, three bytes to four sextets; a last
    group of one or two bytes gives two or three. *)
Fixpoint toSextets (s : list Z) : list Z :=
  match s with
  | b0 :: b1 :: b2 :: rest =>
      let n := b0 * 65536 + b1 * 256 + b2 in
      n / 262144 :: n / 4096 mod 64 :: n / 64 mod 64 :: n mod 64 :: toSextets rest
  | [b0; b1] =>
      let n := b0 * 65536 + b1 * 256 in
      [n / 262144; n / 4096 mod 64; n / 64 mod 64]
  | [b0] =>
      let n := b0 * 65536 in
      [n / 262144; n / 4096 mod 64]
  | [] => []
  end.

(** Number of [=] signs that pad an encoding of [len] bytes. *)
Definition padding (len : nat) : nat := ((3 - len mod 3) mod 3)%nat.

(** [btoa(s)]: [None] is the InvalidCharacterError for a code unit above
    255. *)
Definition btoa (s : list Z) : option (list Z) :=
  if forallb (fun c => (0 <=? c) && (c <? 256)) s
  then Some (map enc (toSextets s) ++ replicate (padding (length s)) 61)
  else None.

Definition isAsciiWhitespace (c : Z) : bool :=
  (c =? 9) || (c =? 10) || (c =? 12) || (c =? 13) || (c =? 32).

(** If the length is a multiple of four, one or two [=] at the end are
    removed. *)
Definition stripPadding (d : list Z) : list Z :=
  if (length d mod 4 =? 0)%nat then
    match reverse d with
    | c1 :: r1 =>
        if c1 =? 61 then
          match r1 with
          | c2 :: r2 => if c2 =? 61 then reverse r2 else reverse r1
          | [] => reverse r1
          end
        else d
    | [] => d
    end
  else d.

(** The bytes of a sextet sequence: four sextets give three bytes; three
    left over give two bytes, two give one, their last bits dropped. *)
Fixpoint fromSextets (x : list Z) : list Z :=
  match x with
  | s0 :: s1 :: s2 :: s3 :: rest =>
      let n := s0 * 262144 + s1 * 4096 + s2 * 64 + s3 in
      n / 65536 :: n / 256 mod 256 :: n mod 256 :: fromSextets rest
  | [s0; s1; s2] =>
      let n := (s0 * 4096 + s1 * 64 + s2) / 4 in
      [n / 256; n mod 256]
  | [s0; s1] => [(s0 * 64 + s1) / 16]
  | _ => []
  end.

(** [atob(data)]: [None] is the InvalidCharacterError. *)
Definition atob (data : list Z) : option (list Z) :=
  let d := stripPadding (filter (fun c => negb (isAsciiWhitespace c)) data) in
  if (length d mod 4 =? 1)%nat then None
  else fromSextets <$> mapM dec d.

(** [String.fromCharCode(...bytes)]: one code unit per argument. *)
Definition fromCharCode (codes : list Z) : list Z :=
  map (fun c => c mod 65536) codes.

(** [base64FromBlob], and the same expression in [handleRecordingStop]:
    [btoa(String.fromCharCode(...new Uint8Array(buffer)))]. The spread makes
    one call of [String.fromCharCode] with one argument per byte, and an
    engine refuses (RangeError) a call with more arguments than it has room
    for; [maxArguments] is that limit of the engine, some tens or hundreds of
    thousands. [None] is the RangeError, or the InvalidCharacterError of
    [btoa]. *)
Definition base64FromBlob (maxArguments : nat) (buffer : list Z)
    : option (list Z) :=
  if (length buffer <=? maxArguments)%nat then btoa (fromCharCode buffer)
  else None.

(** [bytes[i] = v] on a [Uint8Array]: the value is stored modulo 256, an
    [undefined] ([NaN]) as 0, and nothing outside the array. *)
Definition setUint8 (bytes : list Z) (i : Z) (v : option Z) : list Z :=
  if i <? 0 then bytes else <[Z.to_nat i := default 0 v mod 256]> bytes.

(** [binary.charCodeAt(i)] *)
Definition charCodeAt (binary : list Z) (i : Z) : option Z :=
  if i <? 0 then None else binary !! Z.to_nat i.

(** The loop of [playSound], [updateWaveform] and [createAudioFromBase64]:
    [bytes = new Uint8Array(binary.length);]
    [for (let i = 0; i < binary.length; i++) bytes[i] = binary.charCodeAt(i)]. *)
Definition bytesOfBinary (binary : list Z) : list Z :=
  fold_left (fun bytes i => setUint8 bytes i (charCodeAt binary i))
            (seqZ 0 (Z.of_nat (length binary)))
            (replicate (length binary) 0).

(** The bytes handed to the [Blob] that is played. *)
Definition createAudioFromBase64 (base64Data : list Z) : option (list Z) :=
  bytesOfBinary <$> atob base64Data.

Definition isByte (b : Z) : Prop := 0 <= b < 256.

End Base64.

(** ** JavaScript values and JSON *)

Module Js.

Local Open Scope string_scope.

(** The values that reach the board list: JSON data, and [undefined]. *)
#[local] Unset Elimination Schemes.
Inductive value :=
| Undefined
| Null
| Bool (b : bool)
| Num (q : Q)
| Str (s : string)
| Arr (elems : list value)
| Obj (props : list (string * value)).
#[local] Set Elimination Schemes.

(** [v === undefined] *)
Definition isUndefined (v : value) : bool :=
  match v with
  | Undefined => true
  | _ => false
  end.

(** [if (v)], [v || w]. *)
Definition truthy (v : value) : bool :=
  match v with
  | Undefined | Null => false
  | Bool b => b
  | Num q => negb (Qnum q =? 0)%Z
  | Str s => negb (String.eqb s "")
  | Arr _ | Obj _ => true
  end.

(** The own property [k] of an object (whose keys are distinct). *)
Definition lookupProp (props : list (string * value)) (k : string) : value :=
  match find (fun kv => String.eqb (fst kv) k) props with
  | Some kv => snd kv
  | None => Undefined
  end.

(** [v.k] for one of the keys read by the import ([boards], [slots],
    [audioData], [emoji], [title], [name]): a TypeError ([None]) on [null] and
    [undefined], [undefined] on a primitive or an array. *)
Definition getProp (v : value) (k : string) : option value :=
  match v with
  | Undefined | Null => None
  | Obj props => Some (lookupProp props k)
  | _ => Some Undefined
  end.

(** What [JSON.stringify] keeps of a value: a property whose value is
    [undefined] is left out, an [undefined] array element becomes [null]. *)
Fixpoint jsonValue (v : value) : value :=
  match v with
  | Arr elems =>
      Arr (map (fun x => match x with Undefined => Null | _ => jsonValue x end) elems)
  | Obj props =>
      Obj ((fix keep (ps : list (string * value)) : list (string * value) :=
              match ps with
              | [] => []
              | (k, Undefined) :: ps' => keep ps'
              | (k, x) :: ps' => (k, jsonValue x) :: keep ps'
              end) props)
  | _ => v
  end.

(** [a[i] = v] on an array; hole elements ([None]) fill the gap when [i] is
    past the end. *)
Definition arraySet {A : Type} (a : list (option A)) (i : nat) (v : A)
    : list (option A) :=
  if (i <? length a)%nat then <[i := Some v]> a
  else a ++ replicate (i - length a) None ++ [Some v].

(** [a[i]]: [None] for [undefined] (past the end, or a hole). *)
Definition arrayGet {A : Type} (a : list (option A)) (i : nat) : option A :=
  mjoin (a !! i).

(** The keys of an object. *)
Definition keys (v : value) : list string :=
  match v with
  | Obj props => map fst props
  | _ => []
  end.

(** The own properties of an object, in their order. *)
Definition propsOf (v : value) : list (string * value) :=
  match v with
  | Obj props => props
  | _ => []
  end.

(** [{ ...obj, k: v }]: a key the object has keeps its place, a new key
    goes last. *)
Fixpoint setProp (props : list (string * value)) (k : string) (v : value)
    : list (string * value) :=
  match props with
  | [] => [(k, v)]
  | (k', x) :: rest =>
      if String.eqb k' k then (k, v) :: rest else (k', x) :: setProp rest k v
  end.

End Js.

(** ** The soundboard (App component) *)

Module Soundboard.

Import Js.

Local Open Scope string_scope.

(** A [WaveSurfer] instance, by a handle. *)
Definition WaveSurfer := nat.

Record SoundSlot := mkSoundSlot {
  audioData : value;          (* string | null *)
  waveform : option WaveSurfer;
  emoji : value;              (* string, or undefined *)
  title : value               (* string, or undefined *)
}.

Record PlaybackState := mkPlaybackState {
  isRecording : bool;
  isPlaying : bool
}.

(** [slots] is a JavaScript array: [None] is an element that is
    [undefined]. A board that came from a document (an imported file, or
    the list kept in local storage) is a copy [{ ...board, id, slots }] of the document's object and keeps all its
    own properties: [origin] holds them as the document had them, in its
    order ([[]] for a board the component made itself). The values [origin]
    gives to [id], [name] and [slots] are those at the time of the copy; the
    board's own fields are what these properties hold now. *)
Record Soundboard := mkSoundboard {
  id : string;
  name : value;               (* string *)
  slots : list (option SoundSlot);
  origin : list (string * value)
}.

(** [Array(9).fill({ audioData: null, emoji: undefined, title: undefined })] *)
Definition emptySlot : SoundSlot := mkSoundSlot Null None Undefined Undefined.
Definition emptySlots : list (option SoundSlot) := replicate 9 (Some emptySlot).

Definition defaultBoard : Soundboard :=
  mkSoundboard "default" (Str "New Soundboard") emptySlots [].

(** The [MediaRecorder] held by [mediaRecorderRef]: whether it is recording,
    and its [onstop] handler. The handler is the closure
    [() => handleRecordingStop(chunks, slotIndex, stream)] made by
    [startRecording]: it holds the slot, and the [boards] and [activeBoardId]
    of the render in which the recording was started. *)
Record MediaRecorder := mkMediaRecorder {
  recording : bool;
  onstopSlot : nat;
  onstopBoards : list Soundboard;
  onstopActiveBoardId : string
}.

(** State of the component: React state ([boards], [playbackStates],
    [activeBoardId], ...), refs, and the lines written by [console.error]. *)
Record App := mkApp {
  boards : list Soundboard;
  playbackStates : list (option PlaybackState);
  activeBoardId : string;
  micPermissionGranted : bool;
  isEditingTitle : bool;
  mediaRecorderRef : option MediaRecorder;
  activeSlotRef : option nat;
  audioRefs : list (option string);   (* the base64 data an Audio plays *)
  console : list string
}.

Definition setBoards (bs : list Soundboard) (st : App) : App :=
  mkApp bs (playbackStates st) (activeBoardId st) (micPermissionGranted st)
        (isEditingTitle st) (mediaRecorderRef st) (activeSlotRef st)
        (audioRefs st) (console st).

Definition setActiveBoardId (i : string) (st : App) : App :=
  mkApp (boards st) (playbackStates st) i (micPermissionGranted st)
        (isEditingTitle st) (mediaRecorderRef st) (activeSlotRef st)
        (audioRefs st) (console st).

Definition setPlaybackStates (ps : list (option PlaybackState)) (st : App) : App :=
  mkApp (boards st) ps (activeBoardId st) (micPermissionGranted st)
        (isEditingTitle st) (mediaRecorderRef st) (activeSlotRef st)
        (audioRefs st) (console st).

Definition setMicPermissionGranted (b : bool) (st : App) : App :=
  mkApp (boards st) (playbackStates st) (activeBoardId st) b
        (isEditingTitle st) (mediaRecorderRef st) (activeSlotRef st)
        (audioRefs st) (console st).

Definition setIsEditingTitle (b : bool) (st : App) : App :=
  mkApp (boards st) (playbackStates st) (activeBoardId st)
        (micPermissionGranted st) b (mediaRecorderRef st) (activeSlotRef st)
        (audioRefs st) (console st).

Definition setRecorder (r : option MediaRecorder) (slot : option nat) (st : App) : App :=
  mkApp (boards st) (playbackStates st) (activeBoardId st)
        (micPermissionGranted st) (isEditingTitle st) r slot
        (audioRefs st) (console st).

Definition setAudioRefs (a : list (option string)) (st : App) : App :=
  mkApp (boards st) (playbackStates st) (activeBoardId st)
        (micPermissionGranted st) (isEditingTitle st) (mediaRecorderRef st)
        (activeSlotRef st) a (console st).

Definition consoleError (msg : string) (st : App) : App :=
  mkApp (boards st) (playbackStates st) (activeBoardId st)
        (micPermissionGranted st) (isEditingTitle st) (mediaRecorderRef st)
        (activeSlotRef st) (audioRefs st) (console st ++ [msg]).

(** How a handler ends: normally, or with an uncaught exception (the state
    changes made before it stay). *)
Inductive completion := Normal | Throws.

(** [boards.find((b) => b.id === activeBoardId) || boards[0] || { ... }] *)
Definition activeBoard (st : App) : Soundboard :=
  match find (fun b => String.eqb (id b) (activeBoardId st)) (boards st) with
  | Some b => b
  | None =>
      match boards st with
      | b :: _ => b
      | [] => defaultBoard
      end
  end.

(** [saveBoards], without the copy written to local storage: the slots of
    the boards carrying the active id take the waveforms of the current
    active board. *)
Definition saveBoards (newBoards : list Soundboard) (st : App) : App :=
  let boardsWithWaveforms :=
    map (fun board =>
           if String.eqb (id board) (activeBoardId st) then
             mkSoundboard (id board) (name board)
               (imap (fun idx slot =>
                        (fun s : SoundSlot =>
                           mkSoundSlot (audioData s)
                             (match arrayGet (slots (activeBoard st)) idx with
                              | Some (mkSoundSlot _ (Some w) _ _) => Some w
                              | _ => waveform s
                              end)
                             (emoji s) (title s)) <$> slot)
                     (slots board))
               (origin board)
           else board)
        newBoards in
  setBoards boardsWithWaveforms st.

(** [addNewBoard]; [now] is [Date.now().toString()]. *)
Definition addNewBoard (now : string) (st : App) : App :=
  let newBoard := mkSoundboard now (Str "New Soundboard") emptySlots [] in
  setActiveBoardId (id newBoard) (saveBoards (boards st ++ [newBoard]) st).

Definition updateBoardName (newName : string) (st : App) : App :=
  let newBoards :=
    map (fun board =>
           if String.eqb (id board) (activeBoardId st)
           then mkSoundboard (id board) (Str newName) (slots board) (origin board)
           else board) (boards st) in
  setIsEditingTitle false (saveBoards newBoards st).

(** [boards.map(...)] of the slot handlers: the slots of the boards with
    the active id are replaced. *)
Definition mapActiveSlots
    (f : list (option SoundSlot) -> list (option SoundSlot)) (st : App)
    : list Soundboard :=
  map (fun board =>
         if String.eqb (id board) (activeBoardId st)
         then mkSoundboard (id board) (name board) (f (slots board)) (origin board)
         else board) (boards st).

(** [handleDelete(index)] *)
Definition handleDelete (index : nat) (st : App) : App :=
  saveBoards (mapActiveSlots (fun sl => arraySet sl index emptySlot) st) st.

(** [{ ...newSlots[index], emoji }] and [{ ...newSlots[index], title }];
    spreading [undefined] gives no property. *)
Definition withEmoji (s : option SoundSlot) (e : value) : SoundSlot :=
  match s with
  | Some s => mkSoundSlot (audioData s) (waveform s) e (title s)
  | None => mkSoundSlot Undefined None e Undefined
  end.

Definition withTitle (s : option SoundSlot) (t : value) : SoundSlot :=
  match s with
  | Some s => mkSoundSlot (audioData s) (waveform s) (emoji s) t
  | None => mkSoundSlot Undefined None Undefined t
  end.

(** [handleEmojiClick(index)]; [answer] is what [prompt] returned ([None]
    for [null]). *)
Definition handleEmojiClick (index : nat) (answer : option string) (st : App) : App :=
  match answer with
  | Some e =>
      if truthy (Str e) then
        saveBoards
          (mapActiveSlots (fun sl => arraySet sl index (withEmoji (arrayGet sl index) (Str e))) st)
          st
      else st
  | None => st
  end.

(** [handleTitleClick(index)]: reading [slot.title] of a slot that is
    [undefined] throws before the prompt. *)
Definition handleTitleClick (index : nat) (answer : option string) (st : App)
    : App * completion :=
  match arrayGet (slots (activeBoard st)) index with
  | None => (st, Throws)
  | Some _ =>
      match answer with
      | Some t =>
          (saveBoards
             (mapActiveSlots (fun sl => arraySet sl index (withTitle (arrayGet sl index) (Str t))) st)
             st, Normal)
      | None => (st, Normal)
      end
  end.

(** [handleRecordingStop(chunks, slotIndex, stream)], run as the [onstop]
    handler of the recorder [r]; [base64] is the encoded recording. The
    handler is the closure made by [startRecording]: its [boards],
    [activeBoardId], [activeBoard] and [saveBoards] are those of the render
    in which the recording was started (held by [r]), so the boards it writes
    back with [setBoards] are made from that render's list, whatever the list
    is now; [setPlaybackStates] updates the current states. Reading
    [board.slots[slotIndex].emoji] throws when the slot is [undefined]; the
    promise is then rejected and nothing is saved. *)
Definition handleRecordingStop (r : MediaRecorder) (base64 : string) (st : App)
    : App * completion :=
  let slotIndex := onstopSlot r in
  let render := setActiveBoardId (onstopActiveBoardId r)
                                 (setBoards (onstopBoards r) st) in
  if forallb (fun board =>
                negb (String.eqb (id board) (activeBoardId render)) ||
                bool_decide (is_Some (arrayGet (slots board) slotIndex)))
             (boards render)
  then
    let newBoards :=
      mapActiveSlots
        (fun sl =>
           match arrayGet sl slotIndex with
           | Some s => arraySet sl slotIndex (mkSoundSlot (Str base64) None (emoji s) (title s))
           | None => sl
           end) render in
    let st1 := setBoards (boards (saveBoards newBoards render)) st in
    (setPlaybackStates
       (arraySet (playbackStates st1) slotIndex (mkPlaybackState false false)) st1,
     Normal)
  else (st, Throws).

(** [deleteCurrentBoard] *)
Definition deleteCurrentBoard (st : App) : App * completion :=
  if (length (boards st) <=? 1)%nat then (st, Normal) (* Prevent deleting last board *)
  else
    let newBoards :=
      filter (fun b => negb (String.eqb (id b) (activeBoardId st))) (boards st) in
    let st1 := saveBoards newBoards st in
    match newBoards with
    | b :: _ => (setActiveBoardId (id b) st1, Normal)
    | [] => (st1, Throws)   (* newBoards[0].id *)
    end.

(** The effect that follows every render: when no board carries
    [activeBoardId], the first board (or ["default"]) becomes active. *)
Definition syncActiveBoard (st : App) : App :=
  match find (fun b => String.eqb (id b) (activeBoardId st)) (boards st) with
  | Some _ => st
  | None =>
      setActiveBoardId (match boards st with b :: _ => id b | [] => "default" end) st
  end.

(** The code units of a string. *)
Definition codeUnits (s : string) : list Z :=
  map (fun a => Z.of_N (Ascii.N_of_ascii a)) (String.list_ascii_of_string s).

(** [a[i] = null] *)
Definition arrayClear {A : Type} (a : list (option A)) (i : nat) : list (option A) :=
  if (i <? length a)%nat then <[i := None]> a
  else a ++ replicate (S (i - length a)) None.

(** [updateSlotState(index, isPlaying)]:
    [newStates[index] = { ...newStates[index], isPlaying }]. *)
Definition updateSlotState (index : nat) (playing : bool) (st : App) : App :=
  let prev := playbackStates st in
  let newState :=
    match arrayGet prev index with
    | Some p => mkPlaybackState (isRecording p) playing
    | None => mkPlaybackState false playing
    end in
  setPlaybackStates (arraySet prev index newState) st.

(** [playSound(base64Data, index)]: [atob] throws on data that is not
    base64; the waveform animation is left out. *)
Definition playSound (base64Data : string) (index : nat) (st : App)
    : App * completion :=
  match Base64.atob (codeUnits base64Data) with
  | None => (st, Throws)
  | Some _ =>
      let st1 := setAudioRefs (arraySet (audioRefs st) index base64Data) st in
      match arrayGet (slots (activeBoard st)) index with
      | Some _ => (updateSlotState index true st1, Normal)
      | None => (updateSlotState index true st1, Throws)   (* slot.waveform *)
      end
  end.

(** [stopSound(index)] *)
Definition stopSound (index : nat) (st : App) : App * completion :=
  match arrayGet (audioRefs st) index with
  | Some _ =>
      let st1 := setAudioRefs (arrayClear (audioRefs st) index) st in
      match arrayGet (slots (activeBoard st)) index with
      | Some _ => (updateSlotState index false st1, Normal)
      | None => (st1, Throws)   (* slot.waveform *)
      end
  | None => (st, Normal)
  end.

(** What the browser answers to [startRecording]: whether [getUserMedia]
    and [enumerateDevices] resolve, and whether the [MediaRecorder] can be
    made and started. *)
Record MediaEnv := mkMediaEnv {
  userMediaGranted : bool;
  devicesListed : bool;
  recorderCreated : bool;
  recorderStarted : bool
}.

(** [startRecording(slotIndex)]: every failure ends in the [catch]. The
    recorder's [onstop] handler is made here, from the [boards] and
    [activeBoardId] of the render whose click started the recording. *)
Definition startRecording (env : MediaEnv) (slotIndex : nat) (st : App) : App :=
  let failed := consoleError "Error accessing microphone:" in
  if negb (userMediaGranted env) then failed st
  else
    let st1 := setMicPermissionGranted true st in
    if negb (devicesListed env) then failed st1
    else if negb (recorderCreated env) then failed st1
    else
      let st2 := setRecorder
                   (Some (mkMediaRecorder false slotIndex (boards st) (activeBoardId st)))
                   (Some slotIndex) st1 in
      let st3 := setPlaybackStates
                   (arraySet (playbackStates st2) slotIndex
                             (mkPlaybackState true false)) st2 in
      if negb (recorderStarted env) then failed st3
      else setRecorder
             (Some (mkMediaRecorder true slotIndex (boards st) (activeBoardId st)))
             (Some slotIndex) st3.

(** [stopRecording()] *)
Definition stopRecording (st : App) : App :=
  match mediaRecorderRef st with
  | Some r =>
      if recording r
      then setRecorder
             (Some (mkMediaRecorder false (onstopSlot r) (onstopBoards r)
                                    (onstopActiveBoardId r)))
             None st
      else st
  | None => st
  end.

(** The branch [handleSlotClick(index)] takes; [None] is the TypeError of
    reading a slot or a playback state that is [undefined]. An [audioData]
    that is truthy is a string by the slot's type. *)
Inductive SlotAction :=
| DoStopSound
| DoPlaySound (base64Data : string)
| DoStartRecording
| DoStopRecording.

Definition slotAction (index : nat) (st : App) : option SlotAction :=
  slot ← arrayGet (slots (activeBoard st)) index;
  if truthy (audioData slot) then
    p ← arrayGet (playbackStates st) index;
    match audioData slot with
    | Str s => Some (if isPlaying p then DoStopSound else DoPlaySound s)
    | _ => None
    end
  else
    p ← arrayGet (playbackStates st) index;
    Some (if negb (isRecording p) then DoStartRecording else DoStopRecording).

Definition handleSlotClick (env : MediaEnv) (index : nat) (st : App)
    : App * completion :=
  match slotAction index st with
  | None => (st, Throws)
  | Some DoStopSound => stopSound index st
  | Some (DoPlaySound s) => playSound s index st
  | Some DoStartRecording => (startRecording env index st, Normal)
  | Some DoStopRecording => (stopRecording st, Normal)
  end.

(** [{ audioData: slot.audioData, emoji: slot.emoji, title: slot.title }] *)
Definition slotObject (s : SoundSlot) : value :=
  Obj [("audioData", audioData s); ("emoji", emoji s); ("title", title s)].

(** [board.slots.map((slot) => ({ ... }))]; [map] leaves a hole a hole. *)
Definition slotsArray (sl : list (option SoundSlot)) : value :=
  Arr (map (fun s => match s with
                     | Some s => slotObject s
                     | None => Undefined
                     end) sl).

(** [{ ...board, slots: ... }]: every own property of the board, in the
    board's order. The board is the object it was copied from with [id],
    [name] and [slots] set since: a key the object had keeps its place, one
    it had not goes last ([id] from the import, [name] from a rename). A
    board the component made has the keys [id], [name], [slots]. *)
Definition boardObject (b : Soundboard) : value :=
  Obj (setProp (setProp (setProp (origin b) "id" (Str (id b)))
                        "name" (name b))
               "slots" (slotsArray (slots b))).

(** [exportData] of [exportBoard]. *)
Definition exportData (bs : list Soundboard) : value :=
  Obj [("boards", Arr (map boardObject bs))].

(** The slot read from an element of an imported [slots] array. *)
Definition importSlot (slot : value) : option SoundSlot :=
  a ← getProp slot "audioData";
  e ← getProp slot "emoji";
  t ← getProp slot "title";
  Some (mkSoundSlot a None e t).

(** [board.slots.map(...)]: a TypeError when [slots] is not an array. *)
Definition importSlots (slotsValue : value) : option (list (option SoundSlot)) :=
  match slotsValue with
  | Arr elems => mapM (fun slot => Some <$> importSlot slot) elems
  | _ => None
  end.

(** One imported board, [{ ...board, id: newId, slots: ... }]: the copy
    keeps every own property of [board]; [newId] is
    [Date.now().toString() + Math.random().toString(36).slice(2)]. *)
Definition importOneBoard (newId : string) (board : value) : option Soundboard :=
  sv ← getProp board "slots";
  sl ← importSlots sv;
  nm ← getProp board "name";
  Some (mkSoundboard newId nm sl (propsOf board)).

(** [importedBoards.map(...)] from element [k] on; [newIds k] is the id
    made for element [k]. *)
Fixpoint importBoardsFrom (newIds : nat -> string) (k : nat) (elems : list value)
    : option (list Soundboard) :=
  match elems with
  | [] => Some []
  | board :: rest =>
      b ← importOneBoard (newIds k) board;
      bs ← importBoardsFrom newIds (S k) rest;
      Some (b :: bs)
  end.

(** A TypeError when [importedBoards] is not an array. *)
Definition importBoards (newIds : nat -> string) (importedBoards : value)
    : option (list Soundboard) :=
  match importedBoards with
  | Arr elems => importBoardsFrom newIds 0 elems
  | _ => None
  end.

(** [importedData.boards || [importedData]] *)
Definition importedBoardsOf (importedData : value) : option value :=
  bs ← getProp importedData "boards";
  Some (if truthy bs then bs else Arr [importedData]).

Section Files.

(** The text of a file, with [JSON.stringify] and [JSON.parse] ([None]: a
    SyntaxError). *)
Variable Text : Type.
Variable JSON_stringify : value -> Text.
Variable JSON_parse : Text -> option value.

(** The file written by [exportBoard]. *)
Definition exportBoard (st : App) : Text :=
  JSON_stringify (exportData (boards st)).

(** The boards read from a file by the [try] block of [importBoard]. *)
Definition readBoards (newIds : nat -> string) (text : Text) : option (list Soundboard) :=
  importedData ← JSON_parse text;
  importedBoards ← importedBoardsOf importedData;
  importBoards newIds importedBoards.

(** [importBoard]: [file] is the text of [e.target.files?.[0]]. *)
Definition importBoard (newIds : nat -> string) (file : option Text) (st : App) : App :=
  match file with
  | None => st
  | Some text =>
      match readBoards newIds text with
      | Some newBoards =>
          let st1 := saveBoards (boards st ++ newBoards) st in
          match newBoards with
          | b :: _ => setActiveBoardId (id b) st1
          | [] => consoleError "Failed to import soundboards:" st1
          end
      | None => consoleError "Failed to import soundboards:" st
      end
  end.

(** The user's actions on the board list, and what comes back from the
    browser with them. *)
Inductive Event :=
| AddNewBoard (now : string)
| UpdateBoardName (newName : string)
| HandleDelete (index : nat)
| HandleEmojiClick (index : nat) (answer : option string)
| HandleTitleClick (index : nat) (answer : option string)
| HandleRecordingStop (r : MediaRecorder) (base64 : string)
| HandleSlotClick (env : MediaEnv) (index : nat)
| DeleteCurrentBoard
| ImportBoard (newIds : nat -> string) (file : option Text)
| SelectBoard (boardId : string).

Definition handle (ev : Event) (st : App) : App * completion :=
  match ev with
  | AddNewBoard now => (addNewBoard now st, Normal)
  | UpdateBoardName n => (updateBoardName n st, Normal)
  | HandleDelete i => (handleDelete i st, Normal)
  | HandleEmojiClick i a => (handleEmojiClick i a st, Normal)
  | HandleTitleClick i a => handleTitleClick i a st
  | HandleRecordingStop r b => handleRecordingStop r b st
  | HandleSlotClick env i => handleSlotClick env i st
  | DeleteCurrentBoard => deleteCurrentBoard st
  | ImportBoard newIds file => (importBoard newIds file st, Normal)
  | SelectBoard i => (setActiveBoardId i st, Normal)
  end.

(** One event: the handler, then the effect on [boards] and
    [activeBoardId]. *)
Definition step (ev : Event) (st : App) : App :=
  syncActiveBoard (fst (handle ev st)).

Definition run (evs : list Event) (st : App) : App :=
  fold_left (fun s ev => step ev s) evs st.

End Files.

(** The component as it starts with nothing in local storage. *)
Definition initialApp : App :=
  mkApp [defaultBoard] (replicate 9 (Some (mkPlaybackState false false)))
        "default" false false None None (replicate 9 None) [].

(** The slot fields that are exported and imported. *)
Definition slotFields (s : option SoundSlot) : option (value * value * value) :=
  (fun s => (audioData s, emoji s, title s)) <$> s.

Definition boardFields (b : Soundboard) : list (option (value * value * value)) :=
  map slotFields (slots b).

(** The id, the name and the slot fields of a board. *)
Definition boardData (b : Soundboard)
    : string * value * list (option (value * value * value)) :=
  (id b, name b, boardFields b).

(** The keys of the exported object of a slot. *)
Definition slotKeys (s : SoundSlot) : list string :=
  (if isUndefined (audioData s) then [] else ["audioData"]) ++
  (if isUndefined (emoji s) then [] else ["emoji"]) ++
  (if isUndefined (title s) then [] else ["title"]).

(** A text is its document, or is not JSON: the plainest [JSON.stringify]
    and [JSON.parse]. *)
Definition plainStringify (v : value) : option value := Some (jsonValue v).
Definition plainParse (text : option value) : option value := text.

(** An imported slot: the fields of [s], and no waveform yet. *)
Definition freshSlot (s : option SoundSlot) : option SoundSlot :=
  (fun s => mkSoundSlot (audioData s) None (emoji s) (title s)) <$> s.

(** The exported object [d] of slot [s]: the fields that are not
    [undefined], and nothing else. *)
Definition slotDocShape (s : option SoundSlot) (d : value) : Prop :=
  exists s', s = Some s' /\ keys d = slotKeys s' /\
    getProp d "audioData" = Some (audioData s') /\
    getProp d "emoji" = Some (emoji s') /\
    getProp d "title" = Some (title s').

(** The exported object [d] of board [b]: it has [id], [name] and [slots]
    with the board's id, name and one object per slot, and apart from these
    the properties that the JSON text of the object the board was copied from
    has; a board that was not copied from a document has these three keys
    only. *)
Definition boardDocShape (b : Soundboard) (d : value) : Prop :=
  getProp d "id" = Some (Str (id b)) /\
  getProp d "name" = Some (name b) /\
  (exists slotDocs,
     getProp d "slots" = Some (Arr slotDocs) /\
     Forall2 slotDocShape (slots b) slotDocs) /\
  (forall k, k <> "id" -> k <> "name" -> k <> "slots" ->
     getProp d k = getProp (jsonValue (Obj (origin b))) k) /\
  (origin b = [] -> keys d = ["id"; "name"; "slots"]).

(** The exported slot, as the file holds it. *)
Definition slotDoc (s : option SoundSlot) : value :=
  let x := match s with Some s => slotObject s | None => Undefined end in
  match x with
  | Undefined => Null
  | _ => jsonValue x
  end.

(** The exported board, as the file holds it. *)
Definition boardDoc (b : Soundboard) : value := jsonValue (boardObject b).

(** A board with one recorded slot, and the component showing it. *)
Definition demoBoard : Soundboard :=
  mkSoundboard "default" (Str "Jingles")
    [Some (mkSoundSlot (Str "TWFu") (Some 7%nat) (Str "x") Undefined);
     Some emptySlot] [].
Definition demoApp : App :=
  mkApp [demoBoard] (replicate 9 (Some (mkPlaybackState false false)))
        "default" false false None None (replicate 9 None) [].
Definition demoIds (k : nat) : string := "1700000000000k3j9x".

(** The browser grants the microphone and the recorder starts. *)
Definition recordingGranted : MediaEnv := mkMediaEnv true true true true.
(** The user denies the microphone. *)
Definition microphoneDenied : MediaEnv := mkMediaEnv false false false false.

(** A value of type [string | null], and of type [string | undefined]. *)
Definition stringOrNull (v : value) : Prop :=
  v = Null \/ exists s, v = Str s.
Definition optionalString (v : value) : Prop :=
  v = Undefined \/ exists s, v = Str s.

(** A board of the [Soundboard] interface. *)
Definition slotTyped (s : option SoundSlot) : Prop :=
  exists s', s = Some s' /\ stringOrNull (audioData s') /\
             optionalString (emoji s') /\ optionalString (title s').
Definition boardTyped (b : Soundboard) : Prop :=
  (exists n, name b = Str n) /\ Forall slotTyped (slots b).

End Soundboard.

(** ** The soundboard: number keys, and what the slot handlers leave alone *)

Module SoundboardKeys.

Import Js Soundboard.

(** [handleKeyDown]: the slot addressed by a key of the numpad (key codes 97
    to 105) or of the number row (49 to 57). *)
Definition keyIndex (keyCode : Z) : Z :=
  if 97 <=? keyCode then keyCode - 97 else keyCode - 49.

Definition isSlotKey (keyCode : Z) : bool :=
  ((97 <=? keyCode) && (keyCode <=? 105)) ||
  ((49 <=? keyCode) && (keyCode <=? 57)).

(** A key plays or stops the slot's sound; on a slot without audio it does
    nothing. Reading [slot.audioData] of a slot that is [undefined], or
    [playbackStates[index].isPlaying] of a missing state, throws. *)
Definition handleKeyDown (keyCode : Z) (st : App) : App * completion :=
  let index := Z.to_nat (keyIndex keyCode) in
  if isSlotKey keyCode then
    match arrayGet (slots (activeBoard st)) index with
    | None => (st, Throws)
    | Some slot =>
        if truthy (audioData slot) then
          match arrayGet (playbackStates st) index with
          | None => (st, Throws)
          | Some p =>
              match audioData slot with
              | Str s => if isPlaying p then stopSound index st else playSound s index st
              | _ => (st, Throws)
              end
          end
        else (st, Normal)
    end
  else (st, Normal).

(** The handlers of a single slot that the user's click runs at once (the
    end of a recording, run later by the recorder, is not one of them). *)
Definition slotEvent {Text : Type} (ev : Event Text) : bool :=
  match ev with
  | HandleDelete _ _ | HandleEmojiClick _ _ _ | HandleTitleClick _ _ _
  | HandleSlotClick _ _ _ => true
  | _ => false
  end.

(** [waveform: activeBoard.slots[idx]?.waveform || slot.waveform] of
    [saveBoards], for the active board [b]. *)
Definition keepWaveform (b : Soundboard) (idx : nat) (s : SoundSlot) : SoundSlot :=
  mkSoundSlot (audioData s)
    (match arrayGet (slots b) idx with
     | Some (mkSoundSlot _ (Some w) _ _) => Some w
     | _ => waveform s
     end)
    (emoji s) (title s).

(** The board found by [boards.find((b) => b.id === activeBoardId)]. *)
Definition foundBoard (st : App) : option Soundboard :=
  find (fun b => String.eqb (id b) (activeBoardId st)) (boards st).

Local Open Scope string_scope.

(** The exported fields of an empty slot, and of the nine slots of a new
    board. *)
Definition emptyFields : option (value * value * value) :=
  Some (Null, Undefined, Undefined).
Definition newBoardData (now : string)
    : string * value * list (option (value * value * value)) :=
  (now, Str "New Soundboard", replicate 9 emptyFields).

(** Two boards, the second one active. *)
Definition twoBoards : App :=
  mkApp [defaultBoard; mkSoundboard "b2" (Str "Second") emptySlots []]
        (replicate 9 (Some (mkPlaybackState false false)))
        "b2" false false None None (replicate 9 None) [].

End SoundboardKeys.

(** ** The persisted browser history (internet-explorer storage) *)

Module BrowserHistory.

Import Js JsArray.

Local Open Scope string_scope.
Local Open Scope list_scope.

(** [APP_STORAGE_KEYS["internet-explorer"].HISTORY] *)
Definition HISTORY : string := "internet-explorer:history".

(** [{ ...entry, timestamp: Date.now() }] *)
Definition stamp (entry : list (string * value)) (now : Z) : value :=
  Obj (setProp entry "timestamp" (Num (inject_Z now))).

(** The timestamp of a stored entry. *)
Definition timestampOf (e : value) : option Q :=
  match getProp e "timestamp" with
  | Some (Num q) => Some q
  | _ => None
  end.

Definition newerOrSame (a b : value) : Prop :=
  exists qa qb, timestampOf a = Some qa /\ timestampOf b = Some qb /\ Qle qb qa.

(** Each entry is at least as recent as the next one. *)
Fixpoint newestFirst (l : list value) : Prop :=
  match l with
  | a :: rest =>
      match rest with
      | b :: _ => newerOrSame a b
      | [] => True
      end /\ newestFirst rest
  | [] => True
  end.

Section Storage.

(** [JSON.stringify] and [JSON.parse] over the strings of local storage. *)
Variable JSON_stringify : value -> string.
Variable JSON_parse : string -> option value.

(** [loadHistory]: [saved ? JSON.parse(saved) : []]; [None] is the
    SyntaxError of [JSON.parse]. *)
Definition loadHistory (localStorage : gmap string string) : option value :=
  match localStorage !! HISTORY with
  | Some saved => if String.eqb saved "" then Some (Arr []) else JSON_parse saved
  | None => Some (Arr [])
  end.

Definition saveHistory (history : value) (localStorage : gmap string string)
    : gmap string string :=
  <[HISTORY := JSON_stringify history]> localStorage.

(** [addToHistory(entry)]; [now] is [Date.now()]. [None] is an exception:
    the SyntaxError, or the TypeError of [history.unshift] when the stored
    document is not an array. *)
Definition addToHistory (entry : list (string * value)) (now : Z)
    (localStorage : gmap string string) : option (gmap string string) :=
  history ← loadHistory localStorage;
  match history with
  | Arr entries =>
      let newEntry := stamp entry now in
      let entries' := newEntry :: entries in      (* history.unshift(newEntry) *)
      (* Keep only last 100 entries *)
      Some (saveHistory (Arr (slice entries' 0 100)) localStorage)
  | _ => None
  end.

End Storage.

(** A visit, as the history stores it. *)
Definition visit (url : string) (time : Z) : value :=
  Obj [("url", Str url); ("timestamp", Num (inject_Z time))].

(** A storage whose history holds two visits, the later one first. The text
    of a stored history is written here as the urls of its visits, in their
    order: [demoStringify] writes it, [demoParse] reads the text of the two
    visits. *)
Definition twoVisits : list value :=
  [visit "https://b.example" 2000; visit "https://a.example" 1000].
Definition urlOf (e : value) : string :=
  match getProp e "url" with
  | Some (Str url) => url
  | _ => "?"
  end.
Definition demoStringify (v : value) : string :=
  match v with
  | Arr entries => String.concat " " (map urlOf entries)
  | _ => "?"
  end.
Definition twoVisitsText : string := "https://b.example https://a.example".
Definition demoParse (s : string) : option value :=
  if String.eqb s twoVisitsText then Some (Arr twoVisits) else None.
Definition twoVisitsStorage : gmap string string := {[ HISTORY := twoVisitsText ]}.

End BrowserHistory.

(** ** The window of the soundboard: dragging and resizing

    Positions and sizes are CSS pixels, taken as integers. *)

Module WindowFrame.

Record Position := mkPosition { pos_x : Z; pos_y : Z }.
Record Size := mkSize { size_width : Z; size_height : Z }.

(** What the handlers read from the browser: [window.innerWidth],
    [window.innerHeight], and the window element's [offsetWidth],
    [offsetHeight]. *)
Record Screen := mkScreen {
  innerWidth : Z;
  innerHeight : Z;
  offsetWidth : Z;
  offsetHeight : Z
}.

(** [windowPosition], [isDragging] and [dragOffset]. *)
Record DragState := mkDragState {
  windowPosition : Position;
  isDragging : bool;
  dragOffset : Position
}.

(** [handleMouseDown]; [rectLeft], [rectTop] are those of
    [windowRef.current.getBoundingClientRect()]. *)
Definition handleMouseDown (rectLeft rectTop clientX clientY : Z) (st : DragState)
    : DragState :=
  mkDragState (windowPosition st) true
              (mkPosition (clientX - rectLeft) (clientY - rectTop)).

(** [handleMouseMove] of the drag effect. *)
Definition handleMouseMove (scr : Screen) (clientX clientY : Z) (st : DragState)
    : DragState :=
  if isDragging st then
    let newX := clientX - pos_x (dragOffset st) in
    let newY := clientY - pos_y (dragOffset st) in
    (* Keep window within viewport bounds *)
    let maxX := innerWidth scr - offsetWidth scr in
    let maxY := innerHeight scr - offsetHeight scr in
    let x := Z.min (Z.max 0 newX) maxX in
    let y := Z.min (Z.max 0 newY) maxY in
    mkDragState (mkPosition x y) (isDragging st) (dragOffset st)
  else st.

(** [resizeType]: the edge or corner that is dragged. *)
Inductive ResizeType := NoResize | N | S | E | W | NE | NW | SE | SW.

(** [resizeType.includes("e")] and so on. *)
Definition includes_e (t : ResizeType) : bool :=
  match t with E | NE | SE => true | _ => false end.
Definition includes_w (t : ResizeType) : bool :=
  match t with W | NW | SW => true | _ => false end.
Definition includes_s (t : ResizeType) : bool :=
  match t with S | SE | SW => true | _ => false end.
Definition includes_n (t : ResizeType) : bool :=
  match t with N | NE | NW => true | _ => false end.

(** [resizeStart]: pointer, size and position when the resize began. *)
Record ResizeStart := mkResizeStart {
  rs_x : Z;
  rs_y : Z;
  rs_width : Z;
  rs_height : Z;
  rs_left : Z;
  rs_top : Z
}.

Definition minWidth : Z := 400.
Definition minHeight : Z := 300.

(** [handleResize]: the new [windowSize] and [windowPosition]. *)
Definition handleResize (scr : Screen) (resizeType : ResizeType)
    (resizeStart : ResizeStart) (clientX clientY : Z)
    (current : Size * Position) : Size * Position :=
  match resizeType with
  | NoResize => current
  | _ =>
      let deltaX := clientX - rs_x resizeStart in
      let deltaY := clientY - rs_y resizeStart in
      let maxWidth := innerWidth scr - 32 in
      let maxHeight := innerHeight scr - 32 in
      (* Handle horizontal resize *)
      let '(newWidth, newLeft) :=
        if includes_e resizeType then
          (Z.min (Z.max (rs_width resizeStart + deltaX) minWidth) maxWidth,
           rs_left resizeStart)
        else if includes_w resizeType then
          let potentialWidth :=
            Z.min (Z.max (rs_width resizeStart - deltaX) minWidth) maxWidth in
          if negb (potentialWidth =? rs_width resizeStart) then
            (potentialWidth,
             rs_left resizeStart + (rs_width resizeStart - potentialWidth))
          else (rs_width resizeStart, rs_left resizeStart)
        else (rs_width resizeStart, rs_left resizeStart) in
      (* Handle vertical resize *)
      let '(newHeight, newTop) :=
        if includes_s resizeType then
          (Z.min (Z.max (rs_height resizeStart + deltaY) minHeight) maxHeight,
           rs_top resizeStart)
        else if includes_n resizeType then
          let potentialHeight :=
            Z.min (Z.max (rs_height resizeStart - deltaY) minHeight) maxHeight in
          if negb (potentialHeight =? rs_height resizeStart) then
            (potentialHeight,
             rs_top resizeStart + (rs_height resizeStart - potentialHeight))
          else (rs_height resizeStart, rs_top resizeStart)
        else (rs_height resizeStart, rs_top resizeStart) in
      (mkSize newWidth newHeight, mkPosition newLeft newTop)
  end.

(** A 1024 x 768 viewport with a window of 800 x 600 in it, at rest at
    (16, 40). *)
Definition desktop : Screen := mkScreen 1024 768 800 600.
Definition atRest : DragState :=
  mkDragState (mkPosition 16 40) false (mkPosition 0 0).
Definition startAtRest : ResizeStart := mkResizeStart 816 640 800 600 16 40.

End WindowFrame.

(** ** Settings kept in local storage (internet-explorer, soundboard) *)

Module Settings.

Import Js BrowserHistory.

Local Open Scope string_scope.

(** [APP_STORAGE_KEYS["internet-explorer"].LAST_URL], the key of the
    wayback year made from it, and the soundboard's keys. *)
Definition LAST_URL : string := "internet-explorer:last-url".
Definition WAYBACK_YEAR : string := LAST_URL ++ ":year".
Definition SELECTED_DEVICE_ID : string := "soundboard:selectedDeviceId".
Definition HAS_SEEN_HELP : string := "soundboard:hasSeenHelp".

Definition DEFAULT_URL : string := "https://apple.com".
Definition DEFAULT_YEAR : string := "2002".

(** [localStorage.getItem(key) || fallback]: the fallback also replaces a
    stored empty string. *)
Definition getItemOr (localStorage : gmap string string) (key fallback : string)
    : string :=
  match localStorage !! key with
  | Some saved => if String.eqb saved "" then fallback else saved
  | None => fallback
  end.

Definition loadLastUrl (localStorage : gmap string string) : string :=
  getItemOr localStorage LAST_URL DEFAULT_URL.

Definition saveLastUrl (url : string) (localStorage : gmap string string)
    : gmap string string :=
  <[LAST_URL := url]> localStorage.

Definition loadWaybackYear (localStorage : gmap string string) : string :=
  getItemOr localStorage WAYBACK_YEAR DEFAULT_YEAR.

Definition saveWaybackYear (year : string) (localStorage : gmap string string)
    : gmap string string :=
  <[WAYBACK_YEAR := year]> localStorage.

Definition loadSelectedDeviceId (localStorage : gmap string string) : string :=
  getItemOr localStorage SELECTED_DEVICE_ID "".

Definition saveSelectedDeviceId (deviceId : string)
    (localStorage : gmap string string) : gmap string string :=
  <[SELECTED_DEVICE_ID := deviceId]> localStorage.

(** [localStorage.getItem(...) === "true"] *)
Definition loadHasSeenHelp (localStorage : gmap string string) : bool :=
  match localStorage !! HAS_SEEN_HELP with
  | Some saved => String.eqb saved "true"
  | None => false
  end.

Definition saveHasSeenHelp (localStorage : gmap string string)
    : gmap string string :=
  <[HAS_SEEN_HELP := "true"]> localStorage.

End Settings.

(** ** The stored window state: migration from the old format (loadAppState) *)

Module AppStateMigration.

(** An entry of the old format, with its optional fields. *)
Record OldAppState := mkOldAppState {
  old_isOpen : bool;
  old_position : option (Z * Z);
  old_isForeground : option bool;
  old_zIndex : option Z
}.

Record AppState := mkAppState {
  isOpen : bool;
  position : option (Z * Z);
  isForeground : option bool
}.

Record AppManagerState := mkAppManagerState {
  windowOrder : list string;
  apps : list (string * AppState)
}.

(** [a[1].zIndex || 0] *)
Definition zIndexOr0 (e : string * OldAppState) : Z :=
  default 0 (old_zIndex (snd e)).

(** [l.sort((a, b) => key(a) - key(b))]: the sort is stable, an element
    goes before the elements of the same key that followed it. *)
Fixpoint insertSorted {A : Type} (key : A -> Z) (x : A) (l : list A) : list A :=
  match l with
  | [] => [x]
  | y :: l' => if key x <=? key y then x :: l else y :: insertSorted key x l'
  end.

Definition sortByKey {A : Type} (key : A -> Z) (l : list A) : list A :=
  foldr (insertSorted key) [] l.

(** The state returned for a stored state without [windowOrder];
    [oldState] is [Object.entries] of the parsed object. *)
Definition migrateOldState (oldState : list (string * OldAppState))
    : AppManagerState :=
  mkAppManagerState
    (map fst (sortByKey zIndexOr0 (filter (fun e => old_isOpen (snd e)) oldState)))
    (map (fun e => (fst e, mkAppState (old_isOpen (snd e)) (old_position (snd e))
                                      (old_isForeground (snd e))))
         oldState).

(** Each element's key is at most the keys of the elements after it. *)
Fixpoint ascendingBy {A : Type} (key : A -> Z) (l : list A) : Prop :=
  match l with
  | [] => True
  | x :: rest => Forall (fun y => key x <= key y) rest /\ ascendingBy key rest
  end.

End AppStateMigration.

(** * Proofs *)

Module TypedArrayFacts.

Import TypedArray.

Lemma length_set a pos v : length (set a pos v) = length a.
Proof. unfold set. destruct (pos <? 0); [done | apply length_insert]. Qed.

Lemma get_set_eq a pos v :
  0 <= pos < Z.of_nat (length a) -> get (set a pos v) pos = Some (default 0 v).
Proof.
  intros [H0 H1]. unfold get, set.
  destruct (pos <? 0) eqn:E; [apply Z.ltb_lt in E; lia |].
  apply list_lookup_insert_eq. lia.
Qed.

Lemma get_set_ne a pos pos' v :
  pos <> pos' -> get (set a pos v) pos' = get a pos'.
Proof.
  intros Hne. unfold get, set.
  destruct (pos' <? 0) eqn:E'; [done |].
  destruct (pos <? 0) eqn:E; [done |].
  apply Z.ltb_ge in E, E'.
  apply list_lookup_insert_ne. lia.
Qed.

Lemma get_Some_lt a pos v : get a pos = Some v -> 0 <= pos < Z.of_nat (length a).
Proof.
  unfold get. destruct (pos <? 0) eqn:E; [done |].
  apply Z.ltb_ge in E. intros H%lookup_lt_Some. lia.
Qed.

Lemma strict_eq_true a b : strict_eq a b = true <-> a = b.
Proof. unfold strict_eq. apply bool_decide_eq_true. Qed.

End TypedArrayFacts.

Module FloodFillFacts.

Import TypedArray TypedArrayFacts PaintCanvas.

Lemma get_in_range a pos :
  0 <= pos < Z.of_nat (length a) -> exists v, get a pos = Some v.
Proof.
  intros [H0 H1]. unfold get.
  destruct (pos <? 0) eqn:E; [apply Z.ltb_lt in E; lia |].
  destruct (lookup_lt_is_Some_2 a (Z.to_nat pos)) as [v Hv]; [lia | eauto].
Qed.

Lemma length_setPixel pat px p : length (setPixel pat px p) = length px.
Proof. unfold setPixel. by rewrite !length_set. Qed.

Lemma rgba_setPixel_same pat px p :
  length px = length pat ->
  0 <= p -> p + 3 < Z.of_nat (length px) ->
  rgba (setPixel pat px p) p = rgba pat p.
Proof.
  intros Hlen H0 H3. unfold rgba, setPixel.
  destruct (get_in_range pat p) as [v0 E0]; [lia |].
  destruct (get_in_range pat (p + 1)) as [v1 E1]; [lia |].
  destruct (get_in_range pat (p + 2)) as [v2 E2]; [lia |].
  destruct (get_in_range pat (p + 3)) as [v3 E3]; [lia |].
  rewrite E0, E1, E2, E3.
  repeat f_equal.
  - rewrite !get_set_ne by lia. apply get_set_eq. lia.
  - rewrite !get_set_ne by lia. apply get_set_eq. rewrite length_set. lia.
  - rewrite !get_set_ne by lia. apply get_set_eq. rewrite !length_set. lia.
  - apply get_set_eq. rewrite !length_set. lia.
Qed.

Lemma get_setPixel_other pat px p q :
  q < p \/ p + 3 < q -> get (setPixel pat px p) q = get px q.
Proof. intros Hfar. unfold setPixel. rewrite !get_set_ne by lia. reflexivity. Qed.

Lemma rgba_setPixel_other pat px p p' :
  p' + 3 < p \/ p + 3 < p' ->
  rgba (setPixel pat px p) p' = rgba px p'.
Proof.
  intros Hfar. unfold rgba.
  rewrite !get_setPixel_other by lia. reflexivity.
Qed.

Lemma matchesStart_rgba r g b a px p :
  matchesStart r g b a px p = true <-> rgba px p = (r, g, b, a).
Proof.
  unfold matchesStart, rgba. rewrite !andb_true_iff, !strict_eq_true.
  split; [intros [[[-> ->] ->] ->]; reflexivity | intros [= -> -> -> ->]; auto].
Qed.

Lemma pixelPos_bounds w h x y :
  inCanvas w h x y -> 0 <= pixelPos w x y /\ pixelPos w x y + 3 < w * h * 4.
Proof. unfold inCanvas, pixelPos. intros [[? ?] [? ?]]. split; nia. Qed.

Lemma pixelPos_apart w h x y x' y' :
  inCanvas w h x y -> inCanvas w h x' y' -> (x <> x' \/ y <> y') ->
  pixelPos w x' y' + 3 < pixelPos w x y \/ pixelPos w x y + 3 < pixelPos w x' y'.
Proof.
  unfold inCanvas, pixelPos. intros [[? ?] [? ?]] [[? ?] [? ?]] Hne.
  destruct (Z.lt_trichotomy y y') as [Hlt | [-> | Hgt]].
  - right. nia.
  - destruct Hne as [Hne | Hne]; [| done].
    destruct (Z.lt_trichotomy x x') as [? | [-> | ?]]; [right; lia | done | left; lia].
  - left. nia.
Qed.

Section Soundness.

Variables (w h : Z) (orig pat : list Z) (sx sy : Z).
Hypothesis Horig : Z.of_nat (length orig) = w * h * 4.
Hypothesis Hpat : Z.of_nat (length pat) = w * h * 4.
Hypothesis Hstart : inCanvas w h sx sy.

Local Abbreviation R := (region w h orig sx sy).
Local Abbreviation pInv := (pixInv w h orig pat sx sy).
Local Abbreviation vLine := (validLine w h orig sx sy).
Local Abbreviation sR := (get orig (pixelPos w sx sy)).
Local Abbreviation sG := (get orig (pixelPos w sx sy + 1)).
Local Abbreviation sB := (get orig (pixelPos w sx sy + 2)).
Local Abbreviation sA := (get orig (pixelPos w sx sy + 3)).

Lemma pixInv_init : pInv orig.
Proof. split; [reflexivity | intros; by left]. Qed.

Lemma setPixel_pixInv px x y :
  pInv px -> inCanvas w h x y -> R x y ->
  pInv (setPixel pat px (pixelPos w x y)).
Proof.
  intros [Hlen Hpx] Hin Hreg. split.
  - by rewrite length_setPixel.
  - intros x0 y0 Hin0.
    destruct (decide (x0 = x /\ y0 = y)) as [[-> ->] | Hne].
    + right. split; [done |].
      destruct (pixelPos_bounds w h x y Hin).
      apply rgba_setPixel_same; lia.
    + rewrite rgba_setPixel_other; [by apply Hpx |].
      apply (pixelPos_apart w h); [done | done |].
      destruct (decide (x = x0)); [right | left]; naive_solver.
Qed.

Lemma match_region px x y x' y' :
  pInv px -> R x y -> adjacent4 x y x' y' -> inCanvas w h x' y' ->
  matchesStart sR sG sB sA px (pixelPos w x' y') = true ->
  R x' y'.
Proof.
  intros [_ Hpx] Hreg Hadj Hin Hm.
  apply matchesStart_rgba in Hm.
  destruct (Hpx x' y' Hin) as [Heq | [Hr _]]; [| done].
  eapply region_step; eauto.
  rewrite <- Heq, Hm. reflexivity.
Qed.

Lemma extendLeft_spec px y hi n x1 :
  pInv px -> 0 <= y < h -> 0 <= x1 -> x1 <= hi -> hi < w ->
  (forall x, x1 <= x <= hi -> R x y) ->
  0 <= extendLeft w sR sG sB sA n px y x1 <= x1 /\
  forall x, extendLeft w sR sG sB sA n px y x1 <= x <= hi -> R x y.
Proof.
  intros Hinv Hy. revert x1.
  induction n as [| n IH]; intros x1 H0 Hle Hhi Hreg; simpl; [split; [lia | done] |].
  destruct (0 <? x1) eqn:E; simpl; [| split; [lia | done]].
  apply Z.ltb_lt in E.
  destruct (matchesStart _ _ _ _ px _) eqn:Hm; [| split; [lia | done]].
  assert (Hnew : R (x1 - 1) y).
  { eapply (match_region px x1 y); eauto.
    - apply Hreg; lia.
    - right. split; [done | by right].
    - split; lia. }
  destruct (IH (x1 - 1)) as [Hb Hr]; try lia.
  - intros x Hx. destruct (decide (x = x1 - 1)) as [-> | ?]; [done | apply Hreg; lia].
  - split; [lia | done].
Qed.

Lemma extendRight_spec px y lo n x2 :
  pInv px -> 0 <= y < h -> 0 <= lo -> lo <= x2 -> x2 < w ->
  (forall x, lo <= x <= x2 -> R x y) ->
  x2 <= extendRight w sR sG sB sA n px y x2 < w /\
  forall x, lo <= x <= extendRight w sR sG sB sA n px y x2 -> R x y.
Proof.
  intros Hinv Hy Hlo. revert x2.
  induction n as [| n IH]; intros x2 Hle Hhi Hreg; simpl; [split; [lia | done] |].
  destruct (x2 <? w - 1) eqn:E; simpl; [| split; [lia | done]].
  apply Z.ltb_lt in E.
  destruct (matchesStart _ _ _ _ px _) eqn:Hm; [| split; [lia | done]].
  assert (Hnew : R (x2 + 1) y).
  { eapply (match_region px x2 y); eauto.
    - apply Hreg; lia.
    - right. split; [done | by left].
    - split; lia. }
  destruct (IH (x2 + 1)) as [Hb Hr]; try lia.
  - intros x Hx. destruct (decide (x = x2 + 1)) as [-> | ?]; [done | apply Hreg; lia].
  - split; [lia | done].
Qed.

Lemma fillLine_pixInv px y x1 x2 :
  pInv px -> 0 <= y < h -> 0 <= x1 -> x2 < w ->
  (forall x, x1 <= x <= x2 -> R x y) ->
  pInv (fillLine w pat px y x1 x2).
Proof.
  intros Hinv Hy H1 H2 Hreg. unfold fillLine.
  assert (Hall : Forall (fun x => x1 <= x <= x2) (seqZ x1 (x2 - x1 + 1))).
  { apply Forall_seqZ. intros; lia. }
  revert px Hinv. induction Hall as [| x xs Hx _ IH]; intros px Hinv; simpl; [done |].
  apply IH. apply (setPixel_pixInv px x y); [done | split; lia | by apply Hreg].
Qed.

Local Abbreviation sInv := (scanInv w h orig sx sy).

Lemma setTopRightX_length st v : length (setTopRightX st v) = length st.
Proof. by destruct st. Qed.

Lemma scanStep_inv px y newY dir x1 x2 acc x :
  pInv px -> 0 <= newY < h -> (newY = y + 1 \/ newY = y - 1) ->
  (dir = 1 \/ dir = -1) ->
  0 <= x1 -> x2 < w -> (forall x', x1 <= x' <= x2 -> R x' y) ->
  x1 <= x <= x2 ->
  sInv newY acc x ->
  sInv newY (scanStep w sR sG sB sA px newY dir acc x) (x + 1) /\
  (length (fst (scanStep w sR sG sB sA px newY dir acc x)) <=
     S (length (fst acc)))%nat.
Proof.
  intros Hinv HnewY Hadj Hdir H1 H2 Hreg Hx [Hvalid Hopen].
  destruct acc as [st inRange]. simpl in Hvalid, Hopen.
  assert (Hhere : matchesStart sR sG sB sA px (pixelPos w x newY) = true -> R x newY).
  { apply (match_region px x y); [done | apply Hreg; lia | | split; lia].
    left. split; [done | lia]. }
  unfold scanStep. fold (pixelPos w x newY).
  destruct inRange, (matchesStart sR sG sB sA px (pixelPos w x newY)) eqn:Hm; simpl.
  - (* the open run goes on *)
    split; [| lia]. split; [done |]. intros _.
    destruct Hopen as (s & rest & -> & Hy & Hl & Hrun); [done |].
    exists s, rest. repeat split; [done | lia |].
    intros x' Hx'. destruct (decide (x' = x)) as [-> | ?]; [by apply Hhere | apply Hrun; lia].
  - (* the open run ends at x - 1 *)
    destruct Hopen as (s & rest & -> & Hy & Hl & Hrun); [done |].
    split; [| simpl; lia]. split; [| done]. simpl.
    apply Forall_cons in Hvalid as [Hs Hrest].
    apply Forall_cons. split; [| done].
    destruct Hs as (Hsy & Hl0 & _ & _ & Hd & _).
    unfold validLine; simpl. repeat split; try lia; try done.
    intros x' Hx'. rewrite Hy. apply Hrun. lia.
  - (* a run opens at x *)
    split; [| simpl; lia]. split; simpl.
    + apply Forall_cons. split; [| done].
      unfold validLine; simpl. repeat split; try lia; try done.
      intros x' Hx'. replace x' with x by lia. by apply Hhere.
    + intros _. eexists _, _. repeat split; simpl; [lia |].
      intros x' Hx'. replace x' with x by lia. by apply Hhere.
  - split; [| lia]. split; [done | done].
Qed.

Lemma scanFold_inv px y newY dir x1 x2 n a acc :
  pInv px -> 0 <= newY < h -> (newY = y + 1 \/ newY = y - 1) ->
  (dir = 1 \/ dir = -1) ->
  0 <= x1 -> x2 < w -> (forall x', x1 <= x' <= x2 -> R x' y) ->
  x1 <= a -> a + Z.of_nat n <= x2 + 1 ->
  sInv newY acc a ->
  sInv newY (fold_left (scanStep w sR sG sB sA px newY dir)
                       (seqZ a (Z.of_nat n)) acc) (a + Z.of_nat n) /\
  (length (fst (fold_left (scanStep w sR sG sB sA px newY dir)
                          (seqZ a (Z.of_nat n)) acc)) <=
     length (fst acc) + n)%nat.
Proof.
  intros Hinv HnewY Hadj Hdir H1 H2 Hreg. revert a acc.
  induction n as [| n IH]; intros a acc Ha Hend Hacc.
  - simpl. rewrite Z.add_0_r. split; [done | lia].
  - rewrite seqZ_cons by lia. simpl fold_left.
    destruct (scanStep_inv px y newY dir x1 x2 acc a) as [Hs Hl]; try done; [lia |].
    replace (Z.pred (Z.of_nat (S n))) with (Z.of_nat n) by lia.
    destruct (IH (Z.succ a) (scanStep w sR sG sB sA px newY dir acc a))
      as [Hs' Hl']; [lia | lia | by replace (Z.succ a) with (a + 1) by lia |].
    replace (a + Z.of_nat (S n)) with (Z.succ a + Z.of_nat n) by lia.
    split; [done | lia].
Qed.

Lemma scanRow_valid px y newY dir x1 x2 rest :
  pInv px -> 0 <= newY < h -> (newY = y + 1 \/ newY = y - 1) ->
  (dir = 1 \/ dir = -1) ->
  0 <= x1 -> x1 <= x2 -> x2 < w -> (forall x', x1 <= x' <= x2 -> R x' y) ->
  Forall vLine rest ->
  Forall vLine (scanRow w sR sG sB sA px newY dir x1 x2 rest) /\
  Z.of_nat (length (scanRow w sR sG sB sA px newY dir x1 x2 rest)) <=
    Z.of_nat (length rest) + (x2 - x1 + 1).
Proof.
  intros Hinv HnewY Hadj Hdir H1 H12 H2 Hreg Hrest. unfold scanRow.
  assert (HF := scanFold_inv px y newY dir x1 x2 (Z.to_nat (x2 - x1 + 1)) x1
                 (rest, false) Hinv HnewY Hadj Hdir H1 H2 Hreg).
  rewrite Z2Nat.id in HF by lia.
  destruct HF as [[Hvalid Hopen] Hlen]; [lia | lia | by split |].
  destruct (fold_left _ _ _) as [st inRange]. simpl in *.
  destruct inRange; [| split; [done | lia]].
  destruct Hopen as (s & rest' & -> & Hy & Hl & Hrun); [done |].
  simpl in *. split; [| lia].
  apply Forall_cons in Hvalid as [Hs Hrest'].
  apply Forall_cons. split; [| done].
  destruct Hs as (Hsy & Hl0 & _ & _ & Hd & _).
  unfold validLine; simpl. repeat split; try lia; try done.
  intros x' Hx'. rewrite Hy. apply Hrun. lia.
Qed.

Local Abbreviation fInv := (fillInv w h orig pat sx sy).
Local Abbreviation step := (fillStep w h pat sR sG sB sA).
Local Abbreviation loop := (fillLoop w h pat sR sG sB sA).

Lemma fillStep_inv st s rest :
  fInv st -> scanlines st = s :: rest ->
  filledPixels st < maxPixels w h ->
  fInv (step st s rest) /\
  0 <= fillMeasure w h (step st s rest) < fillMeasure w h st.
Proof.
  intros [Hpx Hst] Hsl Hlt. rewrite Hsl in Hst.
  apply Forall_cons in Hst as [Hs Hrest].
  destruct Hs as (Hy & Hl0 & Hlr & Hrw & Hd & Hreg).
  assert (Hm : fillMeasure w h st =
               2 * (maxPixels w h - filledPixels st) + Z.of_nat (S (length rest))).
  { unfold fillMeasure. rewrite Hsl.
    destruct (Z.ltb_spec (filledPixels st) (maxPixels w h)); [done | lia]. }
  unfold fillStep.
  destruct ((sl_y s + direction s <? 0) || (h <=? sl_y s + direction s)) eqn:E.
  - split; [by split |].
    rewrite Hm. unfold fillMeasure; simpl.
    destruct (Z.ltb_spec (filledPixels st) (maxPixels w h)); lia.
  - apply orb_false_iff in E as [E1 E2].
    apply Z.ltb_ge in E1. apply Z.leb_gt in E2.
    destruct (extendLeft_spec (pixels st) (sl_y s) (rightX s)
                (Z.to_nat (leftX s)) (leftX s) Hpx Hy Hl0 Hlr Hrw Hreg) as [Hx1 Hr1].
    set (x1 := extendLeft w sR sG sB sA (Z.to_nat (leftX s)) (pixels st)
                          (sl_y s) (leftX s)) in *.
    destruct (extendRight_spec (pixels st) (sl_y s) x1
                (Z.to_nat (w - 1 - rightX s)) (rightX s) Hpx Hy) as [Hx2 Hr2];
      [lia | lia | lia | done |].
    set (x2 := extendRight w sR sG sB sA (Z.to_nat (w - 1 - rightX s)) (pixels st)
                           (sl_y s) (rightX s)) in *.
    assert (Hpx' : pInv (fillLine w pat (pixels st) (sl_y s) x1 x2)).
    { apply fillLine_pixInv; try done; lia. }
    destruct (scanRow_valid (fillLine w pat (pixels st) (sl_y s) x1 x2) (sl_y s)
                (sl_y s + direction s) (direction s) x1 x2 rest)
      as [Hv Hlen]; try done; try lia.
    split; [by split |].
    rewrite Hm. unfold fillMeasure; simpl.
    destruct (Z.ltb_spec (filledPixels st + Z.max 0 (x2 - x1 + 1)) (maxPixels w h)); lia.
Qed.

Lemma fillLoop_terminates fuel st :
  fInv st -> fillMeasure w h st <= Z.of_nat fuel ->
  exists st', loop fuel st = Some st' /\ fInv st'.
Proof.
  revert st. induction fuel as [| fuel IH]; intros st Hinv Hfuel.
  - simpl. destruct (scanlines st) as [| s rest] eqn:Hsl; [eauto |].
    destruct (Z.ltb_spec (filledPixels st) (maxPixels w h)) as [Hlt | Hge]; [| eauto].
    destruct (fillStep_inv st s rest Hinv Hsl Hlt) as [_ Hm]. lia.
  - simpl. destruct (scanlines st) as [| s rest] eqn:Hsl; [eauto |].
    destruct (Z.ltb_spec (filledPixels st) (maxPixels w h)) as [Hlt | Hge]; [| eauto].
    destruct (fillStep_inv st s rest Hinv Hsl Hlt) as [Hinv' Hm].
    apply IH; [done | lia].
Qed.

Lemma fillInv_init :
  fInv (mkFillState orig [mkScanLine sy sx sx (-1); mkScanLine sy sx sx 1] 0).
Proof.
  destruct Hstart as [Hx Hy].
  split; [apply pixInv_init |]. simpl.
  repeat apply Forall_cons_2; [| | apply Forall_nil_2];
    (unfold validLine; simpl; repeat split; try lia; auto;
     intros x Hx'; replace x with sx by lia; constructor).
Qed.

Lemma fillMeasure_init :
  fillMeasure w h (mkFillState orig [mkScanLine sy sx sx (-1); mkScanLine sy sx sx 1] 0)
    <= Z.of_nat (fillFuel w h).
Proof.
  unfold fillMeasure, fillFuel; simpl.
  assert (0 <= maxPixels w h) by (unfold maxPixels; apply Z.div_pos; nia).
  destruct (Z.ltb_spec 0 (maxPixels w h)); lia.
Qed.

End Soundness.

(** What holds of every fill. On every canvas buffer and for every start
    pixel inside the canvas, [floodFill] returns (the loop ends within [fillFuel] turns),
    keeps the buffer's length, and writes only inside the 4-connected region of
    the start pixel: each pixel of the result is the pixel that was there, or
    it belongs to the region and is the pattern's pixel at that position. *)
Theorem floodFill_within_region (w h : Z) (pixels0 pat : list Z) (sx sy : Z) (fuel : nat) :
  Z.of_nat (length pixels0) = w * h * 4 ->
  Z.of_nat (length pat) = w * h * 4 ->
  inCanvas w h sx sy ->
  (fillFuel w h <= fuel)%nat ->
  exists out,
    floodFill fuel w h pixels0 pat sx sy = Some out /\
    length out = length pixels0 /\
    forall x y, inCanvas w h x y ->
      rgba out (pixelPos w x y) = rgba pixels0 (pixelPos w x y) \/
      (region w h pixels0 sx sy x y /\
       rgba out (pixelPos w x y) = rgba pat (pixelPos w x y)).
Proof.
  intros Hlen Hpat Hstart Hfuel. unfold floodFill.
  match goal with |- context [if ?c then _ else _] => destruct c end.
  - exists pixels0. split; [done |]. split; [done |]. intros; by left.
  - destruct (fillLoop_terminates w h pixels0 pat sx sy Hlen Hpat fuel
                (mkFillState pixels0
                   [mkScanLine sy sx sx (-1); mkScanLine sy sx sx 1] 0))
      as (st' & Hrun & [[Hl Hpx] _]).
    + by apply fillInv_init.
    + pose proof (fillMeasure_init w h pixels0 pat sx sy Hpat). lia.
    + exists (pixels st'). unfold pixelPos in Hrun. rewrite Hrun.
      split; [done |]. split; done.
Qed.

Lemma floodFill_within_region_witness :
  exists out,
    floodFill (fillFuel 3 3) 3 3 plainCanvas plainPattern 1 1 = Some out /\
    length out = length plainCanvas /\
    forall x y, inCanvas 3 3 x y ->
      rgba out (pixelPos 3 x y) = rgba plainCanvas (pixelPos 3 x y) \/
      (region 3 3 plainCanvas 1 1 x y /\
       rgba out (pixelPos 3 x y) = rgba plainPattern (pixelPos 3 x y)).
Proof.
  apply (floodFill_within_region 3 3 plainCanvas plainPattern 1 1 (fillFuel 3 3));
    [reflexivity | reflexivity | split; lia | lia].
Defined.

(** The pixel budget. On the strip canvas the region of the start pixel
    (0, 6) is the ten pixels of level 7, rows 1 to 10, and the start pixel
    differs from the pattern; the loop stops when its pixel budget (80% of the
    canvas, here 9 writes) is used up, and the region's pixel (0, 10) keeps its
    old colour. *)
Lemma floodFill_leaves_region_pixel :
  exists out,
    floodFill (fillFuel 1 12) 1 12 stripCanvas stripPattern 0 6 = Some out /\
    rgba stripCanvas (pixelPos 1 0 6) <> rgba stripPattern (pixelPos 1 0 6) /\
    region 1 12 stripCanvas 0 6 0 10 /\
    rgba out (pixelPos 1 0 10) <> rgba stripPattern (pixelPos 1 0 10).
Proof.
  eexists. split; [vm_compute; reflexivity |].
  split; [vm_compute; congruence |].
  split; [| vm_compute; congruence].
  assert (Hdown : forall y, 6 <= y <= 10 -> region 1 12 stripCanvas 0 6 0 y).
  { intros y Hy.
    assert (Hn : exists n : nat, y = 6 + Z.of_nat n) by (exists (Z.to_nat (y - 6)); lia).
    destruct Hn as [n ->]. induction n as [| n IH]; [constructor |].
    apply (region_step _ _ _ _ _ 0 (6 + Z.of_nat n)); [apply IH; lia | | |].
    - left. split; [done | lia].
    - split; lia.
    - assert (Hc : Z.of_nat (S n) = 1 \/ Z.of_nat (S n) = 2 \/
                   Z.of_nat (S n) = 3 \/ Z.of_nat (S n) = 4) by lia.
      destruct Hc as [-> | [-> | [-> | ->]]]; reflexivity. }
  apply Hdown; lia.
Qed.

(** The same loop on the plain 3 x 3 canvas, started at the centre: a
    scanline whose next row would leave the canvas is dropped before its own
    row is filled, so the first and the last row stay as they were although
    the budget (7 writes) is not used up. *)
Example floodFill_plainCanvas :
  floodFill (fillFuel 3 3) 3 3 plainCanvas plainPattern 1 1 =
  Some (greyPixels [7; 7; 7; 9; 9; 9; 7; 7; 7]).
Proof. vm_compute. reflexivity. Qed.

(** C1 fails on the code, with the pixel budget far from used. On the plain
    3 x 3 canvas, filled from the centre, the region of the start pixel is the
    whole canvas and the start pixel differs from the pattern. The main loop
    ends with an empty stack after 4 of the 7 writes of its budget, and the
    pixel (1, 0), the upper neighbour of the start pixel, keeps its colour: the
    scanline of row 0 is dropped, because the row above it is outside the
    canvas, before row 0 itself is filled. *)
Theorem floodFill_drops_unfilled_row :
  exists st,
    fillLoop 3 3 plainPattern
             (get plainCanvas (pixelPos 3 1 1)) (get plainCanvas (pixelPos 3 1 1 + 1))
             (get plainCanvas (pixelPos 3 1 1 + 2)) (get plainCanvas (pixelPos 3 1 1 + 3))
             (fillFuel 3 3) (firstState plainCanvas 1 1) = Some st /\
    floodFill (fillFuel 3 3) 3 3 plainCanvas plainPattern 1 1 = Some (pixels st) /\
    scanlines st = [] /\
    filledPixels st = 4 /\ maxPixels 3 3 = 7 /\
    rgba plainCanvas (pixelPos 3 1 1) <> rgba plainPattern (pixelPos 3 1 1) /\
    region 3 3 plainCanvas 1 1 1 0 /\
    rgba (pixels st) (pixelPos 3 1 0) = rgba plainCanvas (pixelPos 3 1 0) /\
    rgba (pixels st) (pixelPos 3 1 0) <> rgba plainPattern (pixelPos 3 1 0).
Proof.
  eexists. split; [vm_compute; reflexivity |]. cbn [pixels scanlines filledPixels].
  split; [vm_compute; reflexivity |].
  split; [reflexivity |]. split; [reflexivity |]. split; [reflexivity |].
  split; [vm_compute; congruence |].
  split; [| split; [vm_compute; reflexivity | vm_compute; congruence]].
  apply (region_step _ _ _ _ _ 1 1); [constructor | | | reflexivity].
  - left. split; [done | right; lia].
  - split; lia.
Qed.

(** The loop does not turn back either. On the hook canvas, filled from
    (0, 1), the region of the start pixel holds the right column, reached
    through the rows at the bottom; the loop ends with an empty stack after 6
    of the 12 writes of its budget, and the pixel (2, 2), which is in the
    region and in no border row, keeps its colour: the scanlines that go down
    the left column never lead to one that goes up the right column. *)
Example floodFill_does_not_turn_back :
  exists st,
    fillLoop 3 5 hookPattern
             (get hookCanvas (pixelPos 3 0 1)) (get hookCanvas (pixelPos 3 0 1 + 1))
             (get hookCanvas (pixelPos 3 0 1 + 2)) (get hookCanvas (pixelPos 3 0 1 + 3))
             (fillFuel 3 5) (firstState hookCanvas 0 1) = Some st /\
    floodFill (fillFuel 3 5) 3 5 hookCanvas hookPattern 0 1 = Some (pixels st) /\
    scanlines st = [] /\
    filledPixels st = 6 /\ maxPixels 3 5 = 12 /\
    region 3 5 hookCanvas 0 1 2 2 /\
    rgba (pixels st) (pixelPos 3 2 2) = rgba hookCanvas (pixelPos 3 2 2) /\
    rgba (pixels st) (pixelPos 3 2 2) <> rgba hookPattern (pixelPos 3 2 2).
Proof.
  eexists. split; [vm_compute; reflexivity |]. cbn [pixels scanlines filledPixels].
  split; [vm_compute; reflexivity |].
  split; [reflexivity |]. split; [reflexivity |]. split; [reflexivity |].
  split; [| split; [vm_compute; reflexivity | vm_compute; congruence]].
  assert (Hstep : forall x y x' y',
            region 3 5 hookCanvas 0 1 x y -> adjacent4 x y x' y' ->
            inCanvas 3 5 x' y' ->
            rgba hookCanvas (pixelPos 3 x' y') = rgba hookCanvas (pixelPos 3 0 1) ->
            region 3 5 hookCanvas 0 1 x' y')
    by (intros; by eapply region_step).
  apply (Hstep 2 3); [| left; split; [done | right; lia] | split; lia | reflexivity].
  apply (Hstep 1 3); [| right; split; [done | left; lia] | split; lia | reflexivity].
  apply (Hstep 0 3); [| right; split; [done | left; lia] | split; lia | reflexivity].
  apply (Hstep 0 2); [| left; split; [done | left; lia] | split; lia | reflexivity].
  apply (Hstep 0 1); [| left; split; [done | left; lia] | split; lia | reflexivity].
  constructor.
Qed.

End FloodFillFacts.

Module FillRowsFacts.

Import TypedArray PaintCanvas FillRows TypedArrayFacts FloodFillFacts.

Section Rows.

Variables (w h : Z) (orig pat : list Z) (sx sy : Z).
Hypothesis Horig : Z.of_nat (length orig) = w * h * 4.
Hypothesis Hpat : Z.of_nat (length pat) = w * h * 4.
Hypothesis Hstart : inCanvas w h sx sy.

Local Abbreviation sR := (get orig (pixelPos w sx sy)).
Local Abbreviation sG := (get orig (pixelPos w sx sy + 1)).
Local Abbreviation sB := (get orig (pixelPos w sx sy + 2)).
Local Abbreviation sA := (get orig (pixelPos w sx sy + 3)).
Local Abbreviation fInv := (fillInv w h orig pat sx sy).
Local Abbreviation step := (fillStep w h pat sR sG sB sA).
Local Abbreviation loop := (fillLoop w h pat sR sG sB sA).

(** The pixels of row [y] listed in [xs] take the pattern, every other pixel
    of the canvas stays. *)
Lemma fold_setPixel_rgba px y xs x r :
  Z.of_nat (length px) = w * h * 4 ->
  0 <= y < h -> Forall (fun a => 0 <= a < w) xs -> inCanvas w h x r ->
  rgba (fold_left (fun px a => setPixel pat px (pixelPos w a y)) xs px)
       (pixelPos w x r) =
    if bool_decide (r = y /\ x ∈ xs) then rgba pat (pixelPos w x r)
    else rgba px (pixelPos w x r).
Proof.
  intros Hlen Hy Hxs Hin. revert px Hlen.
  induction Hxs as [| a xs Ha _ IH]; intros px Hlen; simpl.
  - rewrite bool_decide_eq_false_2; [done |]. intros [_ Hx]. by apply elem_of_nil in Hx.
  - rewrite IH by (by rewrite length_setPixel).
    destruct (decide (r = y /\ x ∈ xs)) as [Hyes | Hno].
    + rewrite !bool_decide_eq_true_2; [done | | done].
      destruct Hyes. split; [done | by apply elem_of_cons; right].
    + rewrite (bool_decide_eq_false_2 _ Hno).
      destruct (decide (r = y /\ x = a)) as [[Hr Hx] | Hne].
      * rewrite bool_decide_eq_true_2
          by (split; [done | apply elem_of_cons; by left]).
        rewrite Hr, Hx in Hin |- *.
        destruct (pixelPos_bounds w h a y Hin).
        apply rgba_setPixel_same; lia.
      * rewrite bool_decide_eq_false_2.
        -- apply rgba_setPixel_other.
           apply (pixelPos_apart w h); [split; lia | done |].
           destruct (decide (a = x)) as [Hax | Hax]; [right | by left].
           intros Hry. apply Hne. by split.
        -- intros [Hry Hx]. apply elem_of_cons in Hx as [Hx | Hx].
           ++ apply Hne. by split.
           ++ apply Hno. by split.
Qed.

Lemma fillLine_rgba px y x1 x2 x r :
  Z.of_nat (length px) = w * h * 4 ->
  0 <= y < h -> 0 <= x1 -> x2 < w -> inCanvas w h x r ->
  rgba (fillLine w pat px y x1 x2) (pixelPos w x r) =
    if bool_decide (r = y /\ x1 <= x <= x2) then rgba pat (pixelPos w x r)
    else rgba px (pixelPos w x r).
Proof.
  intros Hlen Hy H1 H2 Hin. unfold fillLine.
  change (fun px0 x0 => setPixel pat px0 ((y * w + x0) * 4))
    with (fun px0 x0 => setPixel pat px0 (pixelPos w x0 y)).
  rewrite (fold_setPixel_rgba px y _ x r Hlen Hy); [| | done].
  - rewrite (bool_decide_ext _ (r = y /\ x1 <= x <= x2)); [done |].
    rewrite elem_of_seqZ. intuition lia.
  - apply Forall_seqZ. intros; lia.
Qed.

Lemma setTopRightX_heads l v :
  Forall (headsAway sy) l -> Forall (headsAway sy) (setTopRightX l v).
Proof.
  destruct l as [| s rest]; [done |]. simpl. intros Hl.
  apply Forall_cons in Hl as [Hs Hrest]. by apply Forall_cons.
Qed.

Lemma scanFold_heads px newY dir xs acc :
  headsAway sy (mkScanLine newY 0 0 dir) ->
  Forall (headsAway sy) (fst acc) ->
  Forall (headsAway sy) (fst (fold_left (scanStep w sR sG sB sA px newY dir) xs acc)).
Proof.
  intros Hnew. revert acc. induction xs as [| x xs IH]; intros acc Hacc; [done |].
  simpl. apply IH. destruct acc as [sl inRange]. unfold scanStep.
  destruct inRange, (matchesStart _ _ _ _ px _); simpl in *; try done.
  - by apply setTopRightX_heads.
  - by apply Forall_cons.
Qed.

Lemma scanRow_heads px newY dir x1 x2 rest :
  headsAway sy (mkScanLine newY 0 0 dir) ->
  Forall (headsAway sy) rest ->
  Forall (headsAway sy) (scanRow w sR sG sB sA px newY dir x1 x2 rest).
Proof.
  intros Hnew Hrest. unfold scanRow.
  pose proof (scanFold_heads px newY dir (seqZ x1 (x2 - x1 + 1)) (rest, false)
                Hnew Hrest) as HF.
  destruct (fold_left _ _ _) as [sl inRange]. simpl in HF.
  destruct inRange; [by apply setTopRightX_heads | done].
Qed.

(** A turn of the loop drops a scanline whose next row leaves the canvas,
    or fills a piece [x1..x2] of the scanline's row that holds the scanline. *)
Lemma fillStep_cases st s rest :
  fInv st -> scanlines st = s :: rest ->
  (~ 0 <= sl_y s + direction s < h /\
   step st s rest = mkFillState (pixels st) rest (filledPixels st)) \/
  (0 <= sl_y s + direction s < h /\
   exists x1 x2, 0 <= x1 /\ x1 <= leftX s /\ rightX s <= x2 /\ x2 < w /\
     step st s rest =
       mkFillState (fillLine w pat (pixels st) (sl_y s) x1 x2)
         (scanRow w sR sG sB sA (fillLine w pat (pixels st) (sl_y s) x1 x2)
                  (sl_y s + direction s) (direction s) x1 x2 rest)
         (filledPixels st + Z.max 0 (x2 - x1 + 1))).
Proof.
  intros [Hpx Hst] Hsl. rewrite Hsl in Hst.
  apply Forall_cons in Hst as [Hs Hrest].
  destruct Hs as (Hy & Hl0 & Hlr & Hrw & Hd & Hreg).
  unfold fillStep.
  destruct ((sl_y s + direction s <? 0) || (h <=? sl_y s + direction s)) eqn:E.
  - left. split; [| done].
    apply orb_true_iff in E as [E | E]; [apply Z.ltb_lt in E | apply Z.leb_le in E]; lia.
  - right. apply orb_false_iff in E as [E1 E2].
    apply Z.ltb_ge in E1. apply Z.leb_gt in E2. split; [lia |].
    destruct (extendLeft_spec w h orig pat sx sy (pixels st) (sl_y s) (rightX s)
                (Z.to_nat (leftX s)) (leftX s) Hpx Hy Hl0 Hlr Hrw Hreg) as [Hx1 _].
    destruct (extendRight_spec w h orig pat sx sy (pixels st) (sl_y s) (leftX s)
                (Z.to_nat (w - 1 - rightX s)) (rightX s) Hpx Hy Hl0 Hlr Hrw Hreg)
      as [Hx2 _].
    eexists _, _. split; [| split; [| split; [| split; [| reflexivity]]]]; lia.
Qed.

(** What every turn of the loop keeps holds when the loop has ended. *)
Lemma fillLoop_preserves (P : FillState -> Prop) :
  (forall st s rest, fInv st -> scanlines st = s :: rest ->
     filledPixels st < maxPixels w h -> P st -> P (step st s rest)) ->
  forall fuel st st', fInv st -> P st -> loop fuel st = Some st' ->
    P st' /\ stopped w h st'.
Proof.
  intros Hstep. induction fuel as [| fuel IH]; intros st st' Hinv HP Hrun; simpl in Hrun.
  - destruct (scanlines st) as [| s rest] eqn:Hsl.
    + injection Hrun as <-. split; [done | by left].
    + destruct (Z.ltb_spec (filledPixels st) (maxPixels w h)); [done |].
      injection Hrun as <-. split; [done | right; lia].
  - destruct (scanlines st) as [| s rest] eqn:Hsl.
    + injection Hrun as <-. split; [done | by left].
    + destruct (Z.ltb_spec (filledPixels st) (maxPixels w h)) as [Hlt | Hge].
      * destruct (fillStep_inv w h orig pat sx sy Horig Hpat st s rest Hinv Hsl Hlt)
          as [Hinv' _].
        apply (IH (step st s rest)); [done | by apply Hstep | done].
      * injection Hrun as <-. split; [done | right; lia].
Qed.

Lemma fillStep_keeps_row r st s rest :
  borderRow h sy r ->
  fInv st -> scanlines st = s :: rest ->
  Forall (headsAway sy) (scanlines st) /\ rowKept w orig (pixels st) r ->
  Forall (headsAway sy) (scanlines (step st s rest)) /\
  rowKept w orig (pixels (step st s rest)) r.
Proof.
  intros Hr Hinv Hsl [Hheads Hrow].
  pose proof Hinv as [[Hlen _] Hvalid].
  rewrite Hsl in Hheads, Hvalid.
  apply Forall_cons in Hheads as [Hs Hrest].
  apply Forall_cons in Hvalid as [(Hy & _) _].
  destruct (fillStep_cases st s rest Hinv Hsl)
    as [[_ ->] | [HnewY (x1 & x2 & H1 & _ & _ & H2 & ->)]]; simpl; [done |].
  split.
  - apply scanRow_heads; [| done].
    destruct Hs as [[Hd Hle] | [Hd Hle]]; [left | right]; simpl; split; lia.
  - intros x Hx. rewrite fillLine_rgba; try lia.
    + rewrite bool_decide_eq_false_2; [by apply Hrow |].
      intros [-> _]. destruct Hr as [[? ?] | [? ?]], Hs as [[? ?] | [? ?]]; lia.
    + destruct Hstart, Hr as [[-> ?] | [-> ?]]; split; lia.
Qed.

Lemma fillStep_paints st s rest :
  2 <= h ->
  fInv st -> scanlines st = s :: rest ->
  painted pat (pixels st) (pixelPos w sx sy) \/ atStart orig sx sy st ->
  painted pat (pixels (step st s rest)) (pixelPos w sx sy) \/
  atStart orig sx sy (step st s rest).
Proof.
  intros Hh Hinv Hsl HP.
  pose proof Hinv as [[Hlen _] Hvalid].
  rewrite Hsl in Hvalid. apply Forall_cons in Hvalid as [(Hy & _) _].
  destruct Hstart as [Hsx Hsy].
  destruct (fillStep_cases st s rest Hinv Hsl)
    as [[HnewY ->] | [HnewY (x1 & x2 & H1 & Hl & Hr & H2 & ->)]]; simpl.
  - destruct HP as [HP | (Hpx & Hf & [Hs | [Hs H0]])]; [by left | |].
    + right. rewrite Hsl in Hs. injection Hs as -> ->. simpl in *.
      split; [done |]. split; [done |]. right. split; [done | lia].
    + rewrite Hsl in Hs. injection Hs as -> ->. simpl in *. lia.
  - left. unfold painted. rewrite fillLine_rgba; try lia; [| by split].
    case_bool_decide as Hc; [done |].
    destruct HP as [HP | (Hpx & Hf & [Hs | [Hs H0]])]; [done | |];
      rewrite Hsl in Hs; injection Hs as -> ->; simpl in *; lia.
Qed.

End Rows.

(** X1. On a canvas one row high [floodFill] changes nothing, whatever the
    start pixel and the pattern: both first scanlines point at a row outside
    the canvas and are dropped before their own row is filled. *)
Theorem floodFill_one_row_unchanged (w : Z) (pixels0 pat : list Z) (sx : Z)
    (fuel : nat) :
  floodFill (S (S fuel)) w 1 pixels0 pat sx 0 = Some pixels0.
Proof.
  unfold floodFill.
  match goal with |- context [if ?c then _ else _] => destruct c end; [done |].
  simpl. destruct (0 <? maxPixels w 1); [| done]. simpl.
  change (fillStep w 1 pat _ _ _ _ _ (mkScanLine 0 sx sx (-1)) _)
    with (mkFillState pixels0 [mkScanLine 0 sx sx 1] 0).
  change (fillStep w 1 pat _ _ _ _ _ (mkScanLine 0 sx sx 1) _)
    with (mkFillState pixels0 [] 0).
  by destruct fuel.
Qed.

(** X2. A fill never touches the first row of the canvas unless it starts
    there, nor the last row unless it starts there: in the buffer [floodFill]
    returns, those rows are as they were. *)
Theorem floodFill_spares_border_rows (w h : Z) (pixels0 pat : list Z)
    (sx sy : Z) (fuel : nat) :
  Z.of_nat (length pixels0) = w * h * 4 ->
  Z.of_nat (length pat) = w * h * 4 ->
  inCanvas w h sx sy ->
  (fillFuel w h <= fuel)%nat ->
  exists out,
    floodFill fuel w h pixels0 pat sx sy = Some out /\
    forall x r, 0 <= x < w -> borderRow h sy r ->
      rgba out (pixelPos w x r) = rgba pixels0 (pixelPos w x r).
Proof.
  intros Hlen Hpat Hstart Hfuel. unfold floodFill.
  match goal with |- context [if ?c then _ else _] => destruct c end.
  - exists pixels0. split; [done | done].
  - set (st0 := mkFillState pixels0
                  [mkScanLine sy sx sx (-1); mkScanLine sy sx sx 1] 0).
    assert (Hinv0 : fillInv w h pixels0 pat sx sy st0)
      by (by apply fillInv_init).
    destruct (fillLoop_terminates w h pixels0 pat sx sy Hlen Hpat fuel st0)
      as (st' & Hrun & _); [done | |].
    { pose proof (fillMeasure_init w h pixels0 pat sx sy Hpat). subst st0. lia. }
    exists (pixels st'). unfold pixelPos in Hrun. rewrite Hrun.
    split; [done |]. intros x r Hx Hr.
    destruct (fillLoop_preserves w h pixels0 pat sx sy Hlen Hpat
                (fun st => Forall (headsAway sy) (scanlines st) /\
                           rowKept w pixels0 (pixels st) r))
      with (fuel := fuel) (st := st0) (st' := st') as [[_ Hrow] _]; try done.
    + intros st s rest Hinv Hsl _.
      by apply (fillStep_keeps_row w h pixels0 pat sx sy Hlen Hpat Hstart).
    + split; [| done]. subst st0; simpl.
      repeat apply Forall_cons_2; [| | apply Forall_nil_2];
        [left | right]; simpl; split; lia.
    + by apply Hrow.
Qed.

Lemma floodFill_spares_border_rows_witness :
  exists out,
    floodFill (fillFuel 3 3) 3 3 plainCanvas plainPattern 1 1 = Some out /\
    forall x r, 0 <= x < 3 -> borderRow 3 1 r ->
      rgba out (pixelPos 3 x r) = rgba plainCanvas (pixelPos 3 x r).
Proof.
  apply (floodFill_spares_border_rows 3 3 plainCanvas plainPattern 1 1 (fillFuel 3 3));
    [reflexivity | reflexivity | split; lia | lia].
Defined.

(** X3. On a canvas of at least two rows the pixel that was clicked carries
    the pattern when [floodFill] returns. *)
Theorem floodFill_paints_start_pixel (w h : Z) (pixels0 pat : list Z)
    (sx sy : Z) (fuel : nat) :
  Z.of_nat (length pixels0) = w * h * 4 ->
  Z.of_nat (length pat) = w * h * 4 ->
  inCanvas w h sx sy ->
  2 <= h ->
  (fillFuel w h <= fuel)%nat ->
  exists out,
    floodFill fuel w h pixels0 pat sx sy = Some out /\
    rgba out (pixelPos w sx sy) = rgba pat (pixelPos w sx sy).
Proof.
  intros Hlen Hpat Hstart Hh Hfuel. unfold floodFill.
  match goal with |- context [if ?c then _ else _] => destruct c eqn:Hsame end.
  - exists pixels0. split; [done |].
    apply andb_true_iff in Hsame as [Hsame H3].
    apply andb_true_iff in Hsame as [Hsame H2].
    apply andb_true_iff in Hsame as [H0 H1].
    apply strict_eq_true in H0, H1, H2, H3.
    unfold rgba, pixelPos. by rewrite H0, H1, H2, H3.
  - set (st0 := mkFillState pixels0
                  [mkScanLine sy sx sx (-1); mkScanLine sy sx sx 1] 0).
    assert (Hinv0 : fillInv w h pixels0 pat sx sy st0)
      by (by apply fillInv_init).
    destruct (fillLoop_terminates w h pixels0 pat sx sy Hlen Hpat fuel st0)
      as (st' & Hrun & _); [done | |].
    { pose proof (fillMeasure_init w h pixels0 pat sx sy Hpat). subst st0. lia. }
    exists (pixels st'). unfold pixelPos in Hrun. rewrite Hrun.
    split; [done |].
    destruct (fillLoop_preserves w h pixels0 pat sx sy Hlen Hpat
                (fun st => painted pat (pixels st) (pixelPos w sx sy) \/
                           atStart pixels0 sx sy st))
      with (fuel := fuel) (st := st0) (st' := st') as [HP Hstop]; try done.
    + intros st s rest Hinv Hsl _.
      by apply (fillStep_paints w h pixels0 pat sx sy Hlen Hpat Hstart).
    + right. subst st0. split; [done |]. split; [done |]. by left.
    + destruct HP as [HP | (_ & Hf & Hs)]; [done |].
      assert (1 <= maxPixels w h).
      { unfold maxPixels. destruct Hstart. apply Z.div_le_lower_bound; nia. }
      destruct Hstop as [Hs' | Hge]; [| lia].
      rewrite Hs' in Hs. destruct Hs as [? | [? _]]; done.
Qed.

Lemma floodFill_paints_start_pixel_witness :
  exists out,
    floodFill (fillFuel 3 3) 3 3 plainCanvas plainPattern 1 1 = Some out /\
    rgba out (pixelPos 3 1 1) = rgba plainPattern (pixelPos 3 1 1).
Proof.
  apply (floodFill_paints_start_pixel 3 3 plainCanvas plainPattern 1 1 (fillFuel 3 3));
    [reflexivity | reflexivity | split; lia | lia | lia].
Defined.

End FillRowsFacts.

Module JsArrayFacts.

Import JsArray.

Lemma slice_0 {A} (l : list A) e :
  0 <= e -> slice l 0 e = take (Z.to_nat e) l.
Proof.
  intros He. unfold slice. simpl.
  destruct (Z.ltb_spec e 0); [lia |].
  rewrite (Z.min_l 0) by lia. rewrite Z.sub_0_r.
  change (Z.to_nat 0) with 0%nat. rewrite drop_0.
  destruct (Z.le_gt_cases e (Z.of_nat (length l))).
  - by rewrite Z.min_l by lia.
  - rewrite Z.min_r by lia. rewrite Nat2Z.id.
    rewrite (take_ge l (length l)) by lia. rewrite take_ge by lia. done.
Qed.

Lemma sliceFrom_neg {A} (l : list A) n :
  0 < n <= Z.of_nat (length l) ->
  sliceFrom l (- n) = drop (length l - Z.to_nat n) l.
Proof.
  intros Hn. unfold sliceFrom, slice.
  destruct (Z.ltb_spec (- n) 0); [| lia].
  destruct (Z.ltb_spec (Z.of_nat (length l)) 0); [lia |].
  rewrite Z.max_l, Z.min_l by lia.
  replace (Z.to_nat (Z.of_nat (length l) + - n)) with (length l - Z.to_nat n)%nat by lia.
  apply take_ge. rewrite length_drop. lia.
Qed.

End JsArrayFacts.

Module PaintHistoryFacts.

Import TypedArray JsArray JsArrayFacts PaintHistory.

Lemma saveToHistory_cases st c :
  canvas st = Some c ->
  (length (history st) <= 50)%nat ->
  0 <= historyIndex st < Z.of_nat (length (history st)) ->
  exists prev, history st !! Z.to_nat (historyIndex st) = Some prev /\
    saveToHistory st =
      Some (if hasCanvasChanged prev c then recordedState st c else st).
Proof.
  intros Hc Hlen Hidx.
  destruct (lookup_lt_is_Some_2 (history st) (Z.to_nat (historyIndex st)))
    as [prev Hprev]; [lia |].
  exists prev. split; [done |].
  unfold saveToHistory. rewrite Hc, Hprev.
  destruct (Z.leb_spec 0 (historyIndex st)); [| lia].
  destruct (hasCanvasChanged prev c); simpl; [| done].
  rewrite slice_0 by lia. rewrite length_take.
  unfold recordedState.
  destruct (Z.leb_spec 49 (historyIndex st)).
  - destruct (Z.leb_spec 50 (Z.of_nat (Z.to_nat (historyIndex st + 1) `min` length (history st))));
      [| lia].
    rewrite (sliceFrom_neg _ 49) by (rewrite length_take; lia).
    rewrite length_take.
    replace (Z.to_nat (historyIndex st + 1) `min` length (history st) - Z.to_nat 49)%nat
      with 1%nat by lia.
    rewrite <- Hc. do 2 f_equal. lia.
  - destruct (Z.leb_spec 50 (Z.of_nat (Z.to_nat (historyIndex st + 1) `min` length (history st))));
      [lia |].
    by rewrite <- Hc.
Qed.

Lemma recordedState_inv st c :
  (length (history st) <= 50)%nat ->
  0 <= historyIndex st < Z.of_nat (length (history st)) ->
  historyInv (recordedState st c).
Proof.
  intros Hlen Hidx. unfold recordedState, historyInv.
  destruct (Z.leb_spec 49 (historyIndex st)); simpl;
    rewrite ?length_app, ?length_drop, length_take; simpl;
    (split; [eauto |]); lia.
Qed.

Lemma saveToHistory_inv st :
  historyInv st -> exists st', saveToHistory st = Some st' /\ historyInv st'.
Proof.
  intros ([c Hc] & Hlen & Hidx).
  destruct (saveToHistory_cases st c Hc Hlen Hidx) as (prev & _ & ->).
  eexists. split; [done |].
  destruct (hasCanvasChanged prev c); [by apply recordedState_inv |].
  split; [by exists c | done].
Qed.

Lemma showEntry_is_Some st i : is_Some (canvas st) -> is_Some (showEntry st i).
Proof.
  intros [c Hc]. unfold showEntry. rewrite Hc.
  destruct (if i <? 0 then None else history st !! Z.to_nat i); eauto.
Qed.

Lemma undo_inv st : historyInv st -> historyInv (undo st).
Proof.
  intros (Hc & Hlen & Hidx). unfold undo.
  destruct (Z.ltb_spec 0 (historyIndex st)); [| done].
  split; [by apply showEntry_is_Some | simpl; lia].
Qed.

Lemma redo_inv st : historyInv st -> historyInv (redo st).
Proof.
  intros (Hc & Hlen & Hidx). unfold redo.
  destruct (Z.ltb_spec (historyIndex st) (Z.of_nat (length (history st)) - 1)); [| done].
  split; [by apply showEntry_is_Some | simpl; lia].
Qed.

Lemma draw_inv d st :
  historyInv st -> exists st', draw d st = Some st' /\ historyInv st'.
Proof.
  intros ([c Hc] & Hlen & Hidx). unfold draw, paint. rewrite Hc.
  apply saveToHistory_inv. split; [eauto | done].
Qed.

Lemma paint_inv d st : historyInv st -> historyInv (paint d st).
Proof.
  intros ([c Hc] & Hlen & Hidx). unfold paint. rewrite Hc.
  split; [eauto | done].
Qed.

Lemma runOp_inv op st :
  historyInv st -> exists st', runOp op st = Some st' /\ historyInv st'.
Proof.
  intros Hinv. destruct op; simpl.
  - by apply draw_inv.
  - eauto using paint_inv.
  - by apply saveToHistory_inv.
  - eauto using undo_inv.
  - eauto using redo_inv.
Qed.

Lemma runOps_inv ops st :
  historyInv st -> exists st', runOps ops st = Some st' /\ historyInv st'.
Proof.
  revert st. induction ops as [| op ops IH]; intros st Hinv; simpl; [eauto |].
  destruct (runOp_inv op st Hinv) as (st1 & -> & Hinv1). by apply IH.
Qed.

Lemma mount_eq c0 : mount c0 = Some (mkPaintState (Some c0) [c0] 0).
Proof. reflexivity. Qed.

Lemma putImageData_same_size w h c img :
  0 < w -> wfImage w h c -> wfImage w h img -> putImageData c img = img.
Proof.
  intros Hw (Hcw & Hch & Hcl) (Hiw & Hih & Hil).
  unfold putImageData. destruct img as [iw ih idata]; simpl in *. subst iw ih.
  rewrite Hcw, Hch. f_equal.
  apply list_eq. intros i. rewrite list_lookup_imap.
  destruct (data c !! i) as [old |] eqn:Hold; simpl.
  - apply lookup_lt_Some in Hold.
    assert (Hi : 0 <= Z.of_nat i < w * h * 4) by lia.
    pose proof (Z.div_mod (Z.of_nat i) 4 ltac:(lia)) as Hdm4.
    pose proof (Z.mod_pos_bound (Z.of_nat i) 4 ltac:(lia)) as Hm4.
    set (p := Z.of_nat i / 4) in *. set (ch := Z.of_nat i mod 4) in *.
    assert (Hp : 0 <= p < w * h) by lia.
    pose proof (Z.div_mod p w ltac:(lia)) as Hdm.
    pose proof (Z.mod_pos_bound p w Hw) as Hm.
    assert (Hy : 0 <= p / w < h).
    { split; [apply Z.div_pos; lia | apply Z.div_lt_upper_bound; lia]. }
    destruct (Z.ltb_spec (p mod w) w); [| lia].
    destruct (Z.ltb_spec (p / w) h); [| lia]. simpl.
    replace ((p / w * w + p mod w) * 4 + ch) with (Z.of_nat i) by lia.
    unfold get. destruct (Z.ltb_spec (Z.of_nat i) 0); [lia |].
    rewrite Nat2Z.id.
    destruct (lookup_lt_is_Some_2 idata i) as [v Hv]; [lia |].
    by rewrite Hv.
  - apply lookup_ge_None in Hold. symmetry. apply lookup_ge_None. lia.
Qed.






Lemma mount_settled c0 st : mount c0 = Some st -> settled st c0.
Proof.
  rewrite mount_eq. intros [= <-]. repeat split; simpl; lia.
Qed.


(** The same stroke drawn with the mouse never reaches [saveToHistory]:
    [stopDrawing] clears [isDrawing.current] before it tests it. *)
Example mouse_stroke_not_recorded :
  freehandStroke MousePointer [[1; 0; 0; 255]; [2; 0; 0; 255]]
                 (mkPaintState (Some (dot 0)) [dot 0] 0) =
  Some (mkPaintState (Some (dot 2)) [dot 0] 0).
Proof. vm_compute. reflexivity. Qed.

(** C3. From the mounted component, every sequence of drawing (with or
    without its [saveToHistory]), calls of [saveToHistory], undos and redos
    runs without error, and in the state it reaches the history holds at most
    50 snapshots and the cursor satisfies 0 <= index < length. *)
Theorem history_bounded_cursor_valid (c0 : ImageData) (ops : list Op) :
  exists st0 st,
    mount c0 = Some st0 /\ runOps ops st0 = Some st /\
    (length (history st) <= 50)%nat /\
    0 <= historyIndex st < Z.of_nat (length (history st)).
Proof.
  destruct (runOps_inv ops (mkPaintState (Some c0) [c0] 0))
    as (st & Hrun & _ & Hlen & Hidx).
  - split; [eauto | simpl; lia].
  - exists (mkPaintState (Some c0) [c0] 0), st. by rewrite mount_eq.
Qed.

End PaintHistoryFacts.

Module HistoryCursorFacts.

Import TypedArray JsArray PaintHistory HistoryCursor.
Import TypedArrayFacts JsArrayFacts PaintHistoryFacts.

Lemma hasCanvasChanged_sampled prev new :
  width prev = width new -> height prev = height new ->
  (forall k, 0 <= k -> get (data prev) (16 * k) = get (data new) (16 * k)) ->
  hasCanvasChanged prev new = false.
Proof.
  intros Hw Hh Hsame. unfold hasCanvasChanged.
  rewrite Hw, Hh, !Z.eqb_refl. simpl.
  apply not_true_is_false. intros Hex.
  apply existsb_exists in Hex as (k & Hk & Hne).
  apply list_elem_of_In, elem_of_seqZ in Hk.
  rewrite Hsame in Hne by lia.
  unfold strict_eq in Hne. by rewrite bool_decide_eq_true_2 in Hne.
Qed.

Lemma hasCanvasChanged_refl c : hasCanvasChanged c c = false.
Proof. by apply hasCanvasChanged_sampled. Qed.

Lemma recordedState_cursor st c :
  (length (history st) <= 50)%nat ->
  0 <= historyIndex st < Z.of_nat (length (history st)) ->
  canvas (recordedState st c) = Some c /\
  history (recordedState st c) !! Z.to_nat (historyIndex (recordedState st c)) = Some c /\
  historyIndex (recordedState st c) = Z.of_nat (length (history (recordedState st c))) - 1 /\
  last (history (recordedState st c)) = Some c.
Proof.
  intros Hlen Hidx. unfold recordedState.
  destruct (Z.leb_spec 49 (historyIndex st)); simpl.
  - split; [done |]. rewrite last_snoc, length_app, length_drop, length_take. simpl.
    split; [| split; [lia | done]].
    rewrite lookup_app_r by (rewrite length_drop, length_take; lia).
    rewrite length_drop, length_take.
    by replace (Z.to_nat 49 - (Z.to_nat (historyIndex st + 1) `min` length (history st) - 1))%nat
      with 0%nat by lia.
  - split; [done |]. rewrite last_snoc, length_app, length_take. simpl.
    split; [| split; [lia | done]].
    rewrite lookup_app_r by (rewrite length_take; lia).
    rewrite length_take.
    by replace (Z.to_nat (historyIndex st + 1) -
                Z.to_nat (historyIndex st + 1) `min` length (history st))%nat
      with 0%nat by lia.
Qed.

Lemma putImageData_wf w h c img : wfImage w h c -> wfImage w h (putImageData c img).
Proof.
  intros (Hw & Hh & Hl). unfold wfImage, putImageData; simpl.
  by rewrite length_imap.
Qed.

Lemma showEntry_wf w h st c i :
  canvas st = Some c -> wfImage w h c ->
  exists c', showEntry st i = Some c' /\ wfImage w h c'.
Proof.
  intros Hc Hwf. unfold showEntry. rewrite Hc.
  destruct (if i <? 0 then None else history st !! Z.to_nat i) as [e |].
  - eexists. split; [done | by apply putImageData_wf].
  - by exists c.
Qed.

(** X4. [saveToHistory] called again without drawing in between records
    nothing: the second call leaves history and cursor as the first left
    them. *)
Theorem saveToHistory_twice (st : PaintState) :
  historyInv st ->
  exists st', saveToHistory st = Some st' /\ saveToHistory st' = Some st'.
Proof.
  intros ([c Hc] & Hlen & Hidx).
  destruct (saveToHistory_cases st c Hc Hlen Hidx) as (prev & Hprev & Hsave).
  rewrite Hsave. eexists. split; [done |].
  destruct (hasCanvasChanged prev c) eqn:E.
  - destruct (recordedState_cursor st c Hlen Hidx) as (Hc' & Hcur & _).
    destruct (recordedState_inv st c Hlen Hidx) as (_ & Hlen' & Hidx').
    destruct (saveToHistory_cases _ c Hc' Hlen' Hidx') as (prev' & Hprev' & ->).
    rewrite Hcur in Hprev'. injection Hprev' as <-.
    by rewrite hasCanvasChanged_refl.
  - done.
Qed.

Lemma saveToHistory_twice_witness :
  exists st', saveToHistory twoEntries = Some st' /\ saveToHistory st' = Some st'.
Proof.
  apply (saveToHistory_twice twoEntries).
  split; [by eexists | split; simpl; lia].
Defined.

(** X5. When [saveToHistory] records a change, the states that could be
    redone are gone: the recorded image is the last entry, the cursor points at
    it, and [redo] does nothing. *)
Theorem saveToHistory_discards_redo (st : PaintState) (c prev : ImageData) :
  historyInv st ->
  canvas st = Some c ->
  history st !! Z.to_nat (historyIndex st) = Some prev ->
  hasCanvasChanged prev c = true ->
  exists st',
    saveToHistory st = Some st' /\
    last (history st') = Some c /\
    historyIndex st' = Z.of_nat (length (history st')) - 1 /\
    Z.of_nat (length (history st')) <= historyIndex st + 2 /\
    redo st' = st'.
Proof.
  intros (_ & Hlen & Hidx) Hc Hprev Hchanged.
  destruct (saveToHistory_cases st c Hc Hlen Hidx) as (prev' & Hprev' & Hsave).
  rewrite Hprev in Hprev'. injection Hprev' as <-.
  rewrite Hchanged in Hsave.
  destruct (recordedState_cursor st c Hlen Hidx) as (_ & _ & Hcur & Hlast).
  exists (recordedState st c). split; [done |]. split; [done |]. split; [done |].
  split.
  - unfold recordedState.
    destruct (Z.leb_spec 49 (historyIndex st)); simpl;
      rewrite ?length_app, ?length_drop, length_take; simpl; lia.
  - unfold redo. rewrite Hcur.
    by destruct (Z.ltb_spec (Z.of_nat (length (history (recordedState st c))) - 1)
                            (Z.of_nat (length (history (recordedState st c))) - 1));
      [lia |].
Qed.

Lemma saveToHistory_discards_redo_witness :
  exists st',
    saveToHistory (mkPaintState (Some (dot 2)) [dot 0; dot 1] 0) = Some st' /\
    last (history st') = Some (dot 2) /\
    historyIndex st' = Z.of_nat (length (history st')) - 1 /\
    Z.of_nat (length (history st')) <= 0 + 2 /\
    redo st' = st'.
Proof.
  apply (saveToHistory_discards_redo
           (mkPaintState (Some (dot 2)) [dot 0; dot 1] 0) (dot 2) (dot 0)).
  - split; [by eexists | split; simpl; lia].
  - reflexivity.
  - reflexivity.
  - reflexivity.
Defined.

(** X6. [redo] takes back an [undo]: when the canvas shows the entry under
    the cursor and the cursor is not at the first entry, undo followed by redo
    gives the state before the undo, canvas included. *)
Theorem redo_undo (w h : Z) (st : PaintState) (c : ImageData) :
  0 < w -> wfImage w h c ->
  settled st c ->
  0 < historyIndex st ->
  redo (undo st) = st.
Proof.
  intros Hw Hwf (Hc & Hcur & Hlen & Hidx) Hpos.
  unfold undo. destruct (Z.ltb_spec 0 (historyIndex st)); [| lia].
  destruct (showEntry_wf w h st c (historyIndex st - 1) Hc Hwf) as (c1 & Hshow & Hwf1).
  rewrite Hshow. unfold redo; simpl.
  destruct (Z.ltb_spec (historyIndex st - 1) (Z.of_nat (length (history st)) - 1));
    [| lia].
  replace (historyIndex st - 1 + 1) with (historyIndex st) by lia.
  unfold showEntry; simpl.
  destruct (Z.ltb_spec (historyIndex st) 0); [lia |].
  rewrite Hcur, (putImageData_same_size w h c1 c Hw Hwf1 Hwf), <- Hc.
  by destruct st.
Qed.

Lemma redo_undo_witness : redo (undo twoEntries) = twoEntries.
Proof.
  apply (redo_undo 1 1 twoEntries (dot 1)).
  - lia.
  - repeat split.
  - repeat split; simpl; lia.
  - simpl; lia.
Defined.

(** X7. [undo] takes back a [redo]: when the canvas shows the entry under
    the cursor and a later entry exists, redo followed by undo gives the state
    before the redo. *)
Theorem undo_redo (w h : Z) (st : PaintState) (c : ImageData) :
  0 < w -> wfImage w h c ->
  settled st c ->
  historyIndex st < Z.of_nat (length (history st)) - 1 ->
  undo (redo st) = st.
Proof.
  intros Hw Hwf (Hc & Hcur & Hlen & Hidx) Hlast.
  unfold redo.
  destruct (Z.ltb_spec (historyIndex st) (Z.of_nat (length (history st)) - 1)); [| lia].
  destruct (showEntry_wf w h st c (historyIndex st + 1) Hc Hwf) as (c1 & Hshow & Hwf1).
  rewrite Hshow. unfold undo; simpl.
  destruct (Z.ltb_spec 0 (historyIndex st + 1)); [| lia].
  replace (historyIndex st + 1 - 1) with (historyIndex st) by lia.
  unfold showEntry; simpl.
  destruct (Z.ltb_spec (historyIndex st) 0); [lia |].
  rewrite Hcur, (putImageData_same_size w h c1 c Hw Hwf1 Hwf), <- Hc.
  by destruct st.
Qed.

Lemma undo_redo_witness : undo (redo oneUndone) = oneUndone.
Proof.
  apply (undo_redo 1 1 oneUndone (dot 0)).
  - lia.
  - repeat split.
  - repeat split; simpl; lia.
  - simpl; lia.
Defined.

(** X8. [hasCanvasChanged] compares every sixteenth byte only (the red
    channel of every fourth pixel). A drawing operation that leaves those bytes
    as they are in the entry under the cursor is not recorded: the canvas shows
    the new pixels, the history and the cursor stay as they were. *)
Theorem draw_unsampled_change_not_recorded (st : PaintState) (c : ImageData)
    (d : list Z) :
  settled st c ->
  (forall k, 0 <= k -> get d (16 * k) = get (data c) (16 * k)) ->
  draw d st =
    Some (mkPaintState (Some (mkImageData (width c) (height c) d))
                       (history st) (historyIndex st)).
Proof.
  intros (Hc & Hcur & Hlen & Hidx) Hsame.
  unfold draw, paint. rewrite Hc.
  unfold saveToHistory; simpl.
  destruct (Z.leb_spec 0 (historyIndex st)); [| lia].
  rewrite Hcur.
  rewrite (hasCanvasChanged_sampled c (mkImageData (width c) (height c) d));
    [done | done | done |].
  intros k Hk. simpl. symmetry. by apply Hsame.
Qed.

Lemma draw_unsampled_change_not_recorded_witness :
  draw secondDotData (mkPaintState (Some twoDots) [twoDots] 0) =
    Some (mkPaintState (Some (mkImageData (width twoDots) (height twoDots) secondDotData))
                       (history (mkPaintState (Some twoDots) [twoDots] 0))
                       (historyIndex (mkPaintState (Some twoDots) [twoDots] 0))).
Proof.
  apply (draw_unsampled_change_not_recorded
           (mkPaintState (Some twoDots) [twoDots] 0) twoDots secondDotData).
  - repeat split; simpl; lia.
  - intros k Hk. unfold get.
    destruct (Z.ltb_spec (16 * k) 0); [done |].
    destruct (decide (k = 0)) as [-> | Hne]; [done |].
    rewrite !lookup_ge_None_2; [done | simpl; lia | simpl; lia].
Defined.

Lemma settled_inv st c : settled st c -> historyInv st.
Proof. intros (Hc & _ & Hlen & Hidx). split; [by eexists | done]. Qed.

Lemma saveToHistory_settled st c : settled st c -> saveToHistory st = Some st.
Proof.
  intros (Hc & Hcur & Hlen & Hidx).
  destruct (saveToHistory_cases st c Hc Hlen Hidx) as (prev & Hprev & ->).
  rewrite Hcur in Hprev. injection Hprev as <-.
  by rewrite hasCanvasChanged_refl.
Qed.

(** A drawing operation that is seen, below the capacity of the history:
    its image becomes the entry after the cursor, and the cursor moves
    there. *)
Lemma draw_recorded st c d :
  settled st c ->
  hasCanvasChanged c (mkImageData (width c) (height c) d) = true ->
  historyIndex st < 49 ->
  draw d st =
    Some (mkPaintState (Some (mkImageData (width c) (height c) d))
            (take (Z.to_nat (historyIndex st + 1)) (history st) ++
             [mkImageData (width c) (height c) d])
            (historyIndex st + 1)) /\
  settled (mkPaintState (Some (mkImageData (width c) (height c) d))
             (take (Z.to_nat (historyIndex st + 1)) (history st) ++
              [mkImageData (width c) (height c) d])
             (historyIndex st + 1))
          (mkImageData (width c) (height c) d).
Proof.
  intros (Hc & Hcur & Hlen & Hidx) Hchanged Hcap.
  set (c1 := mkImageData (width c) (height c) d) in *.
  assert (Hp : paint d st = mkPaintState (Some c1) (history st) (historyIndex st)).
  { unfold paint. by rewrite Hc. }
  destruct (saveToHistory_cases (paint d st) c1) as (prev & Hprev & Hsave);
    try (rewrite Hp; simpl; done).
  rewrite Hp in Hprev. simpl in Hprev. rewrite Hcur in Hprev. injection Hprev as <-.
  rewrite Hchanged in Hsave.
  assert (Hrec : recordedState (paint d st) c1 =
                 mkPaintState (Some c1)
                   (take (Z.to_nat (historyIndex st + 1)) (history st) ++ [c1])
                   (historyIndex st + 1)).
  { unfold recordedState. rewrite Hp. simpl.
    by destruct (Z.leb_spec 49 (historyIndex st)); [lia |]. }
  unfold draw. rewrite Hsave, Hrec. split; [done |].
  split; [done |]. simpl. rewrite length_app, length_take. simpl.
  split; [| lia].
  rewrite lookup_app_r by (rewrite length_take; lia).
  rewrite length_take.
  by replace (Z.to_nat (historyIndex st + 1) -
              Z.to_nat (historyIndex st + 1) `min` length (history st))%nat
    with 0%nat by lia.
Qed.

Lemma touch_moves_recorded moves st c :
  settled st c ->
  allRecorded c (strokeImages (width c) (height c) moves) = true ->
  historyIndex st + Z.of_nat (length moves) <= 49 ->
  historyIndex st = Z.of_nat (length (history st)) - 1 ->
  exists st' c',
    foldl (fun acc d => acc ≫= drawMove TouchPointer d) (Some st) moves = Some st' /\
    settled st' c' /\
    historyIndex st' = historyIndex st + Z.of_nat (length moves) /\
    history st' = history st ++ strokeImages (width c) (height c) moves.
Proof.
  revert st c. induction moves as [| d moves IH]; intros st c Hst Hall Hcap Hend.
  - exists st, c. simpl. split; [done |]. split; [done |]. split; [lia |].
    by rewrite app_nil_r.
  - simpl in Hall. apply andb_true_iff in Hall as [Hd Hall].
    destruct (draw_recorded st c d Hst Hd) as [Hdraw Hst1]; [simpl in Hcap; lia |].
    rewrite (take_ge (history st)) in Hdraw, Hst1 by lia.
    set (c1 := mkImageData (width c) (height c) d) in *.
    set (st1 := mkPaintState (Some c1) (history st ++ [c1]) (historyIndex st + 1)) in *.
    destruct (IH st1 c1 Hst1 Hall) as (st' & c' & Hrun & Hst' & Hidx' & Hhist').
    { subst st1. simpl in *. lia. }
    { subst st1. simpl. rewrite length_app. simpl. lia. }
    exists st', c'. simpl foldl. change (drawMove TouchPointer d st) with (draw d st).
    rewrite Hdraw. split; [exact Hrun |]. split; [done |].
    split; [subst st1; simpl in *; lia |].
    rewrite Hhist'. subst st1 c1. simpl. by rewrite <- app_assoc.
Qed.

(** X28. A free-hand stroke made with the mouse is never saved to the
    history: whatever the moves, when the button is released the history and
    the cursor are as before the stroke, while the canvas shows the stroke. *)
Theorem mouse_stroke_never_recorded (moves : list (list Z)) (st : PaintState)
    (c : ImageData) :
  canvas st = Some c ->
  freehandStroke MousePointer moves st =
    Some (mkPaintState
            (Some (mkImageData (width c) (height c) (default (data c) (last moves))))
            (history st) (historyIndex st)).
Proof.
  intros Hc. unfold freehandStroke.
  assert (Hfold : forall ms st0 d0,
            canvas st0 = Some (mkImageData (width c) (height c) d0) ->
            foldl (fun acc d => acc ≫= drawMove MousePointer d) (Some st0) ms =
              Some (mkPaintState
                      (Some (mkImageData (width c) (height c) (default d0 (last ms))))
                      (history st0) (historyIndex st0))).
  { induction ms as [| d ms IH]; intros st0 d0 Hc0; simpl.
    - rewrite <- Hc0. by destruct st0.
    - change (drawMove MousePointer d st0) with (Some (paint d st0)).
      unfold paint. rewrite Hc0. simpl.
      rewrite (IH _ d); [| done]. simpl. do 3 f_equal.
      destruct ms as [| d' ms]; [done |]. rewrite last_cons_cons.
      destruct (last (d' :: ms)) eqn:E; [done |]. by apply last_None in E. }
  rewrite (Hfold moves st (data c)); [done |]. rewrite Hc. by destruct c.
Qed.

Lemma mouse_stroke_never_recorded_witness :
  freehandStroke MousePointer [[1; 0; 0; 255]; [2; 0; 0; 255]] twoEntries =
    Some (mkPaintState
            (Some (mkImageData (width (dot 1)) (height (dot 1))
                     (default (data (dot 1)) (last [[1; 0; 0; 255]; [2; 0; 0; 255]]))))
            (history twoEntries) (historyIndex twoEntries)).
Proof.
  apply (mouse_stroke_never_recorded [[1; 0; 0; 255]; [2; 0; 0; 255]] twoEntries (dot 1)).
  reflexivity.
Defined.

(** X29. A free-hand stroke made by touch is saved at every move: when each
    move changes a compared byte and the history does not reach its capacity,
    a stroke of n moves (n at least 1) discards the redo states and appends n
    entries, one per move, and leaves the cursor at the last of them; lifting
    the finger adds nothing. *)
Theorem touch_stroke_records_every_move (moves : list (list Z)) (st : PaintState)
    (c : ImageData) :
  settled st c ->
  moves <> [] ->
  allRecorded c (strokeImages (width c) (height c) moves) = true ->
  historyIndex st + Z.of_nat (length moves) <= 49 ->
  exists st',
    freehandStroke TouchPointer moves st = Some st' /\
    historyIndex st' = historyIndex st + Z.of_nat (length moves) /\
    history st' =
      take (Z.to_nat (historyIndex st + 1)) (history st) ++
      strokeImages (width c) (height c) moves.
Proof.
  intros Hst Hne Hall Hcap.
  destruct moves as [| d moves]; [done |].
  simpl in Hall. apply andb_true_iff in Hall as [Hd Hall].
  destruct (draw_recorded st c d Hst Hd) as [Hdraw Hst1]; [simpl in Hcap; lia |].
  set (c1 := mkImageData (width c) (height c) d) in *.
  set (st1 := mkPaintState (Some c1)
                (take (Z.to_nat (historyIndex st + 1)) (history st) ++ [c1])
                (historyIndex st + 1)) in *.
  pose proof Hst as (_ & _ & Hlen & Hidx).
  destruct (touch_moves_recorded moves st1 c1 Hst1 Hall)
    as (st' & c' & Hrun & Hst' & Hidx' & Hhist').
  { subst st1. simpl in *. lia. }
  { subst st1. simpl. rewrite length_app, length_take. simpl. lia. }
  exists st'. unfold freehandStroke. simpl foldl.
  change (drawMove TouchPointer d st) with (draw d st).
  rewrite Hdraw, Hrun. simpl.
  unfold stopDrawing. simpl. rewrite (saveToHistory_settled st' c' Hst'). simpl.
  split; [done |]. split; [subst st1; simpl in *; lia |].
  rewrite Hhist'. subst st1 c1. simpl. by rewrite <- app_assoc.
Qed.

Lemma touch_stroke_records_every_move_witness :
  exists st',
    freehandStroke TouchPointer [[2; 0; 0; 255]; [3; 0; 0; 255]] oneUndone = Some st' /\
    historyIndex st' =
      historyIndex oneUndone + Z.of_nat (length [[2; 0; 0; 255]; [3; 0; 0; 255]]) /\
    history st' =
      take (Z.to_nat (historyIndex oneUndone + 1)) (history oneUndone) ++
      strokeImages (width (dot 0)) (height (dot 0)) [[2; 0; 0; 255]; [3; 0; 0; 255]].
Proof.
  apply (touch_stroke_records_every_move [[2; 0; 0; 255]; [3; 0; 0; 255]]
           oneUndone (dot 0)).
  - repeat split; simpl; lia.
  - discriminate.
  - reflexivity.
  - simpl; lia.
Defined.

(** X30. A full history forgets its oldest entry: when 50 images are stored,
    the cursor is at the last one and the canvas has changed,
    [saveToHistory] drops the first entry, appends the canvas, and leaves 50
    entries with the cursor at the last. *)
Theorem saveToHistory_full_drops_oldest (st : PaintState) (c prev : ImageData) :
  canvas st = Some c ->
  length (history st) = 50%nat ->
  historyIndex st = 49 ->
  history st !! 49%nat = Some prev ->
  hasCanvasChanged prev c = true ->
  saveToHistory st =
    Some (mkPaintState (Some c) (drop 1 (history st) ++ [c]) 49) /\
  length (drop 1 (history st) ++ [c]) = 50%nat.
Proof.
  intros Hc Hlen Hidx Hprev Hchanged.
  destruct (saveToHistory_cases st c Hc) as (prev' & Hprev' & ->); [lia | lia |].
  rewrite Hidx in Hprev'. change (Z.to_nat 49) with 49%nat in Hprev'.
  rewrite Hprev in Hprev'. injection Hprev' as <-. rewrite Hchanged.
  unfold recordedState. rewrite Hidx. simpl.
  rewrite take_ge by lia. split; [done |].
  rewrite length_app, length_drop, Hlen. done.
Qed.

Lemma saveToHistory_full_drops_oldest_witness :
  saveToHistory (mkPaintState (Some (dot 1)) (replicate 50 (dot 0)) 49) =
    Some (mkPaintState (Some (dot 1))
            (drop 1 (history (mkPaintState (Some (dot 1)) (replicate 50 (dot 0)) 49)) ++
             [dot 1]) 49) /\
  length (drop 1 (history (mkPaintState (Some (dot 1)) (replicate 50 (dot 0)) 49)) ++
          [dot 1]) = 50%nat.
Proof.
  apply (saveToHistory_full_drops_oldest
           (mkPaintState (Some (dot 1)) (replicate 50 (dot 0)) 49) (dot 1) (dot 0));
    reflexivity.
Defined.

End HistoryCursorFacts.

Module Base64Facts.

Import Base64.

Lemma list_ind3 {A} (P : list A -> Prop) :
  P [] -> (forall a, P [a]) -> (forall a b, P [a; b]) ->
  (forall a b c l, P l -> P (a :: b :: c :: l)) ->
  forall l, P l.
Proof.
  intros H0 H1 H2 H3 l.
  assert (H : P l /\ (forall a, P (a :: l)) /\ (forall a b, P (a :: b :: l))).
  { induction l as [| x l (IH0 & IH1 & IH2)]; [by repeat split |].
    split; [apply IH1 |]. split; [intros; apply IH2 |]. intros a b. by apply H3. }
  apply H.
Qed.

Lemma alphabet_ok :
  forallb (fun i => bool_decide (dec (enc i) = Some i) &&
                    negb (enc i =? 61) && negb (isAsciiWhitespace (enc i)))
          (seqZ 0 64) = true.
Proof. vm_compute. reflexivity. Qed.

Lemma enc_sextet i :
  0 <= i < 64 ->
  dec (enc i) = Some i /\ enc i <> 61 /\ isAsciiWhitespace (enc i) = false.
Proof.
  intros Hi. pose proof alphabet_ok as H.
  rewrite forallb_forall in H. specialize (H i).
  rewrite !andb_true_iff, bool_decide_eq_true, !negb_true_iff, Z.eqb_neq in H.
  destruct H as [[? ?] ?]; [| done].
  apply list_elem_of_In, elem_of_seqZ. lia.
Qed.

Local Ltac divmod := Z.div_mod_to_equations; lia.

Lemma toSextets_range s :
  Forall isByte s -> Forall (fun i => 0 <= i < 64) (toSextets s).
Proof.
  unfold isByte. induction s as [| a | a b | a b c l IH] using list_ind3; intros Hs.
  - constructor.
  - apply Forall_cons in Hs as [Ha _]. simpl.
    repeat apply Forall_cons_2; [divmod | divmod | constructor].
  - apply Forall_cons in Hs as [Ha Hs]. apply Forall_cons in Hs as [Hb _]. simpl.
    repeat apply Forall_cons_2; [divmod | divmod | divmod | constructor].
  - apply Forall_cons in Hs as [Ha Hs]. apply Forall_cons in Hs as [Hb Hs].
    apply Forall_cons in Hs as [Hc Hs]. simpl.
    repeat apply Forall_cons_2; [divmod | divmod | divmod | divmod | by apply IH].
Qed.

Lemma fromSextets_toSextets s :
  Forall isByte s -> fromSextets (toSextets s) = s.
Proof.
  unfold isByte. induction s as [| a | a b | a b c l IH] using list_ind3; intros Hs.
  - done.
  - apply Forall_cons in Hs as [Ha _]. simpl. f_equal. divmod.
  - apply Forall_cons in Hs as [Ha Hs]. apply Forall_cons in Hs as [Hb _]. simpl.
    f_equal; [divmod | f_equal; divmod].
  - apply Forall_cons in Hs as [Ha Hs]. apply Forall_cons in Hs as [Hb Hs].
    apply Forall_cons in Hs as [Hc Hs].
    change (toSextets (a :: b :: c :: l)) with
      (let n := a * 65536 + b * 256 + c in
       n / 262144 :: n / 4096 mod 64 :: n / 64 mod 64 :: n mod 64 :: toSextets l).
    cbv zeta.
    change (fromSextets (?s0 :: ?s1 :: ?s2 :: ?s3 :: ?r)) with
      (let n := s0 * 262144 + s1 * 4096 + s2 * 64 + s3 in
       n / 65536 :: n / 256 mod 256 :: n mod 256 :: fromSextets r).
    cbv zeta. rewrite IH by done.
    f_equal; [divmod | f_equal; [divmod | f_equal; divmod]].
Qed.

Lemma mapM_dec_enc sx :
  Forall (fun i => 0 <= i < 64) sx -> mapM dec (map enc sx) = Some sx.
Proof.
  intros Hsx. apply mapM_Some_2.
  induction Hsx as [| i sx Hi _ IH]; simpl; constructor; [| done].
  by apply enc_sextet.
Qed.

Lemma filter_all {A} (P : A -> Prop) `{forall x, Decision (P x)} (l : list A) :
  Forall P l -> filter P l = l.
Proof.
  induction 1 as [| x l Hx _ IH]; [done |].
  rewrite filter_cons_True by done. by rewrite IH.
Qed.

(** Lengths of the sextets and of the padding, by the length modulo 3. *)
Lemma toSextets_length s :
  (length s mod 3 = 0 /\ padding (length s) = 0 /\ length (toSextets s) mod 4 = 0 \/
   length s mod 3 = 1 /\ padding (length s) = 2 /\ length (toSextets s) mod 4 = 2 \/
   length s mod 3 = 2 /\ padding (length s) = 1 /\ length (toSextets s) mod 4 = 3)%nat.
Proof.
  induction s as [| a | a b | a b c l IH] using list_ind3.
  - left. done.
  - right. left. done.
  - right. right. done.
  - assert (Hl : (length (a :: b :: c :: l) = 3 + length l)%nat) by done.
    assert (Hs : (length (toSextets (a :: b :: c :: l)) = 4 + length (toSextets l))%nat)
      by done.
    rewrite Hl, Hs. unfold padding in *.
    replace (3 + length l)%nat with (length l + 1 * 3)%nat by lia.
    replace (4 + length (toSextets l))%nat with (length (toSextets l) + 1 * 4)%nat by lia.
    rewrite !Nat.Div0.mod_add. exact IH.
Qed.

Lemma stripPadding_encoded sx (p : nat) :
  Forall (fun c => c <> 61) sx ->
  (p <= 2)%nat -> (p = 0 \/ sx <> [])%nat ->
  ((length sx + p) mod 4 = 0)%nat ->
  stripPadding (sx ++ replicate p 61) = sx.
Proof.
  intros Hsx Hp Hne Hlen. unfold stripPadding.
  rewrite length_app, length_replicate, Hlen. simpl.
  assert (Hlast : match reverse sx with
                  | c :: _ => c <> 61
                  | [] => True
                  end).
  { destruct (reverse sx) as [| c r] eqn:Hr; [done |].
    assert (Hin : c ∈ reverse sx) by (rewrite Hr; left).
    rewrite elem_of_reverse in Hin.
    by apply (proj1 (Forall_forall _ _) Hsx). }
  destruct p as [| [| [| p]]]; [| | | lia]; simpl.
  - rewrite app_nil_r. destruct (reverse sx) as [| c r] eqn:Hr; [done |].
    destruct (Z.eqb_spec c 61); done.
  - rewrite reverse_snoc. simpl.
    destruct (reverse sx) as [| c r] eqn:Hr.
    + by rewrite <- (reverse_involutive sx), Hr.
    + destruct (Z.eqb_spec c 61); [done |].
      by rewrite <- Hr, reverse_involutive.
  - rewrite (reverse_app sx [61; 61]). simpl.
    by rewrite reverse_involutive.
Qed.

Lemma atob_encoded s :
  Forall isByte s ->
  atob (map enc (toSextets s) ++ replicate (padding (length s)) 61) = Some s.
Proof.
  intros Hs. unfold atob.
  pose proof (toSextets_range s Hs) as Hrange.
  assert (Hne61 : Forall (fun c => c <> 61) (map enc (toSextets s))).
  { apply Forall_map. eapply Forall_impl; [exact Hrange |].
    intros i Hi. by apply enc_sextet. }
  rewrite filter_all.
  2:{ apply Forall_app. split.
      - apply Forall_map. eapply Forall_impl; [exact Hrange |].
        intros i Hi. simpl. destruct (enc_sextet i Hi) as (_ & _ & ->). done.
      - apply Forall_forall. intros c [-> _]%elem_of_replicate. done. }
  pose proof (toSextets_length s) as Hl.
  rewrite stripPadding_encoded; try done.
  - rewrite length_map.
    destruct (length (toSextets s) mod 4 =? 1)%nat eqn:E.
    + apply Nat.eqb_eq in E. lia.
    + rewrite mapM_dec_enc by done. simpl. by rewrite fromSextets_toSextets.
  - lia.
  - destruct (toSextets s) eqn:E; [| by right].
    left. simpl in Hl. lia.
  - rewrite length_map. destruct Hl as [(_ & -> & Hm) | [(_ & -> & Hm) | (_ & -> & Hm)]].
    + by rewrite Nat.add_0_r.
    + rewrite Nat.Div0.add_mod, Hm. done.
    + rewrite Nat.Div0.add_mod, Hm. done.
Qed.

Lemma bytesOfBinary_prefix binary (k : nat) :
  (k <= length binary)%nat ->
  fold_left (fun bytes i => setUint8 bytes i (charCodeAt binary i))
            (seqZ 0 (Z.of_nat k)) (replicate (length binary) 0) =
  map (fun c => c mod 256) (take k binary) ++ replicate (length binary - k) 0.
Proof.
  induction k as [| k IH]; intros Hk.
  - simpl. by rewrite Nat.sub_0_r.
  - rewrite seqZ_S, fold_left_app, IH by lia. simpl.
    destruct (lookup_lt_is_Some_2 binary k) as [x Hx]; [lia |].
    unfold setUint8, charCodeAt. rewrite Z.add_0_l.
    destruct (Z.ltb_spec (Z.of_nat k) 0); [lia |].
    rewrite Nat2Z.id, Hx. simpl.
    rewrite insert_app_r_alt by (rewrite length_map, length_take; lia).
    rewrite length_map, length_take.
    replace (k - k `min` length binary)%nat with 0%nat by lia.
    replace (length binary - k)%nat with (S (length binary - S k)) by lia.
    simpl. rewrite (take_S_r _ _ x) by done.
    rewrite map_app. simpl. by rewrite <- app_assoc.
Qed.

Lemma bytesOfBinary_map binary :
  bytesOfBinary binary = map (fun c => c mod 256) binary.
Proof.
  unfold bytesOfBinary. rewrite bytesOfBinary_prefix by lia.
  rewrite Nat.sub_diag, firstn_all. simpl. apply app_nil_r.
Qed.

Lemma map_mod_bytes m s :
  256 <= m -> Forall isByte s -> map (fun c => c mod m) s = s.
Proof.
  intros Hm. induction 1 as [| b s Hb _ IH]; [done |].
  simpl. rewrite IH. f_equal. unfold isByte in Hb. apply Z.mod_small. lia.
Qed.

(** A byte array that the engine can spread into one call is encoded, and
    decoding the result as [playSound] and [createAudioFromBase64] do
    ([atob], then [charCodeAt] into a [Uint8Array]) gives back exactly the
    bytes. *)
Lemma base64_audio_roundtrip (maxArguments : nat) (bytes : list Z) :
  Forall isByte bytes ->
  (length bytes <= maxArguments)%nat ->
  exists base64Data,
    base64FromBlob maxArguments bytes = Some base64Data /\
    createAudioFromBase64 base64Data = Some bytes.
Proof.
  intros Hb Hlen. unfold base64FromBlob, fromCharCode, btoa.
  rewrite (proj2 (Nat.leb_le _ _) Hlen).
  rewrite (map_mod_bytes 65536) by (done || lia).
  assert (Hok : forallb (fun c => (0 <=? c) && (c <? 256)) bytes = true).
  { apply forallb_forall. intros b Hin%list_elem_of_In.
    pose proof (proj1 (Forall_forall _ _) Hb b Hin) as [? ?].
    apply andb_true_iff. split; [by apply Z.leb_le | by apply Z.ltb_lt]. }
  rewrite Hok. eexists. split; [done |].
  unfold createAudioFromBase64. rewrite atob_encoded by done. simpl.
  by rewrite bytesOfBinary_map, (map_mod_bytes 256).
Qed.

Lemma base64_audio_roundtrip_witness :
  exists base64Data,
    base64FromBlob 4096 [26; 69; 223; 163; 0; 255; 128] = Some base64Data /\
    createAudioFromBase64 base64Data = Some [26; 69; 223; 163; 0; 255; 128].
Proof.
  apply (base64_audio_roundtrip 4096 [26; 69; 223; 163; 0; 255; 128]).
  - repeat constructor; unfold isByte; lia.
  - simpl. lia.
Defined.

(** C9. The encoding does not round-trip for every byte array: whatever the
    number of arguments the engine accepts in one call, [base64FromBlob]
    raises on the byte array that is one byte longer (here of zero bytes),
    so that no Base64 text is produced and nothing can be decoded back. *)
Theorem base64FromBlob_long_recording_fails (maxArguments : nat) :
  Forall isByte (replicate (S maxArguments) 0) /\
  base64FromBlob maxArguments (replicate (S maxArguments) 0) = None.
Proof.
  split.
  - apply Forall_replicate. unfold isByte. lia.
  - unfold base64FromBlob. rewrite length_replicate.
    by rewrite (proj2 (Nat.leb_gt _ _) (Nat.lt_succ_diag_r maxArguments)).
Qed.

Lemma toSextets_padded_length s :
  (length (toSextets s) + padding (length s) = 4 * ((length s + 2) / 3))%nat.
Proof.
  induction s as [| a | a b | a b c l IH] using list_ind3; try done.
  assert (Hl : (length (a :: b :: c :: l) = length l + 1 * 3)%nat) by (simpl; lia).
  assert (Hs : (length (toSextets (a :: b :: c :: l)) = 4 + length (toSextets l))%nat)
    by done.
  rewrite Hl, Hs. unfold padding in *.
  rewrite Nat.Div0.mod_add.
  replace (length l + 1 * 3 + 2)%nat with (length l + 2 + 1 * 3)%nat by lia.
  rewrite Nat.div_add by lia. lia.
Qed.

(** X25. The base64 text of a recording of n bytes, n no more than the
    number of arguments the engine accepts in one call, has 4 * ceil(n / 3)
    code units, each a letter, a digit, [+], [/] or the padding sign [=]. *)
Theorem base64FromBlob_length (maxArguments : nat) (bytes : list Z) :
  Forall isByte bytes ->
  (length bytes <= maxArguments)%nat ->
  exists base64Data,
    base64FromBlob maxArguments bytes = Some base64Data /\
    length base64Data = (4 * ((length bytes + 2) / 3))%nat /\
    Forall (fun c => is_Some (dec c) \/ c = 61) base64Data.
Proof.
  intros Hb Hlen. unfold base64FromBlob, fromCharCode, btoa.
  rewrite (proj2 (Nat.leb_le _ _) Hlen).
  rewrite (map_mod_bytes 65536) by (done || lia).
  assert (Hok : forallb (fun c => (0 <=? c) && (c <? 256)) bytes = true).
  { apply forallb_forall. intros b Hin%list_elem_of_In.
    pose proof (proj1 (Forall_forall _ _) Hb b Hin) as [? ?].
    apply andb_true_iff. split; [by apply Z.leb_le | by apply Z.ltb_lt]. }
  rewrite Hok. eexists. split; [done |]. split.
  - rewrite length_app, length_map, length_replicate. apply toSextets_padded_length.
  - apply Forall_app. split.
    + apply Forall_fmap. apply (Forall_impl _ _ _ (toSextets_range bytes Hb)).
      intros i Hi. left. simpl. destruct (enc_sextet i Hi) as (Hd & _).
      rewrite Hd. by eexists.
    + apply Forall_forall. intros c Hc. apply elem_of_replicate in Hc as [-> _].
      by right.
Qed.

Lemma base64FromBlob_length_witness :
  exists base64Data,
    base64FromBlob 4096 [26; 69; 223; 163; 0; 255; 128] = Some base64Data /\
    length base64Data = (4 * ((length [26; 69; 223; 163; 0; 255; 128] + 2) / 3))%nat /\
    Forall (fun c => is_Some (dec c) \/ c = 61) base64Data.
Proof.
  apply (base64FromBlob_length 4096 [26; 69; 223; 163; 0; 255; 128]).
  - repeat constructor; unfold isByte; lia.
  - simpl. lia.
Defined.

End Base64Facts.

Module SoundboardFacts.

Import Js Soundboard.

Local Open Scope string_scope.
Local Open Scope list_scope.

Lemma boards_saveBoards newBoards st :
  length (boards (saveBoards newBoards st)) = length newBoards.
Proof. unfold saveBoards. simpl. apply length_map. Qed.

Lemma boards_syncActiveBoard st : boards (syncActiveBoard st) = boards st.
Proof. unfold syncActiveBoard. by destruct (find _ _). Qed.

Lemma length_mapActiveSlots f st :
  length (mapActiveSlots f st) = length (boards st).
Proof. unfold mapActiveSlots. apply length_map. Qed.

(** [deleteCurrentBoard] does nothing to a list of one board. *)
Lemma deleteCurrentBoard_last_board st :
  (length (boards st) <= 1)%nat -> deleteCurrentBoard st = (st, Normal).
Proof.
  intros H. unfold deleteCurrentBoard.
  by destruct (Nat.leb_spec (length (boards st)) 1); [| lia].
Qed.

(** [deleteCurrentBoard] leaves a board when some board does not carry the
    active id. *)
Lemma deleteCurrentBoard_keeps_other st b :
  b ∈ boards st -> id b <> activeBoardId st ->
  boards (fst (deleteCurrentBoard st)) <> [].
Proof.
  intros Hin Hne. unfold deleteCurrentBoard.
  destruct (Nat.leb_spec (length (boards st)) 1); simpl.
  - intros E. rewrite E in Hin. by apply elem_of_nil in Hin.
  - assert (Hb : b ∈ filter (fun b => negb (String.eqb (id b) (activeBoardId st)))
                           (boards st)).
    { apply list_elem_of_filter. split; [| done].
      apply Is_true_true, negb_true_iff, String.eqb_neq. done. }
    destruct (filter _ _) as [| b0 rest] eqn:E; [by apply elem_of_nil in Hb |].
    simpl. by intros E'%(f_equal length).
Qed.

Local Ltac len_tac :=
  cbn [fst boards setActiveBoardId setIsEditingTitle setPlaybackStates
       consoleError];
  rewrite ?boards_saveBoards, ?length_mapActiveSlots, ?length_map, ?length_app;
  simpl; lia.

Section Events.

Variable Text : Type.
Variable JSON_parse : Text -> option value.

(** Every handler but [deleteCurrentBoard] keeps the board list
    non-empty; the end of a recording writes the list of the render that
    started the recording, which is that of an earlier state. *)
Lemma handlers_keep_a_board (ev : Event Text) st :
  ev <> DeleteCurrentBoard Text ->
  (forall r base64, ev = HandleRecordingStop Text r base64 ->
                    onstopBoards r <> []) ->
  boards st <> [] ->
  boards (step Text JSON_parse ev st) <> [].
Proof.
  intros Hev Hrec Hne. unfold step. rewrite boards_syncActiveBoard.
  assert (Hlen : (0 < length (boards st))%nat) by (destruct (boards st); simpl; [done | lia]).
  assert (Hpos : forall s : App, (0 < length (boards s))%nat -> boards s <> []).
  { intros s Hs E. rewrite E in Hs. simpl in Hs. lia. }
  apply Hpos.
  destruct ev as [now | n | i | i a | i a | r b | env i | | newIds file | bid];
    unfold handle.
  - unfold addNewBoard. len_tac.
  - unfold updateBoardName. len_tac.
  - unfold handleDelete. len_tac.
  - unfold handleEmojiClick. destruct a as [e |]; [| done].
    destruct (truthy (Str e)); [| done]. len_tac.
  - unfold handleTitleClick.
    destruct (arrayGet _ _); [| done]. destruct a; [| done]. len_tac.
  - unfold handleRecordingStop. destruct (forallb _ _); [| done].
    specialize (Hrec r b eq_refl).
    cbn [fst boards setActiveBoardId setBoards setPlaybackStates].
    rewrite boards_saveBoards, length_mapActiveSlots.
    cbn [boards setActiveBoardId setBoards].
    destruct (onstopBoards r); simpl; [done | lia].
  - unfold handleSlotClick.
    destruct (slotAction i st) as [[| s | |] |]; try done.
    + unfold stopSound. destruct (arrayGet (audioRefs st) i); [| done].
      destruct (arrayGet (slots _) i); done.
    + unfold playSound. destruct (Base64.atob _); [| done].
      destruct (arrayGet (slots _) i); done.
    + unfold startRecording.
      repeat match goal with |- context [if ?c then _ else _] => destruct c end; done.
    + unfold stopRecording. destruct (mediaRecorderRef st) as [r |]; [| done].
      by destruct (recording r).
  - done.
  - unfold importBoard. destruct file as [text |]; [| done].
    destruct (readBoards _ _ _ _) as [newBoards |]; [| done].
    destruct newBoards; len_tac.
  - done.
Qed.

End Events.

(** C5 fails on the code. Two boards added while [Date.now()] gives the same
    value get the same id; after the default board is selected and deleted,
    every board left carries the active id, and the next
    [deleteCurrentBoard] filters all of them out: the board list is empty. *)
Theorem board_list_can_become_empty :
  boards (run (option value) plainParse
              [AddNewBoard _ "1700000000000"; AddNewBoard _ "1700000000000";
               SelectBoard _ "default";
               DeleteCurrentBoard _; DeleteCurrentBoard _]
              initialApp) = [].
Proof. vm_compute. reflexivity. Qed.

Lemma boardData_saveBoards newBoards st :
  map boardData (boards (saveBoards newBoards st)) = map boardData newBoards.
Proof.
  unfold saveBoards. simpl. rewrite map_map. apply map_ext. intros b.
  destruct (String.eqb (id b) (activeBoardId st)); [| done].
  unfold boardData, boardFields. simpl. f_equal.
  apply list_eq. intros i. rewrite !list_lookup_fmap, list_lookup_imap.
  destruct (slots b !! i) as [[s |] |]; done.
Qed.

Lemma slotDoc_typed s :
  slotTyped s -> slotDocShape s (slotDoc s) /\ importSlot (slotDoc s) = freshSlot s.
Proof.
  intros (s' & -> & Ha & He & Ht). destruct s' as [a w e t]. simpl in *.
  unfold slotDocShape.
  destruct Ha as [-> | [sa ->]], He as [-> | [se ->]], Ht as [-> | [st ->]];
    (split; [eexists; split; [reflexivity | repeat apply conj; vm_compute; reflexivity]
           | vm_compute; reflexivity]).
Qed.

Lemma importSlots_slotDocs sl :
  Forall slotTyped sl ->
  importSlots (Arr (map slotDoc sl)) = Some (map freshSlot sl).
Proof.
  intros Hsl. unfold importSlots. apply mapM_Some_2.
  induction Hsl as [| s sl Hs _ IH]; simpl; constructor; [| done].
  destruct (slotDoc_typed s Hs) as [_ ->].
  destruct Hs as (s' & -> & _). done.
Qed.

Lemma getProp_jsonValue_Obj ps k :
  getProp (jsonValue (Obj ps)) k =
    Some (lookupProp (propsOf (jsonValue (Obj ps))) k).
Proof. reflexivity. Qed.

Lemma propsOf_jsonValue_cons k v ps :
  propsOf (jsonValue (Obj ((k, v) :: ps))) =
    if isUndefined v then propsOf (jsonValue (Obj ps))
    else (k, jsonValue v) :: propsOf (jsonValue (Obj ps)).
Proof. by destruct v. Qed.

Lemma lookupProp_cons k v ps k' :
  lookupProp ((k, v) :: ps) k' =
    if String.eqb k k' then v else lookupProp ps k'.
Proof. unfold lookupProp. simpl. by destruct (String.eqb k k'). Qed.

(** Setting a property does not change what the JSON text holds under
    another key. *)
Lemma lookupProp_json_setProp_ne ps k k' v :
  k <> k' ->
  lookupProp (propsOf (jsonValue (Obj (setProp ps k' v)))) k =
    lookupProp (propsOf (jsonValue (Obj ps))) k.
Proof.
  intros Hne. induction ps as [| [k0 x] ps IH].
  - cbn [setProp]. rewrite propsOf_jsonValue_cons.
    destruct (isUndefined v); [done |]. rewrite lookupProp_cons.
    by destruct (String.eqb_spec k' k); [congruence |].
  - cbn [setProp]. destruct (String.eqb_spec k0 k') as [-> | Hk].
    + rewrite !propsOf_jsonValue_cons.
      destruct (isUndefined v), (isUndefined x); rewrite ?lookupProp_cons;
        destruct (String.eqb_spec k' k); congruence || done.
    + rewrite !propsOf_jsonValue_cons.
      destruct (isUndefined x); [done |]. rewrite !lookupProp_cons.
      by rewrite IH.
Qed.

(** The JSON text holds a property that was set, unless to [undefined]. *)
Lemma lookupProp_json_setProp_eq ps k v :
  isUndefined v = false ->
  lookupProp (propsOf (jsonValue (Obj (setProp ps k v)))) k = jsonValue v.
Proof.
  intros Hv. induction ps as [| [k0 x] ps IH].
  - cbn [setProp]. rewrite propsOf_jsonValue_cons, Hv, lookupProp_cons.
    by rewrite String.eqb_refl.
  - cbn [setProp]. destruct (String.eqb_spec k0 k) as [-> | Hk].
    + rewrite propsOf_jsonValue_cons, Hv, lookupProp_cons.
      by rewrite String.eqb_refl.
    + rewrite propsOf_jsonValue_cons.
      destruct (isUndefined x); [done |]. rewrite lookupProp_cons.
      by destruct (String.eqb_spec k0 k); [congruence |].
Qed.

Lemma jsonValue_slotsArray sl : jsonValue (slotsArray sl) = Arr (map slotDoc sl).
Proof. unfold slotsArray. simpl. by rewrite map_map. Qed.

Lemma jsonValue_exportData bs :
  jsonValue (exportData bs) = Obj [("boards", Arr (map boardDoc bs))].
Proof.
  unfold exportData.
  change (Obj [("boards", Arr (map (fun x => match x with
                                            | Undefined => Null
                                            | _ => jsonValue x
                                            end) (map boardObject bs)))] =
          Obj [("boards", Arr (map boardDoc bs))]).
  by rewrite map_map.
Qed.

Lemma getProp_boardDoc_slots b :
  getProp (boardDoc b) "slots" = Some (Arr (map slotDoc (slots b))).
Proof.
  unfold boardDoc, boardObject. rewrite getProp_jsonValue_Obj.
  rewrite lookupProp_json_setProp_eq by done.
  by rewrite jsonValue_slotsArray.
Qed.

Lemma getProp_boardDoc_name b n :
  name b = Str n -> getProp (boardDoc b) "name" = Some (name b).
Proof.
  intros Hn. unfold boardDoc, boardObject. rewrite getProp_jsonValue_Obj.
  rewrite lookupProp_json_setProp_ne by done.
  rewrite lookupProp_json_setProp_eq by (by rewrite Hn).
  by rewrite Hn.
Qed.

Lemma getProp_boardDoc_id b : getProp (boardDoc b) "id" = Some (Str (id b)).
Proof.
  unfold boardDoc, boardObject. rewrite getProp_jsonValue_Obj.
  rewrite !lookupProp_json_setProp_ne by done.
  by rewrite lookupProp_json_setProp_eq.
Qed.

Lemma getProp_boardDoc_other b k :
  k <> "id" -> k <> "name" -> k <> "slots" ->
  getProp (boardDoc b) k = getProp (jsonValue (Obj (origin b))) k.
Proof.
  intros Hid Hname Hslots. unfold boardDoc, boardObject.
  rewrite !getProp_jsonValue_Obj.
  by rewrite !lookupProp_json_setProp_ne.
Qed.

Lemma boardDoc_shape b : boardTyped b -> boardDocShape b (boardDoc b).
Proof.
  intros [[n Hn] Hsl]. unfold boardDocShape.
  split; [apply getProp_boardDoc_id |].
  split; [by apply (getProp_boardDoc_name b n) |].
  split; [| split].
  - exists (map slotDoc (slots b)). split; [apply getProp_boardDoc_slots |].
    apply Forall2_fmap_r, Forall_Forall2_diag.
    eapply Forall_impl; [exact Hsl |]. intros s Hs. by apply slotDoc_typed.
  - apply getProp_boardDoc_other.
  - intros Ho. unfold boardDoc, boardObject. rewrite Ho, Hn. reflexivity.
Qed.

Lemma importOneBoard_boardDoc newId b :
  boardTyped b ->
  importOneBoard newId (boardDoc b) =
    Some (mkSoundboard newId (name b) (map freshSlot (slots b))
                       (propsOf (boardDoc b))).
Proof.
  intros [[n Hn] Hsl]. unfold importOneBoard.
  rewrite getProp_boardDoc_slots. cbn [mbind option_bind].
  rewrite importSlots_slotDocs by done. cbn [mbind option_bind].
  rewrite (getProp_boardDoc_name b n) by done. reflexivity.
Qed.

Lemma importBoardsFrom_boardDocs newIds k bs :
  Forall boardTyped bs ->
  importBoardsFrom newIds k (map boardDoc bs) =
    Some (imap (fun i b => mkSoundboard (newIds (k + i)%nat) (name b)
                             (map freshSlot (slots b)) (propsOf (boardDoc b))) bs).
Proof.
  intros Hbs. revert k. induction Hbs as [| b bs Hb _ IH]; intros k; [done |].
  simpl. rewrite importOneBoard_boardDoc by done. simpl.
  rewrite IH. simpl. rewrite Nat.add_0_r. do 2 f_equal.
  apply imap_ext. intros i x _. simpl. do 2 f_equal. lia.
Qed.

Lemma boardFields_freshSlot sl : map slotFields (map freshSlot sl) = map slotFields sl.
Proof. rewrite map_map. apply map_ext. by intros [s |]. Qed.

Lemma importedBoardsOf_boards docs :
  importedBoardsOf (Obj [("boards", Arr docs)]) = Some (Arr docs).
Proof. reflexivity. Qed.

Lemma readBoards_exported Text (JSON_stringify : value -> Text)
    (JSON_parse : Text -> option value) newIds bs :
  Forall boardTyped bs ->
  JSON_parse (JSON_stringify (exportData bs)) = Some (jsonValue (exportData bs)) ->
  readBoards Text JSON_parse newIds (JSON_stringify (exportData bs)) =
    Some (imap (fun i b => mkSoundboard (newIds i) (name b) (map freshSlot (slots b))
                                        (propsOf (boardDoc b))) bs).
Proof.
  intros Hbs Hrt. unfold readBoards. rewrite Hrt. cbn [mbind option_bind].
  rewrite jsonValue_exportData.
  rewrite importedBoardsOf_boards. cbn [mbind option_bind].
  unfold importBoards. by rewrite importBoardsFrom_boardDocs.
Qed.

Lemma boards_importBoard Text (JSON_parse : Text -> option value) newIds text st newBoards :
  readBoards Text JSON_parse newIds text = Some newBoards ->
  map boardData (boards (importBoard Text JSON_parse newIds (Some text) st)) =
    map boardData (boards st) ++ map boardData newBoards.
Proof.
  intros Hread. unfold importBoard. rewrite Hread.
  rewrite <- map_app, <- (boardData_saveBoards (boards st ++ newBoards) st).
  by destruct newBoards.
Qed.

Lemma map_imap_lookup {A B C} (g : B -> C) (f : nat -> A -> B) (h : A -> C) l :
  (forall i x, g (f i x) = h x) -> map g (imap f l) = map h l.
Proof.
  intros Hgf. apply list_eq. intros i.
  rewrite !list_lookup_fmap, list_lookup_imap.
  destruct (l !! i); simpl; [by rewrite Hgf | done].
Qed.

Lemma map_imap_index {A B C} (g : B -> C) (f : nat -> A -> B) (h : nat -> C) l :
  (forall i x, g (f i x) = h i) -> map g (imap f l) = map h (seq 0 (length l)).
Proof.
  intros Hgf. apply list_eq. intros i.
  rewrite !list_lookup_fmap, list_lookup_imap.
  destruct (l !! i) as [x |] eqn:E; simpl.
  - rewrite lookup_seq_lt by (by eapply lookup_lt_Some). simpl. by rewrite Hgf.
  - rewrite lookup_seq_ge by (by apply lookup_ge_None). done.
Qed.

(** C4. A file exported from a list of boards of the [Soundboard]
    interface and then imported appends one board per exported board, in the
    same order, whose slots carry the same [audioData], [emoji] and [title],
    slot for slot; the names are kept and the ids are made anew. The text
    written by [JSON.stringify] is taken to parse back to the document it
    stands for. *)
Theorem export_import_roundtrip (Text : Type) (JSON_stringify : value -> Text)
    (JSON_parse : Text -> option value) (newIds : nat -> string)
    (exported st : App) :
  Forall boardTyped (boards exported) ->
  JSON_parse (JSON_stringify (exportData (boards exported))) =
    Some (jsonValue (exportData (boards exported))) ->
  map boardFields
      (boards (importBoard Text JSON_parse newIds
                 (Some (exportBoard Text JSON_stringify exported)) st)) =
    map boardFields (boards st) ++ map boardFields (boards exported) /\
  map name
      (boards (importBoard Text JSON_parse newIds
                 (Some (exportBoard Text JSON_stringify exported)) st)) =
    map name (boards st) ++ map name (boards exported) /\
  map id
      (boards (importBoard Text JSON_parse newIds
                 (Some (exportBoard Text JSON_stringify exported)) st)) =
    map id (boards st) ++ map newIds (seq 0 (length (boards exported))).
Proof.
  intros Hbs Hrt.
  pose proof (readBoards_exported Text JSON_stringify JSON_parse newIds _ Hbs Hrt)
    as Hread.
  pose proof (boards_importBoard Text JSON_parse newIds _ st _ Hread) as Hdata.
  fold (exportBoard Text JSON_stringify exported) in Hdata.
  set (st' := importBoard _ _ _ _ _) in *.
  repeat split.
  - apply (f_equal (map snd)) in Hdata.
    rewrite map_app, !map_map in Hdata. simpl in Hdata.
    etransitivity; [exact Hdata |]. f_equal.
    apply (map_imap_lookup _ _ boardFields). intros i b.
    unfold boardFields. simpl. apply boardFields_freshSlot.
  - apply (f_equal (map (fun d => snd (fst d)))) in Hdata.
    rewrite map_app, !map_map in Hdata. simpl in Hdata.
    etransitivity; [exact Hdata |]. f_equal.
    by apply (map_imap_lookup _ _ name).
  - apply (f_equal (map (fun d => fst (fst d)))) in Hdata.
    rewrite map_app, !map_map in Hdata. simpl in Hdata.
    etransitivity; [exact Hdata |]. f_equal.
    by apply (map_imap_index _ _ newIds).
Qed.

Lemma emptySlot_typed : slotTyped (Some emptySlot).
Proof.
  exists emptySlot. split; [done |]. repeat split; by left.
Qed.

Lemma demoBoard_typed : Forall boardTyped (boards demoApp).
Proof.
  apply Forall_cons. split; [| constructor].
  split; [by eexists |]. simpl.
  apply Forall_cons. split; [| apply Forall_cons; split; [apply emptySlot_typed | constructor]].
  eexists. split; [reflexivity |]. simpl.
  split; [right; by eexists |]. split; [right; by eexists | by left].
Qed.

Lemma export_import_roundtrip_witness :
  map boardFields
      (boards (importBoard (option value) plainParse demoIds
                 (Some (exportBoard (option value) plainStringify demoApp)) initialApp)) =
    map boardFields (boards initialApp) ++ map boardFields (boards demoApp) /\
  map name
      (boards (importBoard (option value) plainParse demoIds
                 (Some (exportBoard (option value) plainStringify demoApp)) initialApp)) =
    map name (boards initialApp) ++ map name (boards demoApp) /\
  map id
      (boards (importBoard (option value) plainParse demoIds
                 (Some (exportBoard (option value) plainStringify demoApp)) initialApp)) =
    map id (boards initialApp) ++ map demoIds (seq 0 (length (boards demoApp))).
Proof.
  apply (export_import_roundtrip (option value) plainStringify plainParse demoIds
           demoApp initialApp).
  - exact demoBoard_typed.
  - reflexivity.
Defined.

(** C7 (as amended). When every board is of the [Soundboard] interface (its
    name a string, its slots objects whose [audioData] is a string or [null]
    and whose [emoji] and [title] are strings or [undefined]), the file
    written by [exportBoard] holds an object with the single key [boards], an
    array with one object per board, in order. Each has [id], [name] and
    [slots] with the board's id, name and one object per slot; a board made
    by the component has these three keys only, a board that was imported has
    besides them the other properties of the object it was imported from.
    Each object of [slots] holds the slot's [audioData], and its [emoji] and
    [title] when they are not [undefined], and nothing else (no
    [waveform]). *)
Theorem export_document_shape (Text : Type) (JSON_stringify : value -> Text)
    (JSON_parse : Text -> option value) (st : App) :
  Forall boardTyped (boards st) ->
  JSON_parse (JSON_stringify (exportData (boards st))) =
    Some (jsonValue (exportData (boards st))) ->
  exists docs,
    JSON_parse (exportBoard Text JSON_stringify st) = Some (Obj [("boards", Arr docs)]) /\
    Forall2 boardDocShape (boards st) docs.
Proof.
  intros Hbs Hrt. exists (map boardDoc (boards st)).
  unfold exportBoard. rewrite Hrt, jsonValue_exportData.
  split; [done |].
  apply Forall2_fmap_r, Forall_Forall2_diag.
  eapply Forall_impl; [exact Hbs |]. intros b Hb. by apply boardDoc_shape.
Qed.

Lemma export_document_shape_witness :
  exists docs,
    plainParse (exportBoard (option value) plainStringify demoApp) =
      Some (Obj [("boards", Arr docs)]) /\
    Forall2 boardDocShape (boards demoApp) docs.
Proof.
  apply (export_document_shape (option value) plainStringify plainParse demoApp).
  - exact demoBoard_typed.
  - reflexivity.
Defined.

(** C7 (as stated) fails: the exported object of a slot of a new board,
    whose [emoji] and [title] are [undefined], has the one key
    [audioData]. *)
Lemma export_omits_undefined_fields :
  jsonValue (exportData [defaultBoard]) =
    Obj [("boards",
          Arr [Obj [("id", Str "default"); ("name", Str "New Soundboard");
                    ("slots", Arr (replicate 9 (Obj [("audioData", Null)])))]])] /\
  keys (Obj [("audioData", Null)]) <> ["audioData"; "emoji"; "title"].
Proof. split; [reflexivity | discriminate]. Qed.

(** The exported object of a board is a copy of the board, and a board that
    was imported is a copy of the object in the file: a property [color] of
    an imported board is exported again, with the id made by the import. *)
Example export_keeps_imported_properties :
  exists b,
    importOneBoard "1700000000000k3j9x"
      (Obj [("id", Str "default"); ("name", Str "Drums");
            ("color", Str "red"); ("slots", Arr [])]) = Some b /\
    boardTyped b /\
    boardDoc b = Obj [("id", Str "1700000000000k3j9x"); ("name", Str "Drums");
                      ("color", Str "red"); ("slots", Arr [])].
Proof.
  eexists. split; [reflexivity |]. split; [| reflexivity].
  split; [by eexists | constructor].
Qed.

(** C8. When the text of the file is not JSON, or the boards cannot be read
    from its document (a TypeError in the [try] block, or no board at all),
    [importBoard] ends normally, has written one line with [console.error],
    and the board list (ids, names and slot fields) and the active board id
    are as before; on a SyntaxError or a TypeError the state is untouched
    but for the console. *)
Theorem import_failure_keeps_boards (Text : Type)
    (JSON_parse : Text -> option value) (newIds : nat -> string)
    (text : Text) (st : App) :
  JSON_parse text = None \/
  (exists importedData, JSON_parse text = Some importedData /\
     (importedBoardsOf importedData ≫= importBoards newIds = None \/
      importedBoardsOf importedData ≫= importBoards newIds = Some [])) ->
  handle Text JSON_parse (ImportBoard Text newIds (Some text)) st =
    (importBoard Text JSON_parse newIds (Some text) st, Normal) /\
  map boardData (boards (importBoard Text JSON_parse newIds (Some text) st)) =
    map boardData (boards st) /\
  activeBoardId (importBoard Text JSON_parse newIds (Some text) st) = activeBoardId st /\
  console (importBoard Text JSON_parse newIds (Some text) st) =
    console st ++ ["Failed to import soundboards:"] /\
  (readBoards Text JSON_parse newIds text = None ->
   importBoard Text JSON_parse newIds (Some text) st =
     consoleError "Failed to import soundboards:" st).
Proof.
  intros Hfail.
  assert (Hread : readBoards Text JSON_parse newIds text = None \/
                  readBoards Text JSON_parse newIds text = Some []).
  { unfold readBoards.
    destruct Hfail as [-> | (v & -> & [H | H])]; [by left | left | right];
      cbn [mbind option_bind]; exact H. }
  split; [done |].
  unfold importBoard.
  destruct Hread as [-> | ->].
  - repeat split.
  - repeat split; [| discriminate].
    cbn [boards consoleError]. rewrite boardData_saveBoards. by rewrite app_nil_r.
Qed.

(** Documents from which no board can be read: [null], an object without
    [boards] or [slots], a [boards] that is not an array, a slot that is
    [null]; and the empty [boards] array. *)
Example unusable_documents :
  importedBoardsOf Null ≫= importBoards demoIds = None /\
  importedBoardsOf (Obj []) ≫= importBoards demoIds = None /\
  importedBoardsOf (Obj [("boards", Num (inject_Z 5))]) ≫= importBoards demoIds = None /\
  importedBoardsOf (Obj [("boards", Arr [Obj [("slots", Arr [Null])]])])
    ≫= importBoards demoIds = None /\
  importedBoardsOf (Obj [("boards", Arr [])]) ≫= importBoards demoIds = Some [].
Proof. repeat split. Qed.

Lemma import_failure_keeps_boards_witness :
  handle (option value) plainParse (ImportBoard _ demoIds (Some None)) demoApp =
    (importBoard (option value) plainParse demoIds (Some None) demoApp, Normal) /\
  map boardData (boards (importBoard (option value) plainParse demoIds (Some None) demoApp)) =
    map boardData (boards demoApp) /\
  activeBoardId (importBoard (option value) plainParse demoIds (Some None) demoApp) =
    activeBoardId demoApp /\
  console (importBoard (option value) plainParse demoIds (Some None) demoApp) =
    console demoApp ++ ["Failed to import soundboards:"] /\
  (readBoards (option value) plainParse demoIds None = None ->
   importBoard (option value) plainParse demoIds (Some None) demoApp =
     consoleError "Failed to import soundboards:" demoApp).
Proof.
  apply (import_failure_keeps_boards (option value) plainParse demoIds None demoApp).
  left. reflexivity.
Defined.

Lemma arrayGet_arraySet_eq {A} (a : list (option A)) i (v : A) :
  arrayGet (arraySet a i v) i = Some v.
Proof.
  unfold arrayGet, arraySet.
  destruct (Nat.ltb_spec i (length a)).
  - by rewrite list_lookup_insert_eq.
  - rewrite lookup_app_r by lia.
    rewrite lookup_app_r by (rewrite length_replicate; lia).
    rewrite length_replicate, Nat.sub_diag. done.
Qed.

(** C6 (as amended). On a slot of the active board that has no audio and
    is not recording, [handleSlotClick] takes the [startRecording] branch
    (not [playSound]); when the browser grants the microphone and the
    recorder starts, the recorder then records for that slot, the slot's
    playback state is [isRecording] and not [isPlaying], and no audio is
    started. *)
Theorem handleSlotClick_starts_recording (env : MediaEnv) (index : nat)
    (st : App) (slot : SoundSlot) (p : PlaybackState) :
  arrayGet (slots (activeBoard st)) index = Some slot ->
  truthy (audioData slot) = false ->
  arrayGet (playbackStates st) index = Some p ->
  isRecording p = false ->
  slotAction index st = Some DoStartRecording /\
  handleSlotClick env index st = (startRecording env index st, Normal) /\
  (env = recordingGranted ->
   mediaRecorderRef (startRecording env index st) =
     Some (mkMediaRecorder true index (boards st) (activeBoardId st)) /\
   activeSlotRef (startRecording env index st) = Some index /\
   arrayGet (playbackStates (startRecording env index st)) index =
     Some (mkPlaybackState true false) /\
   audioRefs (startRecording env index st) = audioRefs st /\
   boards (startRecording env index st) = boards st).
Proof.
  intros Hslot Haudio Hp Hrec.
  assert (Hact : slotAction index st = Some DoStartRecording).
  { unfold slotAction. rewrite Hslot. simpl. rewrite Haudio, Hp. simpl.
    by rewrite Hrec. }
  split; [done |]. split.
  - unfold handleSlotClick. by rewrite Hact.
  - intros ->. unfold startRecording. simpl.
    repeat split. apply arrayGet_arraySet_eq.
Qed.

Lemma handleSlotClick_starts_recording_witness :
  slotAction 0 initialApp = Some DoStartRecording /\
  handleSlotClick recordingGranted 0 initialApp =
    (startRecording recordingGranted 0 initialApp, Normal) /\
  (recordingGranted = recordingGranted ->
   mediaRecorderRef (startRecording recordingGranted 0 initialApp) =
     Some (mkMediaRecorder true 0 (boards initialApp) (activeBoardId initialApp)) /\
   activeSlotRef (startRecording recordingGranted 0 initialApp) = Some 0%nat /\
   arrayGet (playbackStates (startRecording recordingGranted 0 initialApp)) 0 =
     Some (mkPlaybackState true false) /\
   audioRefs (startRecording recordingGranted 0 initialApp) = audioRefs initialApp /\
   boards (startRecording recordingGranted 0 initialApp) = boards initialApp).
Proof.
  apply (handleSlotClick_starts_recording recordingGranted 0 initialApp
           emptySlot (mkPlaybackState false false));
    reflexivity.
Defined.

(** C6 (as stated) fails: slot 0 of the default board has no audio and is
    not recording, but when the microphone is denied [handleSlotClick] only
    logs the error: no recorder exists and the slot is not recording. *)
Lemma handleSlotClick_microphone_denied :
  arrayGet (slots (activeBoard initialApp)) 0 = Some emptySlot /\
  audioData emptySlot = Null /\
  arrayGet (playbackStates initialApp) 0 = Some (mkPlaybackState false false) /\
  handleSlotClick microphoneDenied 0 initialApp =
    (consoleError "Error accessing microphone:" initialApp, Normal) /\
  mediaRecorderRef (fst (handleSlotClick microphoneDenied 0 initialApp)) = None /\
  arrayGet (playbackStates (fst (handleSlotClick microphoneDenied 0 initialApp))) 0 =
    Some (mkPlaybackState false false).
Proof. repeat split. Qed.

End SoundboardFacts.

Module SoundboardSlotFacts.

Import Js Soundboard SoundboardKeys SoundboardFacts.

Local Open Scope string_scope.
Local Open Scope list_scope.

Lemma arrayGet_arraySet_ne {A} (a : list (option A)) i j (v : A) :
  i <> j -> arrayGet (arraySet a i v) j = arrayGet a j.
Proof.
  intros Hne. unfold arrayGet, arraySet.
  destruct (Nat.ltb_spec i (length a)).
  - by rewrite list_lookup_insert_ne.
  - destruct (decide (j < length a)%nat).
    + by rewrite lookup_app_l.
    + rewrite (lookup_ge_None_2 a j) by lia.
      rewrite lookup_app_r by lia.
      destruct (decide (j - length a < i - length a)%nat).
      * rewrite lookup_app_l by (rewrite length_replicate; lia).
        by rewrite lookup_replicate_2 by lia.
      * rewrite lookup_app_r by (rewrite length_replicate; lia).
        rewrite length_replicate. by rewrite lookup_ge_None_2 by (simpl; lia).
Qed.

Lemma arrayGet_arrayClear {A} (a : list (option A)) i :
  arrayGet (arrayClear a i) i = None.
Proof.
  unfold arrayGet, arrayClear.
  destruct (Nat.ltb_spec i (length a)).
  - by rewrite list_lookup_insert_eq.
  - rewrite lookup_app_r by lia. by rewrite lookup_replicate_2 by lia.
Qed.

Lemma arrayGet_arrayClear_ne {A} (a : list (option A)) i j :
  i <> j -> arrayGet (arrayClear a i) j = arrayGet a j.
Proof.
  intros Hne. unfold arrayGet, arrayClear.
  destruct (Nat.ltb_spec i (length a)).
  - by rewrite list_lookup_insert_ne.
  - destruct (decide (j < length a)%nat).
    + by rewrite lookup_app_l.
    + rewrite (lookup_ge_None_2 a j) by lia.
      rewrite lookup_app_r by lia.
      destruct (decide (j - length a < S (i - length a))%nat).
      * by rewrite lookup_replicate_2 by lia.
      * by rewrite lookup_ge_None_2 by (rewrite length_replicate; lia).
Qed.

Lemma arrayGet_imap {A B} (F : nat -> A -> B) (l : list (option A)) j :
  arrayGet (imap (fun i s => F i <$> s) l) j = F j <$> arrayGet l j.
Proof.
  unfold arrayGet. rewrite list_lookup_imap. by destruct (l !! j) as [[s |] |].
Qed.

Lemma find_map_id (k : Soundboard -> Soundboard) a l :
  (forall b, id (k b) = id b) ->
  find (fun b => String.eqb (id b) a) (map k l) =
    k <$> find (fun b => String.eqb (id b) a) l.
Proof.
  intros Hk. induction l as [| b l IH]; simpl; [done |].
  rewrite Hk. by destruct (String.eqb (id b) a).
Qed.

Lemma foundBoard_active st b : foundBoard st = Some b -> activeBoard st = b.
Proof. unfold foundBoard, activeBoard. by intros ->. Qed.

Lemma foundBoard_id st b : foundBoard st = Some b -> id b = activeBoardId st.
Proof.
  unfold foundBoard. intros [_ Hid]%find_some. by apply String.eqb_eq.
Qed.

(** The active board after [saveBoards] of the boards whose active slots
    went through [f]. *)
Lemma activeBoard_mapActiveSlots f st b :
  foundBoard st = Some b ->
  foundBoard (saveBoards (mapActiveSlots f st) st) =
    Some (mkSoundboard (id b) (name b)
            (imap (fun idx slot => keepWaveform b idx <$> slot) (f (slots b)))
            (origin b)).
Proof.
  intros Hfind.
  pose proof (foundBoard_active st b Hfind) as Hact.
  pose proof (foundBoard_id st b Hfind) as Hid.
  unfold foundBoard in *. unfold saveBoards, mapActiveSlots. simpl.
  rewrite !find_map_id, Hfind; simpl.
  - assert (Hb : String.eqb (id b) (activeBoardId st) = true)
      by (by apply String.eqb_eq).
    rewrite Hb. simpl. by rewrite Hb, Hact.
  - intros b'. by destruct (String.eqb (id b') (activeBoardId st)).
  - intros b'. by destruct (String.eqb (id b') (activeBoardId st)).
Qed.

Lemma keepWaveform_same b idx s :
  arrayGet (slots b) idx = Some s -> keepWaveform b idx s = s.
Proof.
  intros Hs. unfold keepWaveform. rewrite Hs.
  by destruct s as [a [wv |] e t].
Qed.

Lemma boards_saveBoards_lookup f st i b :
  boards st !! i = Some b ->
  exists b', boards (saveBoards (mapActiveSlots f st) st) !! i = Some b' /\
    id b' = id b /\ name b' = name b /\ (id b <> activeBoardId st -> b' = b).
Proof.
  intros Hb. unfold saveBoards, mapActiveSlots. simpl.
  rewrite !list_lookup_fmap, Hb. simpl.
  destruct (String.eqb_spec (id b) (activeBoardId st)) as [E | E]; simpl.
  - rewrite E, String.eqb_refl. eexists. split; [done |]. simpl.
    split; [done |]. split; [done |]. by intros [].
  - destruct (String.eqb_spec (id b) (activeBoardId st)); [done |].
    by exists b.
Qed.

Lemma boards_handleSlotClick env index st :
  boards (fst (handleSlotClick env index st)) = boards st.
Proof.
  unfold handleSlotClick.
  destruct (slotAction index st) as [[| s | |] |]; simpl; try done.
  - unfold stopSound. destruct (arrayGet (audioRefs st) index); [| done].
    by destruct (arrayGet (slots (activeBoard st)) index).
  - unfold playSound. destruct (Base64.atob (codeUnits s)); [| done].
    by destruct (arrayGet (slots (activeBoard st)) index).
  - unfold startRecording.
    by destruct (userMediaGranted env), (devicesListed env), (recorderCreated env),
      (recorderStarted env).
  - unfold stopRecording. destruct (mediaRecorderRef st) as [r |]; [| done].
    by destruct (recording r).
Qed.

Lemma boards_slotEvent Text (JSON_parse : Text -> option value) (ev : Event Text) st :
  slotEvent ev = true ->
  boards (fst (handle Text JSON_parse ev st)) = boards st \/
  exists f, boards (fst (handle Text JSON_parse ev st)) =
            boards (saveBoards (mapActiveSlots f st) st).
Proof.
  destruct ev as [now | n | i | i a | i a | r b64 | env i | | ids file | bid];
    try done; intros _; simpl.
  - right. by eexists.
  - unfold handleEmojiClick. destruct a as [e |]; [| by left].
    destruct (truthy (Str e)); [right; by eexists | by left].
  - unfold handleTitleClick.
    destruct (arrayGet (slots (activeBoard st)) i); [| by left].
    destruct a; [right; by eexists | by left].
  - left. apply boards_handleSlotClick.
Qed.

(** X9. The handlers of a single slot that run on the current render
    (delete, emoji, title, a click) never add, remove, reorder or rename
    boards, and they leave every board that does not carry the active id
    exactly as it was. The end of a recording is not one of them: it writes
    the board list of the render that started the recording. *)
Theorem slot_handlers_keep_board_list (Text : Type)
    (JSON_parse : Text -> option value) (ev : Event Text) (st : App) :
  slotEvent ev = true ->
  length (boards (fst (handle Text JSON_parse ev st))) = length (boards st) /\
  forall i b, boards st !! i = Some b ->
    exists b', boards (fst (handle Text JSON_parse ev st)) !! i = Some b' /\
      id b' = id b /\ name b' = name b /\
      (id b <> activeBoardId st -> b' = b).
Proof.
  intros Hev.
  destruct (boards_slotEvent Text JSON_parse ev st Hev) as [-> | [f ->]].
  - split; [done |]. intros i b Hb. by exists b.
  - split; [by rewrite boards_saveBoards, length_mapActiveSlots |].
    intros i b Hb. by apply boards_saveBoards_lookup.
Qed.

Lemma slot_handlers_keep_board_list_witness :
  length (boards (fst (handle (option value) plainParse (HandleDelete _ 0) twoBoards))) =
    length (boards twoBoards) /\
  forall i b, boards twoBoards !! i = Some b ->
    exists b', boards (fst (handle (option value) plainParse (HandleDelete _ 0) twoBoards))
                 !! i = Some b' /\
      id b' = id b /\ name b' = name b /\
      (id b <> activeBoardId twoBoards -> b' = b).
Proof.
  apply (slot_handlers_keep_board_list (option value) plainParse (HandleDelete _ 0) twoBoards).
  reflexivity.
Defined.

(** The end of a recording removes a board that was added while the
    recording ran: the recording is started on the default board, a board is
    added, the recording is stopped, and [onstop] writes the board list of the
    render that started the recording, in which the new board is not. *)
Example recording_end_drops_new_board :
  let st1 := step (option value) plainParse
                  (HandleSlotClick _ recordingGranted 0) initialApp in
  let st2 := step (option value) plainParse (AddNewBoard _ "1700000000000") st1 in
  let st3 := step (option value) plainParse
                  (HandleSlotClick _ recordingGranted 0) st2 in
  exists r,
    mediaRecorderRef st3 = Some r /\ recording r = false /\
    map id (boards st3) = ["default"; "1700000000000"] /\
    map id (boards (step (option value) plainParse
                         (HandleRecordingStop _ r "TWFu") st3)) = ["default"].
Proof. eexists. repeat split. Qed.

(** X10. [handleDelete] empties the slot of the active board: its audio
    data becomes [null], emoji and title [undefined], while the waveform
    handle of the slot stays ([saveBoards] puts it back); every other slot of
    the board is as it was. *)
Theorem handleDelete_resets_slot (index : nat) (st : App) (b : Soundboard)
    (s : SoundSlot) :
  foundBoard st = Some b ->
  arrayGet (slots b) index = Some s ->
  exists b',
    foundBoard (handleDelete index st) = Some b' /\
    id b' = id b /\ name b' = name b /\
    arrayGet (slots b') index = Some (mkSoundSlot Null (waveform s) Undefined Undefined) /\
    forall j, j <> index -> arrayGet (slots b') j = arrayGet (slots b) j.
Proof.
  intros Hfind Hs. unfold handleDelete.
  rewrite (activeBoard_mapActiveSlots _ st b Hfind).
  eexists. split; [done |]. simpl. split; [done |]. split; [done |]. split.
  - rewrite arrayGet_imap, arrayGet_arraySet_eq. simpl.
    unfold keepWaveform. rewrite Hs. simpl. by destruct s as [a [wv |] e t].
  - intros j Hj. rewrite arrayGet_imap, arrayGet_arraySet_ne by done.
    destruct (arrayGet (slots b) j) as [s' |] eqn:Hs'; [| done].
    simpl. by rewrite keepWaveform_same.
Qed.

Lemma handleDelete_resets_slot_witness :
  exists b',
    foundBoard (handleDelete 0 demoApp) = Some b' /\
    id b' = id demoBoard /\ name b' = name demoBoard /\
    arrayGet (slots b') 0 =
      Some (mkSoundSlot Null
              (waveform (mkSoundSlot (Str "TWFu") (Some 7%nat) (Str "x") Undefined))
              Undefined Undefined) /\
    forall j, j <> 0%nat -> arrayGet (slots b') j = arrayGet (slots demoBoard) j.
Proof.
  apply (handleDelete_resets_slot 0 demoApp demoBoard
           (mkSoundSlot (Str "TWFu") (Some 7%nat) (Str "x") Undefined));
    reflexivity.
Defined.

Lemma NoDup_id_unique (l : list Soundboard) b b' :
  NoDup (map id l) -> b ∈ l -> b' ∈ l -> id b = id b' -> b = b'.
Proof.
  induction l as [| x l IH]; simpl; intros Hnd Hb Hb' Hid.
  - by apply elem_of_nil in Hb.
  - apply NoDup_cons in Hnd as [Hx Hnd].
    apply elem_of_cons in Hb as [-> | Hb]; apply elem_of_cons in Hb' as [-> | Hb'].
    + done.
    + exfalso. apply Hx. rewrite Hid. by apply (list_elem_of_fmap_2 id).
    + exfalso. apply Hx. rewrite <- Hid. by apply (list_elem_of_fmap_2 id).
    + by apply IH.
Qed.

(** The render whose boards and active id are those of the state is the
    state. *)
Lemma setBoards_same st :
  setActiveBoardId (activeBoardId st) (setBoards (boards st) st) = st.
Proof. by destruct st. Qed.

Lemma foundBoard_elem st b : foundBoard st = Some b -> b ∈ boards st.
Proof.
  unfold foundBoard. intros [Hin _]%find_some. by apply list_elem_of_In.
Qed.

(** X11. Recording into an empty slot, when the browser grants the
    microphone and the recorder starts, the board ids are distinct and the
    recording is not empty: the first click starts the recorder, the second
    stops it, and when the recorder's [onstop] handler (with the boards of
    the render of the first click, which are still the boards) has stored the
    recording, the slot holds it (emoji, title and waveform handle kept), is
    neither recording nor playing, and the next click plays it. *)
Theorem recorded_slot_plays (env : MediaEnv) (index : nat) (st : App)
    (b : Soundboard) (slot : SoundSlot) (p : PlaybackState) (base64 : string) :
  NoDup (map id (boards st)) ->
  foundBoard st = Some b ->
  arrayGet (slots b) index = Some slot ->
  truthy (audioData slot) = false ->
  arrayGet (playbackStates st) index = Some p ->
  isRecording p = false ->
  base64 <> "" ->
  let st1 := fst (handleSlotClick recordingGranted index st) in
  let st2 := fst (handleSlotClick env index st1) in
  let r := mkMediaRecorder false index (boards st) (activeBoardId st) in
  let st3 := fst (handleRecordingStop r base64 st2) in
  mediaRecorderRef st1 =
    Some (mkMediaRecorder true index (boards st) (activeBoardId st)) /\
  mediaRecorderRef st2 = Some r /\
  activeSlotRef st2 = None /\
  snd (handleRecordingStop r base64 st2) = Normal /\
  (exists b3, foundBoard st3 = Some b3 /\
     arrayGet (slots b3) index =
       Some (mkSoundSlot (Str base64) (waveform slot) (emoji slot) (title slot))) /\
  arrayGet (playbackStates st3) index = Some (mkPlaybackState false false) /\
  slotAction index st3 = Some (DoPlaySound base64).
Proof.
  intros Hnd Hfind Hslot Haudio Hp Hrec Hb64.
  pose proof (foundBoard_active st b Hfind) as Hact.
  assert (H1 : handleSlotClick recordingGranted index st =
               (startRecording recordingGranted index st, Normal)).
  { unfold handleSlotClick, slotAction. rewrite Hact, Hslot. simpl.
    rewrite Haudio, Hp. simpl. by rewrite Hrec. }
  rewrite H1. cbn [fst].
  remember (startRecording recordingGranted index st) as st1 eqn:E1.
  assert (Hact1 : activeBoard st1 = b) by (by rewrite E1, <- Hact).
  assert (Hp1 : arrayGet (playbackStates st1) index = Some (mkPlaybackState true false)).
  { rewrite E1. unfold startRecording. simpl. apply arrayGet_arraySet_eq. }
  assert (Hr1 : mediaRecorderRef st1 =
                Some (mkMediaRecorder true index (boards st) (activeBoardId st)))
    by (by rewrite E1).
  assert (H2 : handleSlotClick env index st1 = (stopRecording st1, Normal)).
  { unfold handleSlotClick, slotAction. rewrite Hact1, Hslot. simpl.
    by rewrite Haudio, Hp1. }
  rewrite H2. cbn [fst].
  remember (stopRecording st1) as st2 eqn:E2.
  assert (Hb2 : boards st2 = boards st) by (by rewrite E2, E1).
  assert (Hfind2 : foundBoard st2 = Some b) by (by rewrite E2, E1).
  assert (Hid2 : activeBoardId st2 = activeBoardId st) by (by rewrite E2, E1).
  assert (Hr2 : mediaRecorderRef st2 =
                Some (mkMediaRecorder false index (boards st) (activeBoardId st)) /\
                activeSlotRef st2 = None).
  { rewrite E2. unfold stopRecording. by rewrite Hr1. }
  split; [done |]. split; [apply Hr2 |]. split; [apply Hr2 |].
  assert (Hall : forallb (fun board =>
                   negb (String.eqb (id board) (activeBoardId st2)) ||
                   bool_decide (is_Some (arrayGet (slots board) index)))
                 (boards st2) = true).
  { apply forallb_forall. intros b' Hb'. apply list_elem_of_In in Hb'.
    destruct (String.eqb_spec (id b') (activeBoardId st2)) as [E | E]; [| done].
    simpl. apply bool_decide_eq_true_2. rewrite Hb2 in Hb'.
    rewrite (NoDup_id_unique (boards st) b' b); [by rewrite Hslot | done | done | |].
    - by apply foundBoard_elem.
    - rewrite E. symmetry. by apply foundBoard_id. }
  unfold handleRecordingStop.
  cbn [onstopSlot onstopBoards onstopActiveBoardId].
  rewrite <- Hb2, <- Hid2, setBoards_same, Hall. cbn [fst snd].
  split; [done |].
  set (f := fun sl : list (option SoundSlot) =>
              match arrayGet sl index with
              | Some s => arraySet sl index (mkSoundSlot (Str base64) None (emoji s) (title s))
              | None => sl
              end).
  pose proof (activeBoard_mapActiveSlots f st2 b Hfind2) as Hfind3.
  assert (Hslot3 : arrayGet
                     (imap (fun idx slot => keepWaveform b idx <$> slot) (f (slots b)))
                     index =
                   Some (mkSoundSlot (Str base64) (waveform slot) (emoji slot) (title slot))).
  { rewrite arrayGet_imap. subst f. simpl. rewrite Hslot, arrayGet_arraySet_eq. simpl.
    unfold keepWaveform. rewrite Hslot. simpl. by destruct slot as [a [wv |] e t]. }
  split; [| split].
  - eexists. split; [exact Hfind3 | exact Hslot3].
  - simpl. apply arrayGet_arraySet_eq.
  - unfold slotAction.
    match goal with |- context [activeBoard ?s] =>
      rewrite (foundBoard_active s _ Hfind3) end.
    cbn [slots]. rewrite Hslot3. simpl.
    destruct (String.eqb_spec base64 "") as [E | E]; [done |]. simpl.
    by rewrite arrayGet_arraySet_eq.
Qed.

Lemma recorded_slot_plays_witness :
  let st1 := fst (handleSlotClick recordingGranted 0 initialApp) in
  let st2 := fst (handleSlotClick recordingGranted 0 st1) in
  let r := mkMediaRecorder false 0 (boards initialApp) (activeBoardId initialApp) in
  let st3 := fst (handleRecordingStop r "TWFu" st2) in
  mediaRecorderRef st1 =
    Some (mkMediaRecorder true 0 (boards initialApp) (activeBoardId initialApp)) /\
  mediaRecorderRef st2 = Some r /\
  activeSlotRef st2 = None /\
  snd (handleRecordingStop r "TWFu" st2) = Normal /\
  (exists b3, foundBoard st3 = Some b3 /\
     arrayGet (slots b3) 0 =
       Some (mkSoundSlot (Str "TWFu") (waveform emptySlot) (emoji emptySlot)
                         (title emptySlot))) /\
  arrayGet (playbackStates st3) 0 = Some (mkPlaybackState false false) /\
  slotAction 0 st3 = Some (DoPlaySound "TWFu").
Proof.
  apply (recorded_slot_plays recordingGranted 0 initialApp defaultBoard emptySlot
           (mkPlaybackState false false) "TWFu").
  - simpl. apply NoDup_singleton.
  - reflexivity.
  - reflexivity.
  - reflexivity.
  - reflexivity.
  - reflexivity.
  - discriminate.
Defined.

(** X12. A click on a slot that holds audio and is not playing plays it (the
    slot's audio element is set and the slot is marked as playing); a second
    click stops it: the audio element is cleared, the slot is marked as not
    playing, and the boards are as before. *)
Theorem second_click_stops_playback (env : MediaEnv) (index : nat) (st : App)
    (b : Soundboard) (slot : SoundSlot) (p : PlaybackState) (data : string) :
  foundBoard st = Some b ->
  arrayGet (slots b) index = Some slot ->
  audioData slot = Str data ->
  data <> "" ->
  is_Some (Base64.atob (codeUnits data)) ->
  arrayGet (playbackStates st) index = Some p ->
  isPlaying p = false ->
  let r1 := handleSlotClick env index st in
  let r2 := handleSlotClick env index (fst r1) in
  snd r1 = Normal /\
  arrayGet (audioRefs (fst r1)) index = Some data /\
  arrayGet (playbackStates (fst r1)) index = Some (mkPlaybackState (isRecording p) true) /\
  snd r2 = Normal /\
  arrayGet (audioRefs (fst r2)) index = None /\
  arrayGet (playbackStates (fst r2)) index = Some (mkPlaybackState (isRecording p) false) /\
  boards (fst r2) = boards st.
Proof.
  intros Hfind Hslot Hdata Hne [bytes Hbytes] Hp Hplay.
  pose proof (foundBoard_active st b Hfind) as Hact.
  assert (Htruthy : truthy (audioData slot) = true).
  { rewrite Hdata. simpl. by destruct (String.eqb_spec data ""). }
  assert (H1 : handleSlotClick env index st =
               (updateSlotState index true
                  (setAudioRefs (arraySet (audioRefs st) index data) st), Normal)).
  { unfold handleSlotClick, slotAction. rewrite Hact, Hslot. simpl.
    rewrite Htruthy, Hp. simpl. rewrite Hdata, Hplay.
    unfold playSound. by rewrite Hbytes, Hact, Hslot. }
  rewrite H1. cbn [fst snd].
  remember (updateSlotState index true
              (setAudioRefs (arraySet (audioRefs st) index data) st)) as st1 eqn:E1.
  assert (Hact1 : activeBoard st1 = b) by (by rewrite E1, <- Hact).
  assert (Hb1 : boards st1 = boards st) by (by rewrite E1).
  assert (Hp1 : arrayGet (playbackStates st1) index =
                Some (mkPlaybackState (isRecording p) true)).
  { rewrite E1. unfold updateSlotState. simpl. by rewrite arrayGet_arraySet_eq, Hp. }
  assert (Ha1 : arrayGet (audioRefs st1) index = Some data).
  { rewrite E1. simpl. apply arrayGet_arraySet_eq. }
  assert (H2 : handleSlotClick env index st1 =
               (updateSlotState index false
                  (setAudioRefs (arrayClear (audioRefs st1) index) st1), Normal)).
  { unfold handleSlotClick, slotAction. rewrite Hact1, Hslot. simpl.
    rewrite Htruthy, Hp1. simpl. rewrite Hdata. simpl.
    unfold stopSound. by rewrite Ha1, Hact1, Hslot. }
  rewrite H2. cbn [fst snd].
  split; [done |]. split; [done |]. split; [done |]. split; [done |].
  split; [apply arrayGet_arrayClear |]. split; [| done].
  unfold updateSlotState at 1. cbn [playbackStates setPlaybackStates setAudioRefs].
  by rewrite arrayGet_arraySet_eq, Hp1.
Qed.

Lemma second_click_stops_playback_witness :
  let r1 := handleSlotClick recordingGranted 0 demoApp in
  let r2 := handleSlotClick recordingGranted 0 (fst r1) in
  snd r1 = Normal /\
  arrayGet (audioRefs (fst r1)) 0 = Some "TWFu" /\
  arrayGet (playbackStates (fst r1)) 0 =
    Some (mkPlaybackState (isRecording (mkPlaybackState false false)) true) /\
  snd r2 = Normal /\
  arrayGet (audioRefs (fst r2)) 0 = None /\
  arrayGet (playbackStates (fst r2)) 0 =
    Some (mkPlaybackState (isRecording (mkPlaybackState false false)) false) /\
  boards (fst r2) = boards demoApp.
Proof.
  apply (second_click_stops_playback recordingGranted 0 demoApp demoBoard
           (mkSoundSlot (Str "TWFu") (Some 7%nat) (Str "x") Undefined)
           (mkPlaybackState false false) "TWFu").
  - reflexivity.
  - reflexivity.
  - reflexivity.
  - discriminate.
  - vm_compute. by eexists.
  - reflexivity.
  - reflexivity.
Defined.

(** X13. On a slot that holds audio, key N of the number row and key N of
    the numpad (N from 1 to 9) both do what a click on slot N - 1 does. *)
Theorem handleKeyDown_plays_like_click (env : MediaEnv) (st : App) (i : Z)
    (slot : SoundSlot) :
  0 <= i <= 8 ->
  arrayGet (slots (activeBoard st)) (Z.to_nat i) = Some slot ->
  truthy (audioData slot) = true ->
  handleKeyDown (49 + i) st = handleSlotClick env (Z.to_nat i) st /\
  handleKeyDown (97 + i) st = handleSlotClick env (Z.to_nat i) st.
Proof.
  intros Hi Hslot Haudio.
  assert (Hclick : handleSlotClick env (Z.to_nat i) st =
            match arrayGet (playbackStates st) (Z.to_nat i) with
            | None => (st, Throws)
            | Some p =>
                match audioData slot with
                | Str s => if isPlaying p then stopSound (Z.to_nat i) st
                           else playSound s (Z.to_nat i) st
                | _ => (st, Throws)
                end
            end).
  { unfold handleSlotClick, slotAction. rewrite Hslot. simpl. rewrite Haudio.
    destruct (arrayGet (playbackStates st) (Z.to_nat i)) as [p |]; [| done]. simpl.
    destruct (audioData slot); try done. by destruct (isPlaying p). }
  rewrite Hclick. unfold handleKeyDown, isSlotKey, keyIndex.
  split.
  - destruct (Z.leb_spec 97 (49 + i)); [lia |].
    destruct (Z.leb_spec 49 (49 + i)); [| lia].
    destruct (Z.leb_spec (49 + i) 57); [| lia]. simpl.
    replace (49 + i - 49) with i by lia. by rewrite Hslot, Haudio.
  - destruct (Z.leb_spec 97 (97 + i)); [| lia].
    destruct (Z.leb_spec (97 + i) 105); [| lia]. simpl.
    replace (97 + i - 97) with i by lia. by rewrite Hslot, Haudio.
Qed.

Lemma handleKeyDown_plays_like_click_witness :
  handleKeyDown (49 + 0) demoApp = handleSlotClick recordingGranted (Z.to_nat 0) demoApp /\
  handleKeyDown (97 + 0) demoApp = handleSlotClick recordingGranted (Z.to_nat 0) demoApp.
Proof.
  apply (handleKeyDown_plays_like_click recordingGranted demoApp 0
           (mkSoundSlot (Str "TWFu") (Some 7%nat) (Str "x") Undefined)).
  - lia.
  - reflexivity.
  - reflexivity.
Defined.

(** X14. A key press never records and never edits a board: whatever the
    key and the state, [handleKeyDown] leaves the boards, the active board id,
    the recorder, the recording slot, the microphone permission and the
    console as they were. *)
Theorem handleKeyDown_never_records (keyCode : Z) (st : App) :
  boards (fst (handleKeyDown keyCode st)) = boards st /\
  activeBoardId (fst (handleKeyDown keyCode st)) = activeBoardId st /\
  mediaRecorderRef (fst (handleKeyDown keyCode st)) = mediaRecorderRef st /\
  activeSlotRef (fst (handleKeyDown keyCode st)) = activeSlotRef st /\
  micPermissionGranted (fst (handleKeyDown keyCode st)) = micPermissionGranted st /\
  console (fst (handleKeyDown keyCode st)) = console st.
Proof.
  unfold handleKeyDown.
  destruct (isSlotKey keyCode); [| done].
  destruct (arrayGet (slots (activeBoard st)) _) as [slot |] eqn:Hslot; [| done].
  destruct (truthy (audioData slot)); [| done].
  destruct (arrayGet (playbackStates st) _) as [p |]; [| done].
  destruct (audioData slot); try done.
  destruct (isPlaying p).
  - unfold stopSound. destruct (arrayGet (audioRefs st) _); [| done].
    by rewrite Hslot.
  - unfold playSound. destruct (Base64.atob _); [| done].
    by rewrite Hslot.
Qed.

Lemma find_app_last (P : Soundboard -> bool) l x :
  Forall (fun b => P b = false) l -> P x = true -> find P (l ++ [x]) = Some x.
Proof.
  intros Hl Hx. induction Hl as [| b l Hb _ IH]; simpl; [by rewrite Hx |].
  by rewrite Hb.
Qed.

(** X15. [addNewBoard] appends a board named "New Soundboard" with nine
    empty slots and leaves the data of the boards before it as it was; when
    no board carries the new id yet, the new board is the active board. *)
Theorem addNewBoard_new_active_board (now : string) (st : App) :
  Forall (fun b => id b <> now) (boards st) ->
  map boardData (boards (addNewBoard now st)) =
    map boardData (boards st) ++ [newBoardData now] /\
  activeBoardId (addNewBoard now st) = now /\
  boardData (activeBoard (addNewBoard now st)) = newBoardData now /\
  syncActiveBoard (addNewBoard now st) = addNewBoard now st.
Proof.
  intros Hfresh.
  assert (Hdata : map boardData (boards (addNewBoard now st)) =
                  map boardData (boards st) ++ [newBoardData now]).
  { unfold addNewBoard. cbn [boards setActiveBoardId].
    by rewrite boardData_saveBoards, map_app. }
  assert (Hfind : exists b', foundBoard (addNewBoard now st) = Some b' /\
                             boardData b' = newBoardData now).
  { unfold foundBoard, addNewBoard, saveBoards.
    cbn [boards setActiveBoardId setBoards activeBoardId id].
    rewrite map_app. simpl map at 2.
    eexists. split.
    - apply find_app_last.
      + apply Forall_fmap, (Forall_impl _ _ _ Hfresh). intros b Hb. simpl.
        apply String.eqb_neq.
        by destruct (String.eqb (id b) (activeBoardId st)).
      + apply String.eqb_eq. by destruct (String.eqb now (activeBoardId st)).
    - destruct (String.eqb now (activeBoardId st)); [| done].
      unfold boardData, boardFields, newBoardData; simpl. do 2 f_equal. }
  destruct Hfind as (b' & Hfind & Hb').
  split; [done |]. split; [done |]. split.
  - by rewrite (foundBoard_active _ _ Hfind).
  - unfold syncActiveBoard. unfold foundBoard in Hfind. by rewrite Hfind.
Qed.

Lemma addNewBoard_new_active_board_witness :
  map boardData (boards (addNewBoard "1700000000000" initialApp)) =
    map boardData (boards initialApp) ++ [newBoardData "1700000000000"] /\
  activeBoardId (addNewBoard "1700000000000" initialApp) = "1700000000000" /\
  boardData (activeBoard (addNewBoard "1700000000000" initialApp)) =
    newBoardData "1700000000000" /\
  syncActiveBoard (addNewBoard "1700000000000" initialApp) =
    addNewBoard "1700000000000" initialApp.
Proof.
  apply (addNewBoard_new_active_board "1700000000000" initialApp).
  apply Forall_cons_2; [discriminate | apply Forall_nil_2].
Defined.

(** X16. With at least two boards and one that does not carry the active
    id, [deleteCurrentBoard] removes the boards carrying the active id and
    nothing else: the other boards stay, unchanged and in order, and the first
    of them becomes the active board. *)
Theorem deleteCurrentBoard_removes_active_board (st : App) (b : Soundboard) :
  (2 <= length (boards st))%nat ->
  b ∈ boards st -> id b <> activeBoardId st ->
  exists b0 rest,
    deleteCurrentBoard st =
      (setActiveBoardId (id b0) (setBoards (b0 :: rest) st), Normal) /\
    b0 :: rest =
      filter (fun b' => negb (String.eqb (id b') (activeBoardId st))) (boards st) /\
    activeBoard (fst (deleteCurrentBoard st)) = b0 /\
    (forall b', b' ∈ b0 :: rest <-> b' ∈ boards st /\ id b' <> activeBoardId st).
Proof.
  intros Hlen Hin Hne. unfold deleteCurrentBoard.
  destruct (Nat.leb_spec (length (boards st)) 1); [lia |].
  set (kept := filter (fun b' => negb (String.eqb (id b') (activeBoardId st)))
                      (boards st)).
  assert (Hkept : forall b', b' ∈ kept <-> b' ∈ boards st /\ id b' <> activeBoardId st).
  { intros b'. subst kept. rewrite list_elem_of_filter.
    rewrite Is_true_true, negb_true_iff, String.eqb_neq. tauto. }
  assert (Hsave : saveBoards kept st = setBoards kept st).
  { unfold saveBoards. f_equal.
    rewrite <- (map_id kept) at 2. apply map_ext_in. intros b' Hb'.
    apply list_elem_of_In, Hkept in Hb' as [_ Hb'].
    by destruct (String.eqb_spec (id b') (activeBoardId st)). }
  assert (Hb : b ∈ kept) by (by apply Hkept).
  destruct kept as [| b0 rest] eqn:E; [by apply elem_of_nil in Hb |].
  exists b0, rest. rewrite Hsave. split; [done |]. split; [done |]. split; [| done].
  unfold activeBoard. simpl. by rewrite String.eqb_refl.
Qed.

Lemma deleteCurrentBoard_removes_active_board_witness :
  exists b0 rest,
    deleteCurrentBoard twoBoards =
      (setActiveBoardId (id b0) (setBoards (b0 :: rest) twoBoards), Normal) /\
    b0 :: rest =
      filter (fun b' => negb (String.eqb (id b') (activeBoardId twoBoards)))
             (boards twoBoards) /\
    activeBoard (fst (deleteCurrentBoard twoBoards)) = b0 /\
    (forall b', b' ∈ b0 :: rest <->
                b' ∈ boards twoBoards /\ id b' <> activeBoardId twoBoards).
Proof.
  apply (deleteCurrentBoard_removes_active_board twoBoards defaultBoard).
  - simpl; lia.
  - apply elem_of_cons. by left.
  - discriminate.
Defined.

Lemma saveBoards_slot_update (g : option SoundSlot -> SoundSlot) index st b s :
  foundBoard st = Some b ->
  arrayGet (slots b) index = Some s ->
  exists b',
    foundBoard (saveBoards
                  (mapActiveSlots (fun sl => arraySet sl index (g (arrayGet sl index))) st)
                  st) = Some b' /\
    id b' = id b /\ name b' = name b /\
    arrayGet (slots b') index = Some (keepWaveform b index (g (Some s))) /\
    forall j, j <> index -> arrayGet (slots b') j = arrayGet (slots b) j.
Proof.
  intros Hfind Hs.
  rewrite (activeBoard_mapActiveSlots _ st b Hfind).
  eexists. split; [done |]. simpl. split; [done |]. split; [done |]. split.
  - by rewrite arrayGet_imap, arrayGet_arraySet_eq, Hs.
  - intros j Hj. rewrite arrayGet_imap, arrayGet_arraySet_ne by done.
    destruct (arrayGet (slots b) j) as [s' |] eqn:Hs'; [| done].
    simpl. by rewrite keepWaveform_same.
Qed.

(** X26. Labels compose: an emoji given to a slot and then a title leave
    the slot with its audio data and waveform handle, the emoji and the title;
    the other slots of the board are as they were. *)
Theorem slot_labels_compose (index : nat) (st : App) (b : Soundboard)
    (s : SoundSlot) (e t : string) :
  foundBoard st = Some b ->
  arrayGet (slots b) index = Some s ->
  e <> "" ->
  exists b',
    handleTitleClick index (Some t) (handleEmojiClick index (Some e) st) =
      (fst (handleTitleClick index (Some t) (handleEmojiClick index (Some e) st)),
       Normal) /\
    foundBoard (fst (handleTitleClick index (Some t)
                       (handleEmojiClick index (Some e) st))) = Some b' /\
    arrayGet (slots b') index =
      Some (mkSoundSlot (audioData s) (waveform s) (Str e) (Str t)) /\
    forall j, j <> index -> arrayGet (slots b') j = arrayGet (slots b) j.
Proof.
  intros Hfind Hs He.
  assert (Htruthy : truthy (Str e) = true).
  { simpl. by destruct (String.eqb_spec e ""). }
  unfold handleEmojiClick. rewrite Htruthy.
  destruct (saveBoards_slot_update (fun o => withEmoji o (Str e)) index st b s Hfind Hs)
    as (b1 & Hfind1 & _ & _ & Hs1 & Hother1).
  remember (saveBoards
              (mapActiveSlots
                 (fun sl => arraySet sl index (withEmoji (arrayGet sl index) (Str e))) st)
              st) as st1 eqn:E1.
  unfold handleTitleClick.
  rewrite (foundBoard_active st1 b1 Hfind1), Hs1.
  destruct (saveBoards_slot_update (fun o => withTitle o (Str t)) index st1 b1 _
              Hfind1 Hs1) as (b2 & Hfind2 & _ & _ & Hs2 & Hother2).
  exists b2. cbn [fst]. split; [done |]. split; [exact Hfind2 |]. split.
  - rewrite Hs2. unfold keepWaveform at 1. rewrite Hs1.
    unfold keepWaveform. rewrite Hs. simpl.
    by destruct s as [a [wv |] e0 t0].
  - intros j Hj. by rewrite Hother2, Hother1 by done.
Qed.

Lemma slot_labels_compose_witness :
  exists b',
    handleTitleClick 0 (Some "Jingle") (handleEmojiClick 0 (Some "x") demoApp) =
      (fst (handleTitleClick 0 (Some "Jingle") (handleEmojiClick 0 (Some "x") demoApp)),
       Normal) /\
    foundBoard (fst (handleTitleClick 0 (Some "Jingle")
                       (handleEmojiClick 0 (Some "x") demoApp))) = Some b' /\
    arrayGet (slots b') 0 =
      Some (mkSoundSlot
              (audioData (mkSoundSlot (Str "TWFu") (Some 7%nat) (Str "x") Undefined))
              (waveform (mkSoundSlot (Str "TWFu") (Some 7%nat) (Str "x") Undefined))
              (Str "x") (Str "Jingle")) /\
    forall j, j <> 0%nat -> arrayGet (slots b') j = arrayGet (slots demoBoard) j.
Proof.
  apply (slot_labels_compose 0 demoApp demoBoard
           (mkSoundSlot (Str "TWFu") (Some 7%nat) (Str "x") Undefined) "x" "Jingle").
  - reflexivity.
  - reflexivity.
  - discriminate.
Defined.

Lemma map_id_saveBoards newBoards st :
  map id (boards (saveBoards newBoards st)) = map id newBoards.
Proof.
  pose proof (boardData_saveBoards newBoards st) as H.
  apply (f_equal (map (fun d => fst (fst d)))) in H.
  rewrite !map_map in H. exact H.
Qed.

Lemma map_boardFields_saveBoards newBoards st :
  map boardFields (boards (saveBoards newBoards st)) = map boardFields newBoards.
Proof.
  pose proof (boardData_saveBoards newBoards st) as H.
  apply (f_equal (map snd)) in H.
  rewrite !map_map in H. exact H.
Qed.

Lemma imap_keepWaveform b :
  imap (fun idx slot => keepWaveform b idx <$> slot) (slots b) = slots b.
Proof.
  apply list_eq. intros i. rewrite list_lookup_imap.
  destruct (slots b !! i) as [[s |] |] eqn:Hs; [| done | done].
  simpl. rewrite keepWaveform_same; [done |]. unfold arrayGet. by rewrite Hs.
Qed.

(** X27. [updateBoardName] renames the active board and nothing else: the
    board keeps its id and its slots (waveform handles included), the boards
    that do not carry the active id are untouched, no board's slot data
    changes, and the title is no longer being edited. *)
Theorem updateBoardName_renames_active_board (newName : string) (st : App)
    (b : Soundboard) :
  foundBoard st = Some b ->
  foundBoard (updateBoardName newName st) =
    Some (mkSoundboard (id b) (Str newName) (slots b) (origin b)) /\
  map id (boards (updateBoardName newName st)) = map id (boards st) /\
  map boardFields (boards (updateBoardName newName st)) = map boardFields (boards st) /\
  (forall i b0, boards st !! i = Some b0 -> id b0 <> activeBoardId st ->
     boards (updateBoardName newName st) !! i = Some b0) /\
  isEditingTitle (updateBoardName newName st) = false.
Proof.
  intros Hfind.
  pose proof (foundBoard_active st b Hfind) as Hact.
  pose proof (foundBoard_id st b Hfind) as Hid.
  assert (Hb : String.eqb (id b) (activeBoardId st) = true) by (by apply String.eqb_eq).
  split; [| split; [| split; [| split; [| done]]]].
  - unfold foundBoard in *. unfold updateBoardName, saveBoards. simpl.
    rewrite !find_map_id, Hfind; simpl.
    + rewrite Hb. simpl. rewrite Hb, Hact. do 2 f_equal. apply imap_keepWaveform.
    + intros b'. by destruct (String.eqb (id b') (activeBoardId st)).
    + intros b'. by destruct (String.eqb (id b') (activeBoardId st)).
  - unfold updateBoardName. cbn [boards setIsEditingTitle].
    rewrite map_id_saveBoards, map_map. apply map_ext. intros b'.
    by destruct (String.eqb (id b') (activeBoardId st)).
  - unfold updateBoardName. cbn [boards setIsEditingTitle].
    rewrite map_boardFields_saveBoards, map_map. apply map_ext. intros b'.
    by destruct (String.eqb (id b') (activeBoardId st)).
  - intros i b0 Hb0 Hne. unfold updateBoardName, saveBoards. simpl.
    rewrite !list_lookup_fmap, Hb0. simpl.
    destruct (String.eqb_spec (id b0) (activeBoardId st)); [done |]. simpl.
    by destruct (String.eqb_spec (id b0) (activeBoardId st)).
Qed.

Lemma updateBoardName_renames_active_board_witness :
  foundBoard (updateBoardName "Jingles 2" demoApp) =
    Some (mkSoundboard (id demoBoard) (Str "Jingles 2") (slots demoBoard)
                       (origin demoBoard)) /\
  map id (boards (updateBoardName "Jingles 2" demoApp)) = map id (boards demoApp) /\
  map boardFields (boards (updateBoardName "Jingles 2" demoApp)) =
    map boardFields (boards demoApp) /\
  (forall i b0, boards demoApp !! i = Some b0 -> id b0 <> activeBoardId demoApp ->
     boards (updateBoardName "Jingles 2" demoApp) !! i = Some b0) /\
  isEditingTitle (updateBoardName "Jingles 2" demoApp) = false.
Proof.
  apply (updateBoardName_renames_active_board "Jingles 2" demoApp demoBoard).
  reflexivity.
Defined.

End SoundboardSlotFacts.

Module BrowserHistoryFacts.

Import Js JsArray JsArrayFacts BrowserHistory.

Local Open Scope string_scope.
Local Open Scope list_scope.

Lemma lookupProp_setProp props k v : lookupProp (setProp props k v) k = v.
Proof.
  unfold lookupProp.
  induction props as [| [k' x] rest IH]; simpl.
  - by rewrite String.eqb_refl.
  - destruct (String.eqb k' k) eqn:E; simpl.
    + by rewrite String.eqb_refl.
    + by rewrite E.
Qed.

Lemma timestampOf_stamp entry now :
  timestampOf (stamp entry now) = Some (inject_Z now).
Proof. unfold timestampOf, stamp. simpl. by rewrite lookupProp_setProp. Qed.

Lemma newestFirst_take n l : newestFirst l -> newestFirst (take n l).
Proof.
  revert l. induction n as [| n IH]; intros [| a rest]; simpl; try done.
  intros [Hhd Htl]. split; [| by apply IH].
  destruct rest as [| b rest']; [by destruct n |].
  destruct n; simpl; done.
Qed.

Lemma slice_unshift {A} (x : A) (l : list A) :
  slice (x :: l) 0 100 = x :: take 99 l.
Proof. rewrite slice_0 by lia. reflexivity. Qed.

Lemma getProp_stamp_other entry now k :
  k <> "timestamp" ->
  lookupProp (setProp entry "timestamp" (Num (inject_Z now))) k = lookupProp entry k.
Proof.
  intros Hk. induction entry as [| [k' x] rest IH]; cbn [setProp].
  - rewrite SoundboardFacts.lookupProp_cons.
    by destruct (String.eqb_spec "timestamp" k); [congruence |].
  - destruct (String.eqb_spec k' "timestamp") as [-> | Hk'].
    + rewrite !SoundboardFacts.lookupProp_cons.
      by destruct (String.eqb_spec "timestamp" k); [congruence |].
    + rewrite !SoundboardFacts.lookupProp_cons. by rewrite IH.
Qed.

(** C10 (as amended). Whatever list the storage holds as history (the list
    its text parses to, or the empty list when there is no text),
    [addToHistory] stores the text of the list made of the new entry, which
    has every property of the given entry and the current time as
    [timestamp], followed by the first 99 (at most) of the previous entries
    in their order; the stored list has at most 100 entries. It is ordered
    newest first when the previous list was and no previous entry is later
    than the current time. *)
Theorem addToHistory_keeps_newest_100 (JSON_stringify : value -> string)
    (JSON_parse : string -> option value) (localStorage : gmap string string)
    (old : list value) (entry : list (string * value)) (now : Z) :
  (exists saved, localStorage !! HISTORY = Some saved /\ saved <> "" /\
                 JSON_parse saved = Some (Arr old)) \/
  ((localStorage !! HISTORY = None \/ localStorage !! HISTORY = Some "") /\
   old = []) ->
  let newEntry := Obj (setProp entry "timestamp" (Num (inject_Z now))) in
  addToHistory JSON_stringify JSON_parse entry now localStorage =
    Some (<[HISTORY := JSON_stringify (Arr (newEntry :: take 99 old))]>
            localStorage) /\
  (length (newEntry :: take 99 old) <= 100)%nat /\
  getProp newEntry "timestamp" = Some (Num (inject_Z now)) /\
  (forall k, k <> "timestamp" -> getProp newEntry k = Some (lookupProp entry k)) /\
  (forall i e, (i < 99)%nat -> old !! i = Some e ->
     (newEntry :: take 99 old) !! S i = Some e) /\
  (newestFirst old ->
   (forall e, e ∈ old -> exists q, timestampOf e = Some q /\ Qle q (inject_Z now)) ->
   newestFirst (newEntry :: take 99 old)).
Proof.
  intros Hstored newEntry.
  assert (Hload : loadHistory JSON_parse localStorage = Some (Arr old)).
  { unfold loadHistory.
    destruct Hstored as [(saved & -> & Hne & Hparse) | [[-> | ->] ->]]; try done.
    by destruct (String.eqb_spec saved ""). }
  split; [| split; [| split; [| split; [| split]]]].
  - unfold addToHistory. rewrite Hload. cbn [mbind option_bind].
    unfold saveHistory. by rewrite slice_unshift.
  - simpl. rewrite length_take. lia.
  - subst newEntry. simpl. by rewrite lookupProp_setProp.
  - intros k Hk. subst newEntry. simpl. by rewrite getProp_stamp_other.
  - intros i e Hi He. simpl. by rewrite lookup_take_lt.
  - intros Hold Hclock. split; [| by apply newestFirst_take].
    destruct old as [| b rest]; [done |]. simpl.
    destruct (Hclock b) as (q & Hq & Hle); [left |].
    exists (inject_Z now), q. split; [apply timestampOf_stamp | done].
Qed.

Lemma addToHistory_keeps_newest_100_witness :
  let newEntry :=
    Obj (setProp [("url", Str "https://c.example")] "timestamp" (Num (inject_Z 3000))) in
  addToHistory demoStringify demoParse [("url", Str "https://c.example")] 3000
               twoVisitsStorage =
    Some (<[HISTORY := demoStringify (Arr (newEntry :: take 99 twoVisits))]>
            twoVisitsStorage) /\
  (length (newEntry :: take 99 twoVisits) <= 100)%nat /\
  getProp newEntry "timestamp" = Some (Num (inject_Z 3000)) /\
  (forall k, k <> "timestamp" ->
     getProp newEntry k = Some (lookupProp [("url", Str "https://c.example")] k)) /\
  (forall i e, (i < 99)%nat -> twoVisits !! i = Some e ->
     (newEntry :: take 99 twoVisits) !! S i = Some e) /\
  (newestFirst twoVisits ->
   (forall e, e ∈ twoVisits -> exists q, timestampOf e = Some q /\ Qle q (inject_Z 3000)) ->
   newestFirst (newEntry :: take 99 twoVisits)).
Proof.
  apply (addToHistory_keeps_newest_100 demoStringify demoParse twoVisitsStorage
           twoVisits [("url", Str "https://c.example")] 3000).
  left. exists twoVisitsText. split; [| split].
  - apply lookup_singleton_eq.
  - discriminate.
  - reflexivity.
Defined.

(** C10 (as stated) fails: the stored list need not be ordered newest
    first. The storage holds two visits of the times 2000 and 1000, newest
    first; when [Date.now()] gives 1500 (the clock was set back),
    [addToHistory] stores the visit of 1500 before the visit of 2000. *)
Lemma addToHistory_clock_set_back :
  twoVisitsStorage !! HISTORY = Some twoVisitsText /\
  demoParse twoVisitsText = Some (Arr twoVisits) /\
  newestFirst twoVisits /\
  addToHistory demoStringify demoParse [("url", Str "https://c.example")] 1500
               twoVisitsStorage =
    Some (<[HISTORY := demoStringify (Arr (visit "https://c.example" 1500 :: twoVisits))]>
            twoVisitsStorage) /\
  demoStringify (Arr (visit "https://c.example" 1500 :: twoVisits)) =
    "https://c.example https://b.example https://a.example" /\
  ~ newestFirst (visit "https://c.example" 1500 :: twoVisits).
Proof.
  split; [apply lookup_singleton_eq |]. split; [reflexivity |].
  split; [| split; [| split; [reflexivity |]]].
  - split; [| done]. eexists _, _. split; [reflexivity |]. split; [reflexivity |].
    unfold Qle. simpl. lia.
  - unfold addToHistory, loadHistory, twoVisitsStorage.
    rewrite (lookup_singleton_eq (M := gmap string)). reflexivity.
  - intros [(qa & qb & Ha & Hb & Hle) _].
    injection Ha as <-. injection Hb as <-.
    unfold Qle in Hle. simpl in Hle. lia.
Qed.

End BrowserHistoryFacts.

Module WindowFrameFacts.

Import WindowFrame.

(** X17. While the window is dragged and fits into the viewport,
    [handleMouseMove] keeps all of it inside the viewport, wherever the
    pointer is. *)
Theorem drag_keeps_window_in_viewport (scr : Screen) (clientX clientY : Z)
    (st : DragState) :
  isDragging st = true ->
  offsetWidth scr <= innerWidth scr ->
  offsetHeight scr <= innerHeight scr ->
  let p := windowPosition (handleMouseMove scr clientX clientY st) in
  0 <= pos_x p /\ pos_x p + offsetWidth scr <= innerWidth scr /\
  0 <= pos_y p /\ pos_y p + offsetHeight scr <= innerHeight scr.
Proof.
  intros Hdrag Hw Hh. unfold handleMouseMove. rewrite Hdrag. simpl. lia.
Qed.

Lemma drag_keeps_window_in_viewport_witness :
  let p := windowPosition
             (handleMouseMove desktop 5000 (-7)
                (handleMouseDown 16 40 20 50 atRest)) in
  0 <= pos_x p /\ pos_x p + offsetWidth desktop <= innerWidth desktop /\
  0 <= pos_y p /\ pos_y p + offsetHeight desktop <= innerHeight desktop.
Proof.
  apply (drag_keeps_window_in_viewport desktop 5000 (-7)
           (handleMouseDown 16 40 20 50 atRest));
    [reflexivity | simpl; lia | simpl; lia].
Defined.

(** X18. A window larger than the viewport is pinned while it is dragged:
    whatever the pointer does, [handleMouseMove] puts its left edge at
    [innerWidth - offsetWidth], left of the viewport. *)
Theorem drag_pins_oversized_window (scr : Screen) (clientX clientY : Z)
    (st : DragState) :
  isDragging st = true ->
  innerWidth scr < offsetWidth scr ->
  pos_x (windowPosition (handleMouseMove scr clientX clientY st)) =
    innerWidth scr - offsetWidth scr /\
  pos_x (windowPosition (handleMouseMove scr clientX clientY st)) < 0.
Proof.
  intros Hdrag Hw. unfold handleMouseMove. rewrite Hdrag. simpl. lia.
Qed.

Lemma drag_pins_oversized_window_witness :
  pos_x (windowPosition
           (handleMouseMove (mkScreen 640 480 800 600) 300 200
              (handleMouseDown 0 0 10 10 atRest))) =
    innerWidth (mkScreen 640 480 800 600) - offsetWidth (mkScreen 640 480 800 600) /\
  pos_x (windowPosition
           (handleMouseMove (mkScreen 640 480 800 600) 300 200
              (handleMouseDown 0 0 10 10 atRest))) < 0.
Proof.
  apply (drag_pins_oversized_window (mkScreen 640 480 800 600) 300 200
           (handleMouseDown 0 0 10 10 atRest));
    [reflexivity | simpl; lia].
Defined.

(** X19. Grabbing the window and moving the pointer moves the window by the
    pointer's displacement, as long as that keeps it inside the viewport. *)
Theorem drag_follows_pointer (scr : Screen) (rectLeft rectTop x0 y0 x1 y1 : Z)
    (st : DragState) :
  0 <= rectLeft + (x1 - x0) <= innerWidth scr - offsetWidth scr ->
  0 <= rectTop + (y1 - y0) <= innerHeight scr - offsetHeight scr ->
  windowPosition
    (handleMouseMove scr x1 y1 (handleMouseDown rectLeft rectTop x0 y0 st)) =
  mkPosition (rectLeft + (x1 - x0)) (rectTop + (y1 - y0)).
Proof.
  intros Hx Hy. unfold handleMouseMove, handleMouseDown. simpl.
  f_equal; lia.
Qed.

Lemma drag_follows_pointer_witness :
  windowPosition
    (handleMouseMove desktop 120 90 (handleMouseDown 16 40 20 50 atRest)) =
  mkPosition (16 + (120 - 20)) (40 + (90 - 50)).
Proof.
  apply (drag_follows_pointer desktop 16 40 20 50 120 90 atRest); simpl; lia.
Defined.

(** X20. In a viewport of at least 432 x 332, a resize leaves the window
    between 400 x 300 and the viewport less 32 in each direction, whatever
    the pointer does, in every direction the dragged edge or corner
    controls. *)
Theorem resize_size_bounds (scr : Screen) (t : ResizeType) (rs : ResizeStart)
    (clientX clientY : Z) (current : Size * Position) :
  432 <= innerWidth scr -> 332 <= innerHeight scr ->
  let sz := fst (handleResize scr t rs clientX clientY current) in
  (includes_e t || includes_w t = true ->
   400 <= size_width sz <= innerWidth scr - 32) /\
  (includes_s t || includes_n t = true ->
   300 <= size_height sz <= innerHeight scr - 32).
Proof.
  intros Hw Hh. unfold handleResize, minWidth, minHeight.
  destruct t; simpl; (split; [intros He | intros Hs]); try done;
    repeat match goal with
           | |- context [?a =? ?b] => destruct (Z.eqb_spec a b); simpl
           end; simpl; lia.
Qed.

Lemma resize_size_bounds_witness :
  let sz := fst (handleResize desktop SE startAtRest 9000 (-9000)
                   (mkSize 800 600, mkPosition 16 40)) in
  (includes_e SE || includes_w SE = true ->
   400 <= size_width sz <= innerWidth desktop - 32) /\
  (includes_s SE || includes_n SE = true ->
   300 <= size_height sz <= innerHeight desktop - 32).
Proof.
  apply (resize_size_bounds desktop SE startAtRest 9000 (-9000)
           (mkSize 800 600, mkPosition 16 40));
    simpl; lia.
Defined.

(** X21. A resize keeps the edge opposite to the dragged one where it was
    when the resize began: dragging a west edge keeps the right edge, any
    other the left edge; dragging a north edge keeps the bottom edge, any
    other the top edge. *)
Theorem resize_keeps_opposite_edge (scr : Screen) (t : ResizeType)
    (rs : ResizeStart) (clientX clientY : Z) (current : Size * Position) :
  t <> NoResize ->
  let r := handleResize scr t rs clientX clientY current in
  (if includes_w t
   then pos_x (snd r) + size_width (fst r) = rs_left rs + rs_width rs
   else pos_x (snd r) = rs_left rs) /\
  (if includes_n t
   then pos_y (snd r) + size_height (fst r) = rs_top rs + rs_height rs
   else pos_y (snd r) = rs_top rs).
Proof.
  intros Ht. unfold handleResize.
  destruct t; try done; simpl;
    repeat match goal with
           | |- context [?a =? ?b] => destruct (Z.eqb_spec a b); simpl
           end; lia.
Qed.

Lemma resize_keeps_opposite_edge_witness :
  let r := handleResize desktop NW startAtRest 700 700
             (mkSize 800 600, mkPosition 16 40) in
  (if includes_w NW
   then pos_x (snd r) + size_width (fst r) = rs_left startAtRest + rs_width startAtRest
   else pos_x (snd r) = rs_left startAtRest) /\
  (if includes_n NW
   then pos_y (snd r) + size_height (fst r) = rs_top startAtRest + rs_height startAtRest
   else pos_y (snd r) = rs_top startAtRest).
Proof.
  apply (resize_keeps_opposite_edge desktop NW startAtRest 700 700
           (mkSize 800 600, mkPosition 16 40)).
  discriminate.
Defined.

End WindowFrameFacts.

Module SettingsFacts.

Import Js BrowserHistory Settings.

Local Open Scope string_scope.

Lemma getItemOr_insert ls key fallback v :
  getItemOr (<[key := v]> ls) key fallback =
    if String.eqb v "" then fallback else v.
Proof. unfold getItemOr. by rewrite lookup_insert_eq. Qed.

Lemma getItemOr_insert_ne ls key key' fallback v :
  key' <> key -> getItemOr (<[key' := v]> ls) key fallback = getItemOr ls key fallback.
Proof. intros Hne. unfold getItemOr. by rewrite lookup_insert_ne. Qed.

(** X22. What is saved is what is loaded, but for the empty string, which
    loads as the default: the last URL and the wayback year come back as
    saved unless they are empty, the device id always, and the help flag is
    set once saved. *)
Theorem settings_round_trip (ls : gmap string string) (url year deviceId : string) :
  loadLastUrl (saveLastUrl url ls) = (if String.eqb url "" then DEFAULT_URL else url) /\
  loadWaybackYear (saveWaybackYear year ls) =
    (if String.eqb year "" then DEFAULT_YEAR else year) /\
  loadSelectedDeviceId (saveSelectedDeviceId deviceId ls) = deviceId /\
  loadHasSeenHelp (saveHasSeenHelp ls) = true.
Proof.
  unfold loadLastUrl, saveLastUrl, loadWaybackYear, saveWaybackYear,
    loadSelectedDeviceId, saveSelectedDeviceId, loadHasSeenHelp, saveHasSeenHelp.
  rewrite !getItemOr_insert, lookup_insert_eq.
  repeat split. by destruct (String.eqb_spec deviceId "").
Qed.

(** X23. The stored settings do not overwrite one another: the key of the
    wayback year (the key of the last URL with ":year" appended) is a key of
    its own, so saving the URL keeps the year and saving the year keeps the
    URL, and neither touches the browser history, nor does adding to the
    history touch them. *)
Theorem settings_do_not_interfere (JSON_stringify : value -> string)
    (JSON_parse : string -> option value) (ls : gmap string string)
    (url year : string) (entry : list (string * value)) (now : Z) :
  loadWaybackYear (saveLastUrl url ls) = loadWaybackYear ls /\
  loadLastUrl (saveWaybackYear year ls) = loadLastUrl ls /\
  loadHistory JSON_parse (saveLastUrl url ls) = loadHistory JSON_parse ls /\
  loadHistory JSON_parse (saveWaybackYear year ls) = loadHistory JSON_parse ls /\
  (forall ls', addToHistory JSON_stringify JSON_parse entry now ls = Some ls' ->
     loadLastUrl ls' = loadLastUrl ls /\ loadWaybackYear ls' = loadWaybackYear ls).
Proof.
  unfold loadLastUrl, saveLastUrl, loadWaybackYear, saveWaybackYear.
  split; [by apply getItemOr_insert_ne |].
  split; [by apply getItemOr_insert_ne |].
  split; [unfold loadHistory; by rewrite lookup_insert_ne |].
  split; [unfold loadHistory; by rewrite lookup_insert_ne |].
  intros ls' Hadd. unfold addToHistory in Hadd.
  destruct (loadHistory JSON_parse ls) as [[| | | | | entries |] |]; try done.
  simpl in Hadd. injection Hadd as <-. unfold saveHistory.
  split; by apply getItemOr_insert_ne.
Qed.

End SettingsFacts.

Module AppStateMigrationFacts.

Import AppStateMigration.

Lemma insertSorted_perm {A} (key : A -> Z) x l : insertSorted key x l ≡ₚ x :: l.
Proof.
  induction l as [| y l IH]; simpl; [done |].
  destruct (key x <=? key y); [done |].
  rewrite IH. apply Permutation_swap.
Qed.

Lemma sortByKey_perm {A} (key : A -> Z) l : sortByKey key l ≡ₚ l.
Proof.
  induction l as [| x l IH]; simpl; [done |].
  by rewrite insertSorted_perm, IH.
Qed.

Lemma insertSorted_ascending {A} (key : A -> Z) x l :
  ascendingBy key l -> ascendingBy key (insertSorted key x l).
Proof.
  induction l as [| y l IH]; simpl; [done |]. intros [Hy Hl].
  destruct (Z.leb_spec (key x) (key y)); simpl.
  - split; [| done]. apply Forall_cons. split; [done |].
    apply (Forall_impl _ _ _ Hy). intros z Hz. lia.
  - split; [| by apply IH].
    rewrite insertSorted_perm. apply Forall_cons. split; [lia | done].
Qed.

Lemma sortByKey_ascending {A} (key : A -> Z) l : ascendingBy key (sortByKey key l).
Proof.
  induction l as [| x l IH]; simpl; [done |]. by apply insertSorted_ascending.
Qed.

(** X24. Migrating a stored state of the old format gives a window order
    that holds exactly the apps that were open, each once, in ascending order
    of their [zIndex] (a missing one counting as 0); an app that was closed is
    never in it. *)
Theorem migrated_window_order (oldState : list (string * OldAppState)) :
  exists opened,
    windowOrder (migrateOldState oldState) = map fst opened /\
    opened ≡ₚ filter (fun e => old_isOpen (snd e)) oldState /\
    ascendingBy zIndexOr0 opened /\
    length (windowOrder (migrateOldState oldState)) =
      length (filter (fun e => old_isOpen (snd e)) oldState) /\
    (forall e, e ∈ opened <-> e ∈ oldState /\ old_isOpen (snd e) = true).
Proof.
  exists (sortByKey zIndexOr0 (filter (fun e => old_isOpen (snd e)) oldState)).
  split; [done |]. split; [apply sortByKey_perm |].
  split; [apply sortByKey_ascending |]. split.
  - simpl. by rewrite length_map, sortByKey_perm.
  - intros e. rewrite sortByKey_perm, list_elem_of_filter, Is_true_true. tauto.
Qed.

End AppStateMigrationFacts.
